(** * Reporter fitting and ensembled evaluation: a shallow embedding

    The development follows the Python sources:
    - [elk/utils_evaluation/probes.py]   (modules [Probes], [ProbeFamily],
                                          [MLP]),
    - [elk/training/preprocessing.py]    (modules [Preprocessing], [Centring]),
    - [elk/training/burns_norm.py]       (module [BurnsNorm]),
    - [ccs/training/train.py]            (modules [Train], [Runs],
                                          [SavedLogprobs]),
    - [elk/extraction/extraction.py]     (module [Extraction]).

    The eigen fitter's statistics (module [Accumulator]) and the evaluation
    engine (module [Metrics]) are not among the sources and follow the
    specification.  Module [Scenario] holds concrete data for examples.

    The probes [LinearProbe] and [MLPProbe] compute in floating point
    (module [Float]: rounding, overflow to the infinities, NaN).  Elsewhere
    floating-point tensors are idealised as real numbers ([R]), which is
    the code's arithmetic as long as no divisor is zero.  Python integers
    are [Z] or [nat]; Python exceptions are values of [PyError].
    The first part holds the definitions, the second their properties. *)

From Stdlib Require Import Reals Lra Lia String Ascii DecimalString ZArith Bool.
From Stdlib Require Import DecimalPos DecimalZ.
From Stdlib Require Import List Permutation Sorted.
Import ListNotations.

Set Implicit Arguments.

(** ** Real-valued vectors *)

Module Vec.
Local Open Scope R_scope.

Definition vec := list R.

(** Sum of the entries, as [Tensor.sum()]. *)
Definition rsum (l : list R) : R := fold_right Rplus 0 l.

(** Inner product of two equally long vectors, as the [x @ w] of a linear
    layer with a single output. *)
Definition dot (w x : vec) : R :=
  rsum (map (fun p => fst p * snd p) (combine w x)).

(** [torch.sigmoid]. *)
Definition sigmoid (z : R) : R := 1 / (1 + exp (- z)).

End Vec.


(** ** Floating-point numbers *)

Module Float.
Local Open Scope R_scope.

(** A binary floating-point format, as far as the probes depend on it:
    [fmax] is the largest finite number and [rnd] rounds a real number to
    the precision of the format, the exponent being unbounded.  The laws
    hold of rounding to nearest in every IEEE 754 binary format. *)
Class Format := {
  fmax : R;
  rnd : R -> R;
  fmax_ge_1 : 1 <= fmax;
  rnd_monotone : forall x y, x <= y -> rnd x <= rnd y;
  rnd_0 : rnd 0 = 0;
  rnd_1 : rnd 1 = 1;
  rnd_opp : forall x, rnd (- x) = - rnd x;
  rnd_overflow : forall x, 2 * fmax <= x -> fmax < rnd x
}.

(** The entries of a floating-point tensor.  A zero carries no sign. *)
Inductive num :=
| Finite (r : R)
| PlusInf
| MinusInf
| Nan.

Definition is_finite (a : num) : Prop :=
  match a with Finite _ => True | _ => False end.

(** A credence: a finite number between 0 and 1. *)
Definition unit_credence (a : num) : Prop :=
  match a with Finite r => 0 <= r <= 1 | _ => False end.

(** The order of the numbers that are not NaN. *)
Definition fle (a b : num) : Prop :=
  match a, b with
  | Nan, _ => False
  | _, Nan => False
  | MinusInf, _ => True
  | _, PlusInf => True
  | Finite x, Finite y => x <= y
  | Finite _, MinusInf => False
  | PlusInf, Finite _ => False
  | PlusInf, MinusInf => False
  end.

Section Operations.
Context {F : Format}.

(** The result of an operation whose exact value is [x]: rounded, and an
    infinity when the rounded value is out of range. *)
Definition round (x : R) : num :=
  if Rlt_dec fmax (rnd x) then PlusInf
  else if Rlt_dec (rnd x) (- fmax) then MinusInf
  else Finite (rnd x).

Definition fneg (a : num) : num :=
  match a with
  | Finite r => Finite (- r)
  | PlusInf => MinusInf
  | MinusInf => PlusInf
  | Nan => Nan
  end.

Definition fadd (a b : num) : num :=
  match a, b with
  | Nan, _ => Nan
  | _, Nan => Nan
  | Finite x, Finite y => round (x + y)
  | PlusInf, MinusInf => Nan
  | MinusInf, PlusInf => Nan
  | PlusInf, _ => PlusInf
  | _, PlusInf => PlusInf
  | MinusInf, _ => MinusInf
  | _, MinusInf => MinusInf
  end.

(** An infinity times [x]: NaN for a zero, else the infinity of the sign of
    the product. *)
Definition scaled_infinity (positive : bool) (x : R) : num :=
  if Req_dec_T x 0 then Nan
  else if Rlt_dec 0 x then (if positive then PlusInf else MinusInf)
  else (if positive then MinusInf else PlusInf).

Definition fmul (a b : num) : num :=
  match a, b with
  | Nan, _ => Nan
  | _, Nan => Nan
  | Finite x, Finite y => round (x * y)
  | Finite x, PlusInf => scaled_infinity true x
  | PlusInf, Finite x => scaled_infinity true x
  | Finite x, MinusInf => scaled_infinity false x
  | MinusInf, Finite x => scaled_infinity false x
  | PlusInf, PlusInf => PlusInf
  | MinusInf, MinusInf => PlusInf
  | PlusInf, MinusInf => MinusInf
  | MinusInf, PlusInf => MinusInf
  end.

(** Division; a zero divisor counts as +0. *)
Definition fdiv (a b : num) : num :=
  match a, b with
  | Nan, _ => Nan
  | _, Nan => Nan
  | Finite x, Finite y =>
      if Req_dec_T y 0
      then (if Req_dec_T x 0 then Nan
            else if Rlt_dec 0 x then PlusInf else MinusInf)
      else round (x / y)
  | Finite _, PlusInf => Finite 0
  | Finite _, MinusInf => Finite 0
  | PlusInf, Finite y => if Rlt_dec y 0 then MinusInf else PlusInf
  | MinusInf, Finite y => if Rlt_dec y 0 then PlusInf else MinusInf
  | PlusInf, PlusInf => Nan
  | PlusInf, MinusInf => Nan
  | MinusInf, PlusInf => Nan
  | MinusInf, MinusInf => Nan
  end.

(** [torch.exp], taken as correctly rounded. *)
Definition fexp (a : num) : num :=
  match a with
  | Finite r => round (exp r)
  | PlusInf => PlusInf
  | MinusInf => Finite 0
  | Nan => Nan
  end.

(** [torch.sigmoid]: [1 / (1 + exp(-z))], each operation rounded. *)
Definition fsigmoid (z : num) : num :=
  fdiv (Finite 1) (fadd (Finite 1) (fexp (fneg z))).

(** [torch.relu]. *)
Definition relu (a : num) : num :=
  match a with
  | Finite r => Finite (Rmax 0 r)
  | PlusInf => PlusInf
  | MinusInf => Finite 0
  | Nan => Nan
  end.

(** The inner product of a row [x] and a weight row [w], as in the matrix
    product of a linear layer: every product is rounded, and the products
    are added up one after the other. *)
Definition fdot (x w : list num) : num :=
  fold_left (fun acc q => fadd acc (fmul (fst q) (snd q))) (combine x w) (Finite 0).

End Operations.

(** The largest finite number of [torch.float32]. *)
Definition binary32_fmax : R := (2 - / 2 ^ 23) * 2 ^ 127.

(** The format with the range of [torch.float32] and no rounding error
    inside the range. *)
Definition binary32_range : Format :=
  {| fmax := binary32_fmax;
     rnd := fun x => x;
     fmax_ge_1 := ltac:(unfold binary32_fmax; lra);
     rnd_monotone := fun x y H => H;
     rnd_0 := eq_refl;
     rnd_1 := eq_refl;
     rnd_opp := fun x => eq_refl;
     rnd_overflow := ltac:(intros x; unfold binary32_fmax; lra) |}.

End Float.


(** ** [elk/utils_evaluation/probes.py]: [LinearProbe] *)

Module Probes.
Import Vec Float.
Local Open Scope R_scope.

(** [nn.Linear(input_dim, 1, bias=include_bias)]: one weight row and an
    optional bias, in floating point. *)
Record LinearProbe := mkLinearProbe {
  input_dim : nat;
  weight : list num;
  bias : option num
}.

Section Forward.
Context {F : Format}.

(** [self.linear(x)] on one hidden vector: the raw score. *)
Definition linear (p : LinearProbe) (x : list num) : num :=
  match bias p with
  | Some b => fadd (fdot x (weight p)) b
  | None => fdot x (weight p)
  end.

(** [LinearProbe.forward] on a batch [x] of shape (n, input_dim): the result
    has shape (n, 1).  A row of the wrong width makes the matrix product
    raise, rendered as [None]. *)
Definition forward (p : LinearProbe) (x : list (list num)) : option (list (list num)) :=
  if forallb (fun row => Nat.eqb (length row) (input_dim p)) x
  then Some (map (fun row => [fsigmoid (linear p row)]) x)
  else None.

(** No product of an entry of the row and its weight overflows, and the
    bias is finite. *)
Definition products_finite (p : LinearProbe) (row : list num) : Prop :=
  Forall (fun q => is_finite (fmul (fst q) (snd q))) (combine row (weight p)) /\
  match bias p with Some b => is_finite b | None => True end.

End Forward.

(** Modelled from the spec: the Calibrator ([platt_scale] and the calibrated
    forward pass are not among the sources).  Section 4.3: "a 1-dimensional
    affine transform (scale and bias) in logit space mapping the reporter's
    raw score to a calibrated probability". *)
Definition calibrated (scale shift raw : R) : R :=
  sigmoid (scale * raw + shift).

(** The reading of "calibration preserves the monotone relation" under which
    a higher raw score never gets a lower calibrated probability. *)
Definition order_preserving (scale shift : R) : Prop :=
  forall r1 r2, r1 <= r2 -> calibrated scale shift r1 <= calibrated scale shift r2.

Definition order_reversing (scale shift : R) : Prop :=
  forall r1 r2, r1 <= r2 -> calibrated scale shift r2 <= calibrated scale shift r1.

Definition in_unit_interval (c : R) : Prop := 0 <= c <= 1.

(** A probe on two-dimensional hidden states, for examples. *)
Definition probe_example : LinearProbe :=
  mkLinearProbe 2 [Finite 1; Finite (-2)] (Some (Finite 3)).

(** A probe whose score overflows on a finite input, with and without a
    bias, and that input. *)
Definition steep_probe (b : option num) : LinearProbe :=
  mkLinearProbe 2 [Finite 10; Finite (-10)] b.

Definition large_batch : list (list num) :=
  [[Finite (3 * 10 ^ 38); Finite (3 * 10 ^ 38)]].

End Probes.

(** ** Python exceptions and stateful computations *)

Module Py.

Inductive PyError :=
| ValueError (msg : string)
| AssertionError (msg : string)
| KeyError (key : string)
| IndexError (msg : string)
| TypeError (msg : string)
| RuntimeError (msg : string)
| NotImplementedError (msg : string).

Definition message (e : PyError) : string :=
  match e with
  | ValueError m | AssertionError m | KeyError m
  | IndexError m | TypeError m | RuntimeError m | NotImplementedError m => m
  end.

Inductive Result (A : Type) :=
| Ok (a : A)
| Raise (e : PyError).
Arguments Ok {A} a.
Arguments Raise {A} e.

(** A computation over a mutable state [S] that may raise.  The state
    reached when the exception is raised is kept: effects that happened
    before it are not undone. *)
Definition M (S A : Type) : Type := S -> Result A * S.

Definition ret {S A} (a : A) : M S A := fun s => (Ok a, s).

Definition bind {S A B} (c : M S A) (k : A -> M S B) : M S B :=
  fun s => match c s with
           | (Ok a, s') => k a s'
           | (Raise e, s') => (Raise e, s')
           end.

Definition raise {S A} (e : PyError) : M S A := fun s => (Raise e, s).
Definition get {S} : M S S := fun s => (Ok s, s).
Definition put {S} (s : S) : M S unit := fun _ => (Ok tt, s).
Definition modify {S} (f : S -> S) : M S unit := fun s => (Ok tt, f s).

Definition lift {S A} (r : Result A) : M S A := fun s => (r, s).

Declare Scope py_scope.
Delimit Scope py_scope with py.
Notation "x <- c ;; k" := (bind c (fun x => k))
  (at level 61, c at next level, right associativity) : py_scope.
Notation "c ;;; k" := (bind c (fun _ => k))
  (at level 61, right associativity) : py_scope.

(** A [for] loop whose body may raise: the first exception ends the loop. *)
Fixpoint for_each {S A} (l : list A) (body : A -> M S unit) : M S unit :=
  match l with
  | [] => ret tt
  | x :: rest => bind (body x) (fun _ => for_each rest body)
  end.

End Py.

(** ** [elk/training/preprocessing.py]: [normalize] *)

Module Preprocessing.
Import Vec Py.
Local Open Scope R_scope.
Local Open Scope py_scope.

(** A tensor of shape (n, d): [n = length (rows t)], [d = ncols t]. *)
Record Tensor := mkTensor {
  ncols : nat;
  rows : list vec
}.

(** [normalize] updates its arguments in place ([-=], [*=]), so tensors live
    in a heap and the function receives their addresses: passing the same
    object twice is passing the same address twice. *)
Definition loc := nat.
Definition heap := loc -> Tensor.

Definition upd (h : heap) (l : loc) (t : Tensor) : heap :=
  fun l' => if Nat.eqb l' l then t else h l'.

Definition load (l : loc) : M heap Tensor := fun h => (Ok (h l), h).
Definition store (l : loc) (t : Tensor) : M heap unit :=
  fun h => (Ok tt, upd h l t).

Definition zeros (d : nat) : vec := repeat 0 d.
Definition map2 (f : R -> R -> R) (u v : vec) : vec :=
  map (fun p => f (fst p) (snd p)) (combine u v).
Definition vadd : vec -> vec -> vec := map2 Rplus.

(** [t.sum(dim=0)]. *)
Definition col_sum (t : Tensor) : vec :=
  fold_right vadd (zeros (ncols t)) (rows t).

(** [t.float().mean(dim=0)], of shape (d,).  The quotient is the code's
    for a tensor with rows; of a tensor without rows torch makes NaN. *)
Definition mean_dim0 (t : Tensor) : vec :=
  map (fun s => s / INR (length (rows t))) (col_sum t).

(** Euclidean norm of a vector. *)
Definition norm (v : vec) : R := sqrt (rsum (map (fun x => x * x) v)).

(** [t.norm(dim=-1)], of shape (n,), and its [.mean()] (of a list that is
    not empty). *)
Definition row_norms (t : Tensor) : list R := map norm (rows t).
Definition mean (l : list R) : R := rsum l / INR (length l).

(** [t.norm(dim=0, keepdim=True)], of shape (1, d). *)
Definition col_norms (t : Tensor) : vec :=
  map sqrt (col_sum (mkTensor (ncols t) (map (map (fun x => x * x)) (rows t)))).

(** Broadcasting a (d',) or (1, d') operand against the columns of a (n, d)
    tensor updated in place: it must have d entries, or one. *)
Definition broadcast (d : nat) (m : vec) : Result vec :=
  if Nat.eqb (length m) d then Ok m
  else match m with
       | [x] => Ok (repeat x d)
       | _ => Raise (RuntimeError "output with shape doesn't match the broadcast shape")
       end.

(** [torch.cat([a, b], dim=0)]. *)
Definition cat (a b : Tensor) : Result Tensor :=
  if Nat.eqb (ncols a) (ncols b)
  then Ok (mkTensor (ncols a) (rows a ++ rows b))
  else Raise (RuntimeError "Sizes of tensors must match except in dimension 0").

(** [x -= m] and [x *= m] on the object at address [l]. *)
Definition inplace (f : R -> R -> R) (l : loc) (m : vec) : M heap unit :=
  t <- load l ;;
  m' <- lift (broadcast (ncols t) m) ;;
  store l (mkTensor (ncols t) (map (fun r => map2 f r m') (rows t))).

Definition isub : loc -> vec -> M heap unit := inplace Rminus.
Definition imul : loc -> vec -> M heap unit := inplace Rmult.

(** [x *= c] for a Python number [c]. *)
Definition imul_scalar (l : loc) (c : R) : M heap unit :=
  t <- load l ;;
  store l (mkTensor (ncols t) (map (map (fun x => x * c)) (rows t))).

(** The [scale] variable holds a (1, d) tensor or a Python number. *)
Inductive Scale :=
| ScaleTensor (v : vec)
| ScaleNumber (c : R).

Definition imul_by (l : loc) (s : Scale) : M heap unit :=
  match s with
  | ScaleTensor v => imul l v
  | ScaleNumber c => imul_scalar l c
  end.

Definition not_supported (method : string) : string :=
  ("Scale method '" ++ method ++ "' is not supported.")%string.

(** [normalize(train_hiddens, val_hiddens, method)].  The returned pair is
    the pair of argument objects themselves.  The entries are real
    numbers, so the scales are the code's where their divisors are not
    zero: torch makes [inf] or NaN of a division by zero, as the "legacy"
    scale of data whose rows all vanish. *)
Definition normalize (train_hiddens val_hiddens : loc) (method : string)
  : M heap (loc * loc) :=
  if String.eqb method "legacy" then
    tr <- load train_hiddens ;;
    va <- load val_hiddens ;;
    master <- lift (cat tr va) ;;
    let means := mean_dim0 master in
    isub train_hiddens means ;;;
    isub val_hiddens means ;;;
    let scale := ScaleNumber (sqrt (INR (ncols master)) / mean (row_norms master)) in
    imul_by train_hiddens scale ;;;
    imul_by val_hiddens scale ;;;
    ret (train_hiddens, val_hiddens)
  else
    tr <- load train_hiddens ;;
    let means := mean_dim0 tr in
    isub train_hiddens means ;;;
    isub val_hiddens means ;;;
    scale <- (if String.eqb method "elementwise" then
                centred <- load train_hiddens ;;
                ret (ScaleTensor (map (fun c => 1 / c) (col_norms centred)))
              else if String.eqb method "meanonly" then
                ret (ScaleNumber 1)
              else raise (NotImplementedError (not_supported method))) ;;
    imul_by train_hiddens scale ;;;
    imul_by val_hiddens scale ;;;
    ret (train_hiddens, val_hiddens).

(** What the two in-place updates of [train_hiddens] compute from its
    contents alone for "elementwise" and "meanonly": the reference against
    which the dependence on [val_hiddens] is measured. *)
Definition centred_train (tr : Tensor) : Result Tensor :=
  match broadcast (ncols tr) (mean_dim0 tr) with
  | Ok m => Ok (mkTensor (ncols tr) (map (fun r => map2 Rminus r m) (rows tr)))
  | Raise e => Raise e
  end.

Definition scaled_train (method : string) (c : Tensor) : Result Tensor :=
  if String.eqb method "elementwise" then
    match broadcast (ncols c) (map (fun x => 1 / x) (col_norms c)) with
    | Ok s => Ok (mkTensor (ncols c) (map (fun r => map2 Rmult r s) (rows c)))
    | Raise e => Raise e
    end
  else if String.eqb method "meanonly" then
    Ok (mkTensor (ncols c) (map (map (fun x => x * 1)) (rows c)))
  else Raise (NotImplementedError (not_supported method)).

Definition train_only (method : string) (tr : Tensor) : option Tensor :=
  match centred_train tr with
  | Ok c => match scaled_train method c with
            | Ok t => Some t
            | Raise _ => None
            end
  | Raise _ => None
  end.

(** The tensor a call returns as its first component, when it returns. *)
Definition returned_train (r : Result (loc * loc) * heap) : option Tensor :=
  match r with
  | (Ok (t, _), h) => Some (h t)
  | (Raise _, _) => None
  end.

(** Noninterference of [val_hiddens] on the returned training tensor: any
    two returning calls on training tensors with equal contents return equal
    training tensors. *)
Definition train_independent_of_val (method : string) : Prop :=
  forall (h1 h2 : heap) (train val1 val2 : loc) (out1 out2 : Tensor),
    h1 train = h2 train ->
    returned_train (normalize train val1 method h1) = Some out1 ->
    returned_train (normalize train val2 method h2) = Some out2 ->
    out1 = out2.

(** The same, for calls whose two arguments are separate objects. *)
Definition separate_train_independent_of_val (method : string) : Prop :=
  forall (h1 h2 : heap) (train val1 val2 : loc) (out1 out2 : Tensor),
    train <> val1 -> train <> val2 ->
    h1 train = h2 train ->
    returned_train (normalize train val1 method h1) = Some out1 ->
    returned_train (normalize train val2 method h2) = Some out2 ->
    out1 = out2.

(** Test data: a (2, 1) tensor, and a heap holding a training tensor at
    address 0 and a validation tensor at every other address. *)
Definition column (a b : R) : Tensor := mkTensor 1 [[a]; [b]].
Definition two_tensors (tr va : Tensor) : heap :=
  fun l => match l with O => tr | _ => va end.

End Preprocessing.

(** ** [ccs/training/train.py]: [Elicit.apply_to_layer] *)

Module Train.
Import Vec Py.
Local Open Scope string_scope.
Local Open Scope list_scope.
Local Open Scope py_scope.

(** *** Tensors, bundles and dictionaries *)

(** A tensor: its shape and its entries in row-major order. *)
Record Tensor (A : Type) := mkTensor {
  shape : list nat;
  data : list A
}.

(** What [prepare_data] yields per dataset: the fields [apply_to_layer]
    reads. *)
Record Bundle := mkBundle {
  hiddens : Tensor R;
  labels : Tensor Z;
  lm_preds : option (Tensor R);
  row_ids : Tensor Z;
  variant_ids : list (list string);
  texts : list (list (list string))
}.

(** A Python [dict] with string keys, in insertion order. *)
Definition dict (V : Type) : Type := list (string * V).

Definition keys {V} (d : dict V) : list string := map fst d.
Definition values {V} (d : dict V) : list V := map snd d.

Fixpoint lookup {V} (d : dict V) (k : string) : option V :=
  match d with
  | [] => None
  | (k', v) :: rest => if String.eqb k' k then Some v else lookup rest k
  end.

(** [d[k]]. *)
Definition getitem {V} (d : dict V) (k : string) : Result V :=
  match lookup d k with
  | Some v => Ok v
  | None => Raise (KeyError k)
  end.

(** [d[k] = v]: an existing key keeps its place. *)
Fixpoint setitem {V} (d : dict V) (k : string) (v : V) : dict V :=
  match d with
  | [] => [(k, v)]
  | (k', v') :: rest =>
      if String.eqb k' k then (k', v) :: rest else (k', v') :: setitem rest k v
  end.

(** [d[k].append(x)] on a [defaultdict(list)]. *)
Definition append_to {X} (d : dict (list X)) (k : string) (x : X) : dict (list X) :=
  match lookup d k with
  | Some l => setitem d k (l ++ [x])
  | None => setitem d k [x]
  end.

(** The rows of one table; a missing table has none. *)
Definition table {X} (d : dict (list X)) (k : string) : list X :=
  match lookup d k with
  | Some l => l
  | None => []
  end.

Definition well_formed {V} (d : dict V) : Prop := NoDup (keys d).

(** *** Shapes *)

Definition str_of_nat (n : nat) : string :=
  NilZero.string_of_uint (Nat.to_uint n).
Definition str_of_int (z : Z) : string :=
  NilZero.string_of_int (Z.to_int z).

(** [first, *rest = xs]. *)
Definition unpack_first {A} (xs : list A) : Result (A * list A) :=
  match xs with
  | x :: rest => Ok (x, rest)
  | [] => Raise (ValueError "not enough values to unpack (expected at least 1, got 0)")
  end.

(** [(a, b, c, d) = shape]. *)
Definition unpack4 (s : list nat) : Result (nat * nat * nat * nat) :=
  match s with
  | [a; b; c; d] => Ok (a, b, c, d)
  | _ :: _ :: _ :: _ :: _ :: _ =>
      Raise (ValueError "too many values to unpack (expected 4)")
  | _ => Raise (ValueError ("not enough values to unpack (expected 4, got "
                              ++ str_of_nat (length s) ++ ")")%string)
  end.

(** [shape[-i]] for i = 1, 2. *)
Definition from_end (s : list nat) (i : nat) : Result nat :=
  match nth_error (rev s) (i - 1) with
  | Some x => Ok x
  | None => Raise (IndexError "tuple index out of range")
  end.

Definition prod (l : list nat) : nat := fold_right Nat.mul 1%nat l.

Fixpoint chunks {A} (count size : nat) (l : list A) : list (list A) :=
  match count with
  | O => []
  | S c => firstn size l :: chunks c size (skipn size l)
  end.

(** [rearrange(t, "n v k d -> (n v k) d")]. *)
Definition rearrange_rows {A} (t : Tensor A) : Result (Tensor A) :=
  match shape t with
  | [n; v; k; d] => Ok (mkTensor [(n * v * k)%nat; d] (data t))
  | _ => Raise (RuntimeError "einops: wrong shape")
  end.

(** [repeat(t, "n -> (n v)", v=v)]. *)
Definition repeat_each {A} (t : Tensor A) (v : nat) : Result (Tensor A) :=
  match shape t with
  | [n] => Ok (mkTensor [(n * v)%nat] (flat_map (fun x => repeat x v) (data t)))
  | _ => Raise (RuntimeError "einops: wrong shape")
  end.

(** [repeat(t, "n k -> n v k", v=v)]. *)
Definition repeat_rows {A} (t : Tensor A) (v : nat) : Result (Tensor A) :=
  match shape t with
  | [n; k] =>
      Ok (mkTensor [n; v; k]
            (flat_map (fun row => concat (repeat row v)) (chunks n k (data t))))
  | _ => Raise (RuntimeError "einops: wrong shape")
  end.

(** [t.flatten()]. *)
Definition flatten {A} (t : Tensor A) : Tensor A :=
  mkTensor [prod (shape t)] (data t).

(** [torch.cat(ts)] along dimension 0. *)
Fixpoint cat_onto {A} (acc : Tensor A) (ts : list (Tensor A)) : Result (Tensor A) :=
  match ts with
  | [] => Ok acc
  | t :: rest =>
      match shape acc, shape t with
      | n :: tl, m :: tl' =>
          if list_eq_dec Nat.eq_dec tl tl'
          then cat_onto (mkTensor ((n + m)%nat :: tl) (data acc ++ data t)) rest
          else Raise (RuntimeError "Sizes of tensors must match except in dimension 0")
      | _, _ => Raise (RuntimeError "zero-dimensional tensor cannot be concatenated")
      end
  end.

Definition cat {A} (ts : list (Tensor A)) : Result (Tensor A) :=
  match ts with
  | [] => Raise (RuntimeError "torch.cat(): expected a non-empty list of Tensors")
  | t :: rest => cat_onto t rest
  end.

(** *** Configuration *)

(** The class of [self.net]: [CcsConfig], [EigenFitterConfig], or another
    subclass of [FitterConfig], known by the text of [type(self.net)]. *)
Inductive Family :=
| CcsConfig
| EigenFitterConfig
| OtherConfig (type_repr : string).

Record FitterConfig (Hyper : Type) := mkFitterConfig {
  seed : Z;
  family : Family;
  hyper : Hyper
}.

Record Elicit (Hyper : Type) := mkElicit {
  net : FitterConfig Hyper;
  supervised : string;
  save_logprobs : bool;
  out_dir : option string
}.

(** Modelled from the spec: the Reporter ([CcsReporter] and the reporter that
    [EigenFitter.fit_streaming] returns are not among the sources).
    Section 3: "either a learned direction set (eigen path) or an optimized
    weight/bias (contrastive path) [...] plus a stored calibration (scale,
    bias)". *)
Record Reporter (Params : Type) := mkReporter {
  params : Params;
  scale : R;
  bias : R
}.

(** *** Collaborators

    The classes and functions [apply_to_layer] calls and whose code is not
    among the sources: the methods of [Run], [CcsReporter], [EigenFitter],
    the metrics and the supervised baseline.  Those that may draw random
    numbers take and return the state of the global generators. *)
Class Collaborators := {
  Device : Type;
  Hyper : Type;
  Params : Type;
  Fitter : Type;
  LrModel : Type;
  EvalResult : Type;
  Rng : Type;
  (* Run *)
  seed_rng : Z -> Rng;
  get_device : list string -> Z -> Device;
  prepare_data : Elicit Hyper -> Device -> Z -> string -> Rng -> dict Bundle * Rng;
  assert_path : option string -> Result string;
  (* CcsReporter *)
  ccs_new : Hyper -> nat -> Device -> nat -> Rng -> Reporter Params * Rng;
  ccs_fit : Reporter Params -> Tensor R -> Rng -> (Reporter Params * R) * Rng;
  (* EigenFitter *)
  eigen_new : Hyper -> nat -> nat -> nat -> Device -> Fitter;
  eigen_update : Fitter -> Tensor R -> Fitter;
  eigen_fit_streaming : Fitter -> Rng -> Reporter Params * Rng;
  (* the reporter's projection and the optimiser behind platt_scale *)
  raw_scores : Params -> Tensor R -> Tensor R;
  fit_affine : Tensor R -> Tensor Z -> R * R;
  (* metrics *)
  to_one_hot : Tensor Z -> nat -> Tensor Z;
  evaluate_preds : Tensor Z -> Tensor R -> string -> EvalResult;
  get_logprobs : Tensor R -> string -> Tensor R;
  (* supervised baseline *)
  train_supervised : dict Bundle -> Device -> string -> Rng -> list LrModel * Rng;
  lr_forward : LrModel -> Tensor R -> Tensor R
}.

Section ApplyToLayer.
Context {C : Collaborators}.

Definition reporter := Reporter Params.

(** Modelled from the spec: the reporter's forward pass (not among the
    sources).  Sections 4.1 and 4.3: the projection onto the learned
    direction, then the stored affine transform in logit space, then the
    squashing function. *)
Definition reporter_call (r : reporter) (x : Tensor R) : Tensor R :=
  let raw := raw_scores (params r) x in
  mkTensor (shape raw) (map (Probes.calibrated (scale r) (bias r)) (data raw)).

(** Modelled from the spec: [platt_scale] (not among the sources).
    Section 4.3: "fits a 1-dimensional affine transform (scale and bias) in
    logit space [...] that best matches the provided labels under a log-loss
    criterion, then freezes this transform inside the Reporter". *)
Definition platt_scale (r : reporter) (labels : Tensor Z) (x : Tensor R) : reporter :=
  let sb := fit_affine (raw_scores (params r) x) labels in
  mkReporter (params r) (fst sb) (snd sb).

(** *** Effects *)

Inductive Event :=
| MakeReproducible (seed : Z)
| PrepareData (split : string)
| CreateModelsDir (out_dir : string)
| CcsFit (before after : reporter)
| EigenUpdate (ds_name : string)
| FitStreaming (fitter : Fitter) (fitted : reporter)
| PlattScale (before after : reporter)
| SaveReporter (path : string) (r : reporter)
| TrainSupervised
| SaveLrModels (path : string)
| Evaluate (ds_name : string) (r : reporter).

Record World := mkWorld {
  rng : Rng;
  log : list Event
}.

Definition emit (e : Event) : M World unit :=
  fun w => (Ok tt, mkWorld (rng w) (log w ++ [e])).

Definition with_rng {A} (f : Rng -> A * Rng) : M World A :=
  fun w => (Ok (fst (f (rng w))), mkWorld (snd (f (rng w))) (log w)).

(** Modelled from the spec: [Run.make_reproducible] (not among the sources).
    Section 4.5: "seed <- derive(base_seed, layer)"; the generators are set
    from the seed alone. *)
Definition make_reproducible (s : Z) : M World unit :=
  fun w => (Ok tt, mkWorld (seed_rng s) (log w ++ [MakeReproducible s])).

(** [Elicit.create_models_dir]: makes both directories, saves the reporter
    configuration, returns [(reporter_dir, lr_dir)]. *)
Definition create_models_dir (out : string) : M World (string * string) :=
  emit (CreateModelsDir out) ;;;
  ret ((out ++ "/reporters")%string, (out ++ "/lr_models")%string).

(** [all(f(x) for x in xs)]: stops at the first [False] or exception. *)
Fixpoint all_m {A} (f : A -> Result bool) (xs : list A) : Result bool :=
  match xs with
  | [] => Ok true
  | x :: rest =>
      match f x with
      | Ok true => all_m f rest
      | Ok false => Ok false
      | Raise e => Raise e
      end
  end.

Definition dim_is (i : nat) (expected : nat) (other : Bundle) : Result bool :=
  match from_end (shape (hiddens other)) i with
  | Ok x => Ok (Nat.eqb x expected)
  | Raise e => Raise e
  end.

Definition layer_file (dir : string) (layer : Z) : string :=
  (dir ++ "/layer_" ++ str_of_int layer ++ ".pt")%string.

(** *** Fitting: lines 90-125 *)

(** The [CcsConfig] branch. *)
Definition fit_ccs (cfg : FitterConfig Hyper) (device : Device)
    (train_dict : dict Bundle) (first_train_data : Bundle) (v k d : nat)
  : M World (reporter * option R) :=
  if negb (Nat.eqb (length train_dict) 1) then
    raise (AssertionError "CCS only supports single-task training")
  else
    r0 <- with_rng (ccs_new (hyper cfg) d device v) ;;
    fit <- with_rng (ccs_fit r0 (hiddens first_train_data)) ;;
    emit (CcsFit r0 (fst fit)) ;;;
    one_hot <- lift (repeat_rows (to_one_hot (labels first_train_data) k) v) ;;
    let calibrated := platt_scale (fst fit) one_hot (hiddens first_train_data) in
    emit (PlattScale (fst fit) calibrated) ;;;
    ret (calibrated, Some (snd fit)).

(** The loop of the [EigenFitterConfig] branch: the state is the fitter and
    the two lists being built. *)
Fixpoint eigen_loop (items : list (string * Bundle)) (k : nat)
    (st : Fitter * list (Tensor R) * list (Tensor Z))
  : M World (Fitter * list (Tensor R) * list (Tensor Z)) :=
  match items with
  | [] => ret st
  | (ds_name, train_data) :: rest =>
      let '(fitter, hidden_list, label_list) := st in
      s <- lift (unpack4 (shape (hiddens train_data))) ;;
      let '(_, v, _, _) := s in
      h <- lift (rearrange_rows (hiddens train_data)) ;;
      l <- lift (repeat_each (labels train_data) v) ;;
      emit (EigenUpdate ds_name) ;;;
      eigen_loop rest k
        (eigen_update fitter (hiddens train_data),
         hidden_list ++ [h],
         label_list ++ [flatten (to_one_hot l k)])
  end.

Definition fit_eigen (cfg : FitterConfig Hyper) (device : Device)
    (train_dict : dict Bundle) (v k d : nat)
  : M World (reporter * option R) :=
  let fitter := eigen_new (hyper cfg) d k v device in
  st <- eigen_loop train_dict k (fitter, [], []) ;;
  let '(fitter, hidden_list, label_list) := st in
  fitted <- with_rng (eigen_fit_streaming fitter) ;;
  emit (FitStreaming fitter fitted) ;;;
  all_labels <- lift (cat label_list) ;;
  all_hiddens <- lift (cat hidden_list) ;;
  let calibrated := platt_scale fitted all_labels all_hiddens in
  emit (PlattScale fitted calibrated) ;;;
  ret (calibrated, None).

Definition unknown_config (type_repr : string) : string :=
  ("Unknown reporter config type: " ++ type_repr)%string.

Definition fit (cfg : FitterConfig Hyper) (device : Device)
    (train_dict : dict Bundle) (first_train_data : Bundle) (v k d : nat)
  : M World (reporter * option R) :=
  match family cfg with
  | CcsConfig => fit_ccs cfg device train_dict first_train_data v k d
  | EigenFitterConfig => fit_eigen cfg device train_dict v k d
  | OtherConfig type_repr => raise (ValueError (unknown_config type_repr))
  end.

(** *** Evaluation: lines 142-246 *)

(** One record of a result table. [train_loss] is [None] when the row has
    no such key, [Some None] when the key holds Python's [None]. *)
Record Row := mkRow {
  dataset : string;
  layer_of : Z;
  ensembling : string;
  inlp_iter : option nat;
  result : EvalResult;
  train_loss : option (option R)
}.

(** [out_logprobs[ds_name]]. *)
Record Logprobs := mkLogprobs {
  lp_row_ids : Tensor Z;
  lp_variant_ids : list (list string);
  lp_texts : list (list (list string));
  lp_labels : Tensor Z;
  lp_lm : dict (Tensor R);
  lp_lr : dict (list (nat * Tensor R));
  lp_reporter : dict (Tensor R)
}.

Definition update_entry (o : dict Logprobs) (ds_name : string)
    (f : Logprobs -> Logprobs) : dict Logprobs :=
  match lookup o ds_name with
  | Some e => setitem o ds_name (f e)
  | None => o
  end.

Definition set_lm (mode : string) (x : Tensor R) (e : Logprobs) : Logprobs :=
  mkLogprobs (lp_row_ids e) (lp_variant_ids e) (lp_texts e) (lp_labels e)
             (setitem (lp_lm e) mode x) (lp_lr e) (lp_reporter e).

Definition set_reporter (mode : string) (x : Tensor R) (e : Logprobs) : Logprobs :=
  mkLogprobs (lp_row_ids e) (lp_variant_ids e) (lp_texts e) (lp_labels e)
             (lp_lm e) (lp_lr e) (setitem (lp_reporter e) mode x).

Definition reset_lr (mode : string) (e : Logprobs) : Logprobs :=
  mkLogprobs (lp_row_ids e) (lp_variant_ids e) (lp_texts e) (lp_labels e)
             (lp_lm e) (setitem (lp_lr e) mode []) (lp_reporter e).

Definition set_lr (mode : string) (i : nat) (x : Tensor R) (e : Logprobs) : Logprobs :=
  mkLogprobs (lp_row_ids e) (lp_variant_ids e) (lp_texts e) (lp_labels e)
             (lp_lm e) (append_to (lp_lr e) mode (i, x)) (lp_reporter e).

(** The variables of [apply_to_layer] that the evaluation loops assign. *)
Record Locals := mkLocals {
  val_credences : Tensor R;
  train_credences : Tensor R;
  row_bufs : dict (list Row);
  out_logprobs : dict Logprobs
}.

Section OneDataset.
Variable self : Elicit Hyper.
Variable layer : Z.
Variable fit_loss : option R.
Variable ds_name : string.
Variables val train : Bundle.

Definition when (b : bool) (f : dict Logprobs -> dict Logprobs)
    (o : dict Logprobs) : dict Logprobs :=
  if b then f o else o.

(** The body of [for i, model in enumerate(lr_models)]. *)
Definition lr_step (mode : string) (st : Locals) (im : nat * LrModel) : Locals :=
  let i := fst im in
  let model := snd im in
  let val_credences := lr_forward model (hiddens val) in
  let train_credences := lr_forward model (hiddens train) in
  let out := when (save_logprobs self)
               (fun o => update_entry o ds_name
                           (set_lr mode i (get_logprobs val_credences mode)))
               (out_logprobs st) in
  let bufs := append_to (row_bufs st) "lr_eval"
                (mkRow ds_name layer mode (Some i)
                   (evaluate_preds (labels val) val_credences mode) None) in
  let bufs := append_to bufs "train_lr_eval"
                (mkRow ds_name layer mode (Some i)
                   (evaluate_preds (labels train) train_credences mode) None) in
  mkLocals val_credences train_credences bufs out.

Definition enumerate {A} (l : list A) : list (nat * A) :=
  combine (seq 0 (length l)) l.

(** The body of [for mode in ("none", "partial", "full")]. *)
Definition mode_step (lr_models : list LrModel) (st : Locals) (mode : string)
  : Locals :=
  let bufs := append_to (row_bufs st) "eval"
                (mkRow ds_name layer mode None
                   (evaluate_preds (labels val) (val_credences st) mode)
                   (Some fit_loss)) in
  let out := when (save_logprobs self)
               (fun o => update_entry o ds_name
                           (set_reporter mode (get_logprobs (val_credences st) mode)))
               (out_logprobs st) in
  let bufs := append_to bufs "train_eval"
                (mkRow ds_name layer mode None
                   (evaluate_preds (labels train) (train_credences st) mode)
                   (Some fit_loss)) in
  let bufs := match lm_preds val with
              | Some lm =>
                  append_to bufs "lm_eval"
                    (mkRow ds_name layer mode None
                       (evaluate_preds (labels val) lm mode) None)
              | None => bufs
              end in
  let out := match lm_preds val with
             | Some lm =>
                 when (save_logprobs self)
                   (fun o => update_entry o ds_name
                               (set_lm mode (get_logprobs lm mode))) out
             | None => out
             end in
  let bufs := match lm_preds train with
              | Some lm =>
                  append_to bufs "train_lm_eval"
                    (mkRow ds_name layer mode None
                       (evaluate_preds (labels train) lm mode) None)
              | None => bufs
              end in
  let out := when (save_logprobs self)
               (fun o => update_entry o ds_name (reset_lr mode)) out in
  fold_left (lr_step mode) (enumerate lr_models)
    (mkLocals (val_credences st) (train_credences st) bufs out).

Definition modes : list string := ["none"; "partial"; "full"].

(** What the variable [val_credences] (resp. [train_credences]) holds once
    the loop over [lr_models] has run, if it held [c] before. *)
Definition after_baselines (x : Bundle) (lr_models : list LrModel)
    (c : Tensor R) : Tensor R :=
  fold_left (fun _ model => lr_forward model (hiddens x)) lr_models c.

(** The body of [for ds_name in val_dict], after both lookups. *)
Definition eval_dataset (rep : reporter) (lr_models : list LrModel)
    (bufs : dict (list Row)) (out : dict Logprobs)
  : dict (list Row) * dict Logprobs :=
  let out := when (save_logprobs self)
               (fun o => setitem o ds_name
                           (mkLogprobs (row_ids val) (variant_ids val) (texts val)
                                       (labels val) [] [] []))
               out in
  let st := fold_left (mode_step lr_models) modes
              (mkLocals (reporter_call rep (hiddens val))
                        (reporter_call rep (hiddens train)) bufs out) in
  (row_bufs st, out_logprobs st).

End OneDataset.

Fixpoint eval_loop (self : Elicit Hyper) (layer : Z) (fit_loss : option R)
    (rep : reporter) (lr_models : list LrModel)
    (val_dict train_dict : dict Bundle) (names : list string)
    (st : dict (list Row) * dict Logprobs)
  : M World (dict (list Row) * dict Logprobs) :=
  match names with
  | [] => ret st
  | ds_name :: rest =>
      val <- lift (getitem val_dict ds_name) ;;
      train <- lift (getitem train_dict ds_name) ;;
      emit (Evaluate ds_name rep) ;;;
      eval_loop self layer fit_loss rep lr_models val_dict train_dict rest
        (eval_dataset self layer fit_loss ds_name val train rep lr_models
           (fst st) (snd st))
  end.

(** *** [apply_to_layer] *)

(** Lines 75-85: the first dataset fixes (v, k, d); every other one must
    have the same hidden size, then the same number of classes. *)
Definition validate (train_dict : dict Bundle)
  : Result (Bundle * (nat * nat * nat)) :=
  match unpack_first (values train_dict) with
  | Raise e => Raise e
  | Ok (first_train_data, rest) =>
      match unpack4 (shape (hiddens first_train_data)) with
      | Raise e => Raise e
      | Ok (_, v, k, d) =>
          match all_m (dim_is 1 d) rest with
          | Raise e => Raise e
          | Ok false =>
              Raise (ValueError "All datasets must have the same hidden state size")
          | Ok true =>
              match all_m (dim_is 2 k) rest with
              | Raise e => Raise e
              | Ok false =>
                  Raise (ValueError "All datasets must have the same number of classes")
              | Ok true => Ok (first_train_data, (v, k, d))
              end
          end
      end
  end.

(** Lines 130-140. *)
Definition supervised_models (self : Elicit Hyper) (layer : Z) (device : Device)
    (lr_dir : string) (train_dict : dict Bundle) : M World (list LrModel) :=
  if negb (String.eqb (supervised self) "none") then
    emit TrainSupervised ;;;
    ms <- with_rng (train_supervised train_dict device (supervised self)) ;;
    emit (SaveLrModels (layer_file lr_dir layer)) ;;;
    ret ms
  else ret [].

(** Everything after the two calls of [prepare_data]. *)
Definition fit_and_evaluate (self : Elicit Hyper) (layer : Z) (device : Device)
    (train_dict val_dict : dict Bundle)
  : M World (dict (list Row) * dict Logprobs) :=
  checked <- lift (validate train_dict) ;;
  let first_train_data := fst checked in
  let '(v, k, d) := snd checked in
  out <- lift (assert_path (out_dir self)) ;;
  dirs <- create_models_dir out ;;
  let reporter_dir := fst dirs in
  let lr_dir := snd dirs in
  fitted <- fit (net self) device train_dict first_train_data v k d ;;
  let rep := fst fitted in
  let fit_loss := snd fitted in
  emit (SaveReporter (layer_file reporter_dir layer) rep) ;;;
  lr_models <- supervised_models self layer device lr_dir train_dict ;;
  eval_loop self layer fit_loss rep lr_models val_dict train_dict
    (keys val_dict) ([], []).

Definition apply_to_layer (self : Elicit Hyper) (layer : Z)
    (devices : list string) (world_size : Z)
  : M World (dict (list Row) * dict Logprobs) :=
  make_reproducible (seed (net self) + layer) ;;;
  let device := get_device devices world_size in
  emit (PrepareData "train") ;;;
  train_dict <- with_rng (prepare_data self device layer "train") ;;
  emit (PrepareData "val") ;;;
  val_dict <- with_rng (prepare_data self device layer "val") ;;
  fit_and_evaluate self layer device train_dict val_dict.

(** The data [apply_to_layer] works on: what [prepare_data] returns right
    after seeding, and the state of the generators it leaves. *)
Definition train_dict_of (self : Elicit Hyper) (layer : Z)
    (devices : list string) (world_size : Z) : dict Bundle :=
  fst (prepare_data self (get_device devices world_size) layer "train"
         (seed_rng (seed (net self) + layer))).

Definition rng_after_train (self : Elicit Hyper) (layer : Z)
    (devices : list string) (world_size : Z) : Rng :=
  snd (prepare_data self (get_device devices world_size) layer "train"
         (seed_rng (seed (net self) + layer))).

Definition val_dict_of (self : Elicit Hyper) (layer : Z)
    (devices : list string) (world_size : Z) : dict Bundle :=
  fst (prepare_data self (get_device devices world_size) layer "val"
         (rng_after_train self layer devices world_size)).

Definition rng_after_val (self : Elicit Hyper) (layer : Z)
    (devices : list string) (world_size : Z) : Rng :=
  snd (prepare_data self (get_device devices world_size) layer "val"
         (rng_after_train self layer devices world_size)).

(** The log entries of lines 69-73. *)
Definition preparation (self : Elicit Hyper) (layer : Z) : list Event :=
  [MakeReproducible (seed (net self) + layer);
   PrepareData "train"; PrepareData "val"].

Definition size_mismatch : PyError :=
  ValueError "All datasets must have the same hidden state size".
Definition classes_mismatch : PyError :=
  ValueError "All datasets must have the same number of classes".
Definition not_single_task : PyError :=
  AssertionError "CCS only supports single-task training".

(** The hidden size and the number of classes of a dataset:
    [hiddens.shape[-1]] and [hiddens.shape[-2]]. *)
Definition hidden_dim (b : Bundle) : option nat :=
  nth_error (rev (shape (hiddens b))) 0.
Definition class_count (b : Bundle) : option nat :=
  nth_error (rev (shape (hiddens b))) 1.
Definition four_dim (b : Bundle) : Prop :=
  length (shape (hiddens b)) = 4%nat.

(** A computation only ever appends to the log. *)
Definition extends {A} (c : M World A) : Prop :=
  forall w res w', c w = (res, w') -> exists evs, log w' = log w ++ evs.

(** Events that change the reporter being built: fitting and calibration. *)
Definition fitting (ev : Event) : bool :=
  match ev with
  | CcsFit _ _ | EigenUpdate _ | FitStreaming _ _ | PlattScale _ _ => true
  | _ => false
  end.

Definition calibration (ev : Event) : bool :=
  match ev with
  | PlattScale _ _ => true
  | _ => false
  end.

(** The reporter a completed fit hands over. *)
Definition fit_result (ev : Event) : option reporter :=
  match ev with
  | CcsFit _ r | FitStreaming _ r => Some r
  | _ => None
  end.

(** What may follow calibration: events that leave the reporter [r] as it
    is, and that, when they involve a reporter, involve [r]. *)
Definition frozen (r : reporter) (ev : Event) : Prop :=
  match ev with
  | SaveReporter _ r' | Evaluate _ r' => r' = r
  | TrainSupervised | SaveLrModels _ => True
  | _ => False
  end.

(** Whether a message contains a text. *)
Definition mentions (msg part : string) : bool :=
  match String.index 0 part msg with
  | Some _ => true
  | None => false
  end.

(** The context the error-handling design asks of a fatal error: the layer
    index and the name of a dataset. *)
Definition carries_context (e : PyError) (layer : Z) (names : list string) : Prop :=
  mentions (message e) (str_of_int layer) = true /\
  exists name, In name names /\ mentions (message e) name = true.

End ApplyToLayer.

End Train.

(** ** A small concrete setting

    Collaborators simple enough to run [apply_to_layer] on concrete data:
    the generators' state is an integer, the reporter's parameters record the
    state they were drawn from, a metrics record is the credence tensor that
    was scored, and the supervised baseline is certain of everything. *)

Module Scenario.
Import Vec Py Train.
Local Open Scope string_scope.
Local Open Scope list_scope.

Definition zeros4 (n v k d : nat) : Tensor R :=
  mkTensor [n; v; k; d] (repeat 0%R (n * v * k * d)).

Definition bundle (n v k d : nat) (lm : option (Tensor R)) : Bundle :=
  mkBundle (zeros4 n v k d) (mkTensor [n] (repeat 0%Z n)) lm
           (mkTensor [n] (map Z.of_nat (seq 0 n))) [] [].

Definition one_hot_row (k : nat) (c : Z) : list Z :=
  map (fun j => if Z.eqb c (Z.of_nat j) then 1%Z else 0%Z) (seq 0 k).

Definition all_ones (x : Tensor R) : Tensor R :=
  mkTensor (shape x) (map (fun _ => 1%R) (data x)).

Definition collaborators (train val : dict Bundle) : Collaborators := {|
  Device := unit;
  Hyper := unit;
  Params := Z;
  Fitter := nat;
  LrModel := unit;
  EvalResult := Tensor R;
  Rng := Z;
  seed_rng := fun s => s;
  get_device := fun _ _ => tt;
  prepare_data := fun _ _ _ split g =>
    (if String.eqb split "train" then train else val, (g + 1)%Z);
  assert_path := fun o =>
    match o with
    | Some p => Ok p
    | None => Raise (TypeError "Expected Path, got NoneType")
    end;
  ccs_new := fun _ _ _ _ g => (mkReporter g 1%R 0%R, (g + 1)%Z);
  ccs_fit := fun r _ g =>
    ((mkReporter (params r + g)%Z (scale r) (bias r), (1 / 4)%R), (g + 1)%Z);
  eigen_new := fun _ _ _ _ _ => 0%nat;
  eigen_update := fun f _ => S f;
  eigen_fit_streaming := fun f g => (mkReporter (Z.of_nat f) 1%R 0%R, g);
  raw_scores := fun _ x => x;
  fit_affine := fun _ _ => (2%R, 1%R);
  to_one_hot := fun l k =>
    mkTensor (shape l ++ [k]) (flat_map (one_hot_row k) (data l));
  evaluate_preds := fun _ c _ => c;
  get_logprobs := fun c _ => c;
  train_supervised := fun _ _ _ g => ([tt], g);
  lr_forward := fun _ x => all_ones x
|}.

Definition elicit (fam : Family) (sup : string) : Elicit unit :=
  mkElicit (mkFitterConfig 0%Z fam tt) sup false (Some "out").

(** Two datasets whose hidden sizes are 8 and 16. *)
Definition mismatched : dict Bundle :=
  [("imdb", bundle 1 2 2 8 None); ("boolq", bundle 1 2 2 16 None)].

(** Two datasets with d = 8, k = 2 and v = 2, v = 3. *)
Definition two_tasks : dict Bundle :=
  [("imdb", bundle 1 2 2 8 None); ("boolq", bundle 1 3 2 8 None)].

(** One dataset with one example, one variant, two classes and d = 1. *)
Definition one_task : dict Bundle := [("imdb", bundle 1 1 2 1 None)].

Definition start {C : Collaborators} (g : Rng) : World := mkWorld g [].

End Scenario.

(** ** Streaming statistics of the eigen fitter *)

Module Accumulator.
Import Vec Train.
Local Open Scope R_scope.

Definition matrix := list vec.

Definition zeros (D : nat) : vec := repeat 0 D.
Definition zero_matrix (D : nat) : matrix := repeat (zeros D) D.

Definition zip_with {A} (f : A -> A -> A) (u v : list A) : list A :=
  map (fun p => f (fst p) (snd p)) (combine u v).

Definition vadd : vec -> vec -> vec := zip_with Rplus.
Definition vsub : vec -> vec -> vec := zip_with Rminus.
Definition vscale (c : R) (v : vec) : vec := map (Rmult c) v.
Definition madd : matrix -> matrix -> matrix := zip_with vadd.

(** [u.mT @ v] for two row vectors: the matrix of products [u_i * v_j]. *)
Definition outer (u v : vec) : matrix :=
  map (fun a => map (fun b => a * b) v) u.

Definition vsum (D : nat) (l : list vec) : vec := fold_right vadd (zeros D) l.
Definition msum (D : nat) (l : list matrix) : matrix :=
  fold_right madd (zero_matrix D) l.

(** Modelled from the spec: the sufficient statistics of the eigen fitter
    ([EigenFitter] is not among the sources).  Section 3: "running mean and
    a small set of covariance-like matrices [...] mutated only by sequential
    update calls".  A flattened example is the vector of its k choices'
    hidden states, of dimension D = k * d; the D x D co-moment matrix holds,
    as its d x d blocks, the covariance-like matrices between and within
    answer choices. *)
Record Stats := mkStats {
  dim : nat;
  count : nat;
  mean : vec;
  m2 : matrix
}.

(** Modelled from the spec: the [EigenFitter] before any [update] (not among
    the sources): nothing seen, zero mean, zero co-moments. *)
Definition init (D : nat) : Stats := mkStats D 0 (zeros D) (zero_matrix D).

(** Modelled from the spec: [update] on the rows of a batch (section 4.1:
    "covariance accumulation formulas that are associative and commutative
    over batches (e.g., incremental mean/covariance updates), not naive
    two-pass formulas").  The mean moves by the average deviation of the
    new rows; the co-moments gain, per new row, the product of its
    deviations from the old and from the new mean. *)
Definition update_rows (st : Stats) (xs : list vec) : Stats :=
  let D := dim st in
  let n' := (count st + length xs)%nat in
  let mean' :=
    vadd (mean st)
         (vscale (/ INR n') (vsum D (map (fun x => vsub x (mean st)) xs))) in
  let m2' :=
    madd (m2 st)
         (msum D (map (fun x => outer (vsub x (mean st)) (vsub x mean')) xs)) in
  mkStats D n' mean' m2'.

(** Modelled from the spec: the rows [update] accumulates ([EigenFitter] is
    not among the sources).  Section 4.1: "after flattening the variant axis
    into the example axis": a batch of shape (n, v, k, d) is its n * v rows
    of k * d entries. *)
Definition rows (t : Tensor R) : list vec :=
  match shape t with
  | [n; v; k; d] => chunks (n * v) (k * d) (data t)
  | _ => []
  end.

(** Modelled from the spec: [EigenFitter.update(hiddens)] (not among the
    sources), the incremental update on the flattened batch. *)
Definition update (st : Stats) (t : Tensor R) : Stats :=
  update_rows st (rows t).

(** The statistics of a whole dataset by the two-pass formulas: the mean,
    then the co-moments around it. *)
Definition stats_of (D : nat) (xs : list vec) : Stats :=
  let mu := vscale (/ INR (length xs)) (vsum D xs) in
  mkStats D (length xs) mu
          (msum D (map (fun x => outer (vsub x mu) (vsub x mu)) xs)).

(** Rows of the fitter's dimension. *)
Definition well_shaped (D : nat) (xs : list vec) : Prop :=
  Forall (fun x => length x = D) xs.

(** Matrices with D rows of D entries. *)
Definition square (D : nat) (m : matrix) : Prop :=
  length m = D /\ Forall (fun r => length r = D) m.

(** Test data: a dataset of three rows of dimension 2 (k = 1, d = 2), with
    two variants in its first batch and one in its second. *)
Definition batch_a : Tensor R := mkTensor [1; 2; 1; 2]%nat [1; 2; 3; 5].
Definition batch_b : Tensor R := mkTensor [1; 1; 1; 2]%nat [4; 0].
Definition batch_ab : Tensor R := mkTensor [3; 1; 1; 2]%nat [1; 2; 3; 5; 4; 0].

Definition coord (i : nat) (v : vec) : R := nth i v 0.
Definition entry (i j : nat) (m : matrix) : R := nth j (nth i m []) 0.

(** The collaborators of [apply_to_layer] with these statistics as the
    [EigenFitter]: [EigenFitter(cfg, d, num_classes=k, ...)] starts from
    [init (k * d)], [fitter.update] is [update], and [solve] stands for the
    eigen solver behind [fit_streaming]. *)
Definition with_accumulator (C : Collaborators)
    (solve : Stats -> @Rng C -> Reporter (@Params C) * @Rng C) : Collaborators := {|
  Device := @Device C;
  Hyper := @Hyper C;
  Params := @Params C;
  Fitter := Stats;
  LrModel := @LrModel C;
  EvalResult := @EvalResult C;
  Rng := @Rng C;
  seed_rng := @seed_rng C;
  get_device := @get_device C;
  prepare_data := @prepare_data C;
  assert_path := @assert_path C;
  ccs_new := @ccs_new C;
  ccs_fit := @ccs_fit C;
  eigen_new := fun _ d k _ _ => init (k * d);
  eigen_update := update;
  eigen_fit_streaming := solve;
  raw_scores := @raw_scores C;
  fit_affine := @fit_affine C;
  to_one_hot := @to_one_hot C;
  evaluate_preds := @evaluate_preds C;
  get_logprobs := @get_logprobs C;
  train_supervised := @train_supervised C;
  lr_forward := @lr_forward C
|}.

End Accumulator.

(** ** Evaluation under the three ensembling modes *)

Module Metrics.
Import Vec.
Local Open Scope R_scope.

(** Credences of shape (n, v, k): per example, per variant, one credence
    per answer choice. *)
Definition credences := list (list vec).

(** Modelled from the spec: the log-odds of section 4.4 ([evaluate_preds]
    and its helpers are not among the sources).  Log-odds take the values of
    floating point: finite numbers, the two infinities (the log-odds of
    credences 0 and 1), and NaN. *)
Inductive ext :=
| NegInf
| Fin (r : R)
| PosInf
| NaN.

Definition logit (p : R) : ext :=
  if Req_dec_T p 0 then NegInf
  else if Req_dec_T p 1 then PosInf
  else if Rlt_dec 0 p then
         if Rlt_dec p 1 then Fin (ln (p / (1 - p))) else NaN
       else NaN.

Definition ext_plus (a b : ext) : ext :=
  match a, b with
  | NaN, _ | _, NaN => NaN
  | NegInf, PosInf | PosInf, NegInf => NaN
  | NegInf, _ | _, NegInf => NegInf
  | PosInf, _ | _, PosInf => PosInf
  | Fin x, Fin y => Fin (x + y)
  end.

Definition ext_div (a : ext) (n : nat) : ext :=
  match n with
  | O => NaN
  | S _ => match a with
           | Fin x => Fin (x / INR n)
           | other => other
           end
  end.

(** Back from log-odds to a probability; NaN has none. *)
Definition expit (a : ext) : option R :=
  match a with
  | NegInf => Some 0
  | Fin x => Some (sigmoid x)
  | PosInf => Some 1
  | NaN => None
  end.

(** The credences of one example, regrouped per answer choice: k lists of
    v values. *)
Fixpoint per_choice (k : nat) (variants : list vec) : list (list R) :=
  match variants with
  | [] => repeat [] k
  | v :: rest =>
      map (fun p => fst p :: snd p) (combine v (per_choice k rest))
  end.

Definition choices (variants : list vec) : nat :=
  match variants with
  | [] => 0
  | v :: _ => length v
  end.

Fixpoint all_some {A} (l : list (option A)) : option (list A) :=
  match l with
  | [] => Some []
  | Some x :: rest =>
      match all_some rest with
      | Some xs => Some (x :: xs)
      | None => None
      end
  | None :: _ => None
  end.

(** Modelled from the spec: averaging across variants in probability space
    and in logit space (section 4.4, modes "partial" and "full";
    [evaluate_preds] is not among the sources). *)
Definition average (col : list R) : R := rsum col / INR (length col).

Definition average_in_logit_space (col : list R) : option R :=
  expit (ext_div (fold_right ext_plus (Fin 0) (map logit col)) (length col)).

Definition partial_example (variants : list vec) : vec :=
  map average (per_choice (choices variants) variants).

Definition full_example (variants : list vec) : option vec :=
  all_some (map average_in_logit_space (per_choice (choices variants) variants)).

(** Modelled from the spec: the three points at which the variant axis is
    collapsed ([evaluate_preds] is not among the sources).  Section 4.4:
    "none: [...] every (example, variant) pair is scored independently";
    "partial: [...] average the credence across variants per example";
    "full: [...] convert each variant's credence to a log-odds [...],
    average across variants, then convert back to a probability once per
    example".  The result is the list of predictions that get scored, one
    vector of k credences each. *)
Definition aggregate (mode : string) (c : credences) : option (list vec) :=
  if String.eqb mode "none" then Some (concat c)
  else if String.eqb mode "partial" then Some (map partial_example c)
  else if String.eqb mode "full" then all_some (map full_example c)
  else None.

(** Modelled from the spec: the labels the predictions are scored against
    (section 3: "broadcast across variants"): under "none" each label is
    repeated for the variants of its example. *)
Definition broadcast_labels (mode : string) (labels : list nat) (c : credences)
  : list nat :=
  if String.eqb mode "none"
  then flat_map (fun p => repeat (fst p) (length (snd p))) (combine labels c)
  else labels.

(** Modelled from the spec: the metrics (section 4.4: "accuracy,
    area-under-curve, and a calibration/log-loss statistic"). *)
Record EvalResult := mkEvalResult {
  accuracy : R;
  auroc : R;
  log_loss : R
}.

Fixpoint argmax_from (best_i : nat) (best : R) (i : nat) (v : vec) : nat :=
  match v with
  | [] => best_i
  | x :: rest =>
      if Rlt_dec best x then argmax_from i x (S i) rest
      else argmax_from best_i best (S i) rest
  end.

Definition argmax (v : vec) : nat :=
  match v with
  | [] => 0%nat
  | x :: rest => argmax_from 0 x 1 rest
  end.

Definition indicator (b : bool) : R := if b then 1 else 0.

Definition calc_accuracy (preds : list vec) (labels : list nat) : R :=
  rsum (map (fun pl => indicator (Nat.eqb (argmax (fst pl)) (snd pl)))
            (combine preds labels))
  / INR (length preds).

Definition calc_log_loss (preds : list vec) (labels : list nat) : R :=
  - rsum (map (fun pl => ln (nth (snd pl) (fst pl) 0)) (combine preds labels))
  / INR (length preds).

(** The probability that a positive example gets a higher credence for
    class 1 than a negative one, ties counting half. *)
Definition pair_score (pos neg : R) : R :=
  if Rlt_dec neg pos then 1 else if Req_dec_T neg pos then 1 / 2 else 0.

Definition calc_auroc (preds : list vec) (labels : list nat) : R :=
  let scored := combine (map (fun p => nth 1 p 0) preds) labels in
  let pos := map fst (filter (fun sl => Nat.eqb (snd sl) 1) scored) in
  let neg := map fst (filter (fun sl => negb (Nat.eqb (snd sl) 1)) scored) in
  rsum (flat_map (fun p => map (pair_score p) neg) pos)
  / (INR (length pos) * INR (length neg)).

Definition score (preds : list vec) (labels : list nat) : EvalResult :=
  mkEvalResult (calc_accuracy preds labels) (calc_auroc preds labels)
               (calc_log_loss preds labels).

(** Modelled from the spec: [evaluate_preds(y_true, credences, mode)] (not
    among the sources), "a pure function from (credences, labels, mode) to a
    metrics record"; [None] when the shapes do not fit, the mode is unknown,
    or a NaN arises. *)
Definition evaluate_preds (labels : list nat) (c : credences) (mode : string)
  : option EvalResult :=
  if Nat.eqb (length labels) (length c) then
    match aggregate mode c with
    | Some preds => Some (score preds (broadcast_labels mode labels c))
    | None => None
    end
  else None.

(** A dataset with exactly one prompt variant. *)
Definition single_variant (c : credences) : Prop :=
  Forall (fun variants => length variants = 1%nat) c.

(** Credences are probabilities. *)
Definition probabilities (c : credences) : Prop :=
  Forall (Forall (Forall (fun p => 0 <= p <= 1))) c.

(** Test data: two examples, one variant, two answer choices; the second
    example has the extreme credences 0 and 1. *)
Definition one_variant : credences := [[[1 / 4; 3 / 4]]; [[1; 0]]].

End Metrics.

(** ** [elk/extraction/extraction.py] *)

Module Extraction.
Import Py.
Local Open Scope string_scope.
Local Open Scope list_scope.
Local Open Scope Z_scope.

(** [range(start, stop, step)] for a positive [step], as a list: its length
    is the number of multiples of [step] below [stop - start]. *)
Definition range_len (start stop step : Z) : nat :=
  if stop <=? start then 0%nat
  else Z.to_nat ((stop - start - 1) / step + 1).

Definition py_range (start stop step : Z) : list Z :=
  map (fun i => start + Z.of_nat i * step) (seq 0 (range_len start stop step)).

(** The fields of [Extract] that [__post_init__] and [extract_hiddens]
    read; the prompt configuration is kept abstract. *)
Record Extract (PromptConfig : Type) := mkExtract {
  prompts : PromptConfig;
  model : string;
  layers : list Z;
  token_loc : string;
  use_encoder_states : bool
}.

Definition both_given : PyError :=
  ValueError "Cannot use both --layers and --layer-stride. Please use only one.".

(** [Extract.__post_init__(self, layer_stride)]; [num_hidden_layers] is what
    the model's configuration says. *)
Definition post_init {P} (num_hidden_layers : string -> Z)
    (self : Extract P) (layer_stride : Z) : Result (Extract P) :=
  match layers self with
  | _ :: _ =>
      if 1 <? layer_stride then Raise both_given else Ok self
  | [] =>
      if 1 <? layer_stride then
        let layer_range :=
          py_range 1 (num_hidden_layers (model self) + 1) layer_stride in
        Ok (mkExtract (prompts self) (model self) (0 :: layer_range)
                      (token_loc self) (use_encoder_states self))
      else Ok self
  end.

(** [cfg.layers or tuple(range(num_hidden_layers + 1))]. *)
Definition layer_indices (cfg_layers : list Z) (num_hidden_layers : Z) : list Z :=
  match cfg_layers with
  | [] => py_range 0 (num_hidden_layers + 1) 1
  | _ :: _ => cfg_layers
  end.

(** Lines 172-177 of [extract_hiddens]: the share of [global_max_examples]
    that process [rank] of [world_size] takes.  [None] is the
    [ZeroDivisionError] of [//] with no process at all. *)
Definition max_examples (global_max_examples world_size rank : Z) : option Z :=
  if world_size =? 0 then None
  else
    let share := global_max_examples / world_size in
    if rank =? world_size - 1
    then Some (share + global_max_examples mod world_size)
    else Some share.

(** [xs[start:]] for a Python list or the last axis of a tensor. *)
Definition slice_from {A} (start : Z) (xs : list A) : list A :=
  let len := Z.of_nat (length xs) in
  let s := if start <? 0 then Z.max (len + start) 0 else Z.min start len in
  skipn (Z.to_nat s) xs.

(** Lines 235-238: question and answer are joined, then cut to the model's
    maximal length if it has one ([model_max_length] of 0 or [None] is
    falsy; both are 0 here). *)
Definition join_and_truncate (input_ids answer : list Z) (model_max_length : Z)
  : list Z :=
  let input_ids := input_ids ++ answer in
  if model_max_length =? 0 then input_ids
  else
    let cur_len := Z.of_nat (length input_ids) in
    slice_from (- Z.min cur_len model_max_length) input_ids.

(** The processes of a run, 0 .. world_size - 1, and what they take
    together. *)
Definition ranks (world_size : Z) : list Z :=
  map Z.of_nat (seq 0 (Z.to_nat world_size)).

Definition taken (global_max_examples world_size : Z) : Z :=
  fold_right Z.add 0
    (map (fun rank => match max_examples global_max_examples world_size rank with
                      | Some m => m
                      | None => 0
                      end)
         (ranks world_size)).

End Extraction.

(** ** Notions for stating what a run of [apply_to_layer] does *)

Module Runs.
Import Py Train.
Local Open Scope string_scope.
Local Open Scope list_scope.

Section WithCollaborators.
Context {C : Collaborators}.

(** Every event a computation logs satisfies [P]. *)
Definition emits {A} (P : Event -> Prop) (c : M World A) : Prop :=
  forall w res w', c w = (res, w') ->
                   exists evs, log w' = log w ++ evs /\ Forall P evs.

(** The keys of a row: its dataset and its ensembling mode. *)
Definition keyed (r : Row) : string * string := (dataset r, ensembling r).

Definition three_modes (name : string) : list (string * string) :=
  map (fun mode => (name, mode)) modes.

(** The keys of the language-model rows a dataset contributes. *)
Definition lm_modes (d : dict Bundle) (name : string) : list (string * string) :=
  match lookup d name with
  | Some b => match lm_preds b with
              | Some _ => three_modes name
              | None => []
              end
  | None => []
  end.

(** The metrics in the "eval" rows of one dataset, given the reporter and
    the supervised models: the credences scored are what [val_credences]
    holds when each mode's row is written. *)
Definition eval_results (rep : reporter) (ms : list LrModel)
    (vd : dict Bundle) (name : string) : list EvalResult :=
  match lookup vd name with
  | Some val =>
      let c0 := reporter_call rep (hiddens val) in
      let c1 := after_baselines val ms c0 in
      let c2 := after_baselines val ms c1 in
      [evaluate_preds (labels val) c0 "none";
       evaluate_preds (labels val) c1 "partial";
       evaluate_preds (labels val) c2 "full"]
  | None => []
  end.

(** The same metrics computed from the reporter alone. *)
Definition reporter_results (rep : reporter) (vd : dict Bundle) (name : string)
  : list EvalResult :=
  match lookup vd name with
  | Some val =>
      map (evaluate_preds (labels val) (reporter_call rep (hiddens val))) modes
  | None => []
  end.

(** The "lr_eval" rows of one dataset and one mode: one per supervised
    model, numbered from 0, scored on that model's credences. *)
Definition lr_rows (layer : Z) (ms : list LrModel) (name : string) (x : Bundle)
    (mode : string) : list Row :=
  map (fun im => mkRow name layer mode (Some (fst im))
                   (evaluate_preds (labels x) (lr_forward (snd im) (hiddens x)) mode)
                   None)
      (enumerate ms).

Definition lr_rows_of (layer : Z) (ms : list LrModel) (d : dict Bundle)
    (name : string) : list Row :=
  match lookup d name with
  | Some x => flat_map (lr_rows layer ms name x) modes
  | None => []
  end.

(** Events of the supervised baseline. *)
Definition supervised_event (ev : Event) : Prop :=
  match ev with
  | TrainSupervised | SaveLrModels _ => True
  | _ => False
  end.

(** Events that write a model to disk or evaluate one. *)
Definition saves_or_evaluates (ev : Event) : Prop :=
  match ev with
  | SaveReporter _ _ | SaveLrModels _ | Evaluate _ _ => True
  | _ => False
  end.

(** The first of [names] that is not a key of [d]. *)
Definition first_missing {V} (d : dict V) (names : list string) : option string :=
  find (fun name => match lookup d name with Some _ => false | None => true end)
       names.

(** Labels of shape (n,). *)
Definition flat_labels (b : Bundle) : Prop :=
  length (shape (labels b)) = 1%nat.

End WithCollaborators.
End Runs.

(** ** What a run of [apply_to_layer] leaves in [out_logprobs] *)

Module SavedLogprobs.
Import Py Train.
Local Open Scope string_scope.
Local Open Scope list_scope.

Section WithCollaborators.
Context {C : Collaborators}.

(** [out_logprobs[ds_name]["lr"][mode]]: one entry per supervised model. *)
Definition lr_logprobs (ms : list LrModel) (val : Bundle) (mode : string)
  : list (nat * Tensor R) :=
  map (fun im => (fst im, get_logprobs (lr_forward (snd im) (hiddens val)) mode))
      (enumerate ms).

(** [out_logprobs[ds_name]["lm"]]. *)
Definition lm_logprobs (val : Bundle) : dict (Tensor R) :=
  match lm_preds val with
  | Some lm => map (fun mode => (mode, get_logprobs lm mode)) modes
  | None => []
  end.

(** [out_logprobs[ds_name]["reporter"]]: computed from what [val_credences]
    holds when each mode is reached. *)
Definition reporter_logprobs (rep : reporter) (ms : list LrModel) (val : Bundle)
  : dict (Tensor R) :=
  let c0 := reporter_call rep (hiddens val) in
  let c1 := after_baselines val ms c0 in
  let c2 := after_baselines val ms c1 in
  [("none", get_logprobs c0 "none");
   ("partial", get_logprobs c1 "partial");
   ("full", get_logprobs c2 "full")].

Definition saved_entry (rep : reporter) (ms : list LrModel) (val : Bundle)
  : Logprobs :=
  mkLogprobs (row_ids val) (variant_ids val) (texts val) (labels val)
             (lm_logprobs val)
             (map (fun mode => (mode, lr_logprobs ms val mode)) modes)
             (reporter_logprobs rep ms val).

(** What one pass of the loop over the modes does to the entry of the
    dataset, [c] being the contents of [val_credences]. *)
Definition step_entry (ms : list LrModel) (val : Bundle) (c : Tensor R)
    (mode : string) (e : Logprobs) : Logprobs :=
  mkLogprobs (lp_row_ids e) (lp_variant_ids e) (lp_texts e) (lp_labels e)
             (match lm_preds val with
              | Some lm => setitem (lp_lm e) mode (get_logprobs lm mode)
              | None => lp_lm e
              end)
             (setitem (lp_lr e) mode (lr_logprobs ms val mode))
             (setitem (lp_reporter e) mode (get_logprobs c mode)).

(** The entries the loop over the datasets adds. *)
Definition entries_of (rep : reporter) (ms : list LrModel) (vd : dict Bundle)
    (name : string) : dict Logprobs :=
  match lookup vd name with
  | Some val => [(name, saved_entry rep ms val)]
  | None => []
  end.

End WithCollaborators.
End SavedLogprobs.

(** ** Shapes and statistics of the tensors [normalize] works on *)

Module Centring.
Import Vec Py Preprocessing.
Local Open Scope R_scope.

(** Every row has [ncols] entries: the tensor is rectangular. *)
Definition well_shaped (t : Tensor) : Prop :=
  Forall (fun r => length r = ncols t) (rows t).

(** [x - m] and [x * s] for a (d,) operand, and [x * c] for a number, as new
    tensors. *)
Definition minus_row (t : Tensor) (m : vec) : Tensor :=
  mkTensor (ncols t) (map (fun r => map2 Rminus r m) (rows t)).
Definition times_row (t : Tensor) (s : vec) : Tensor :=
  mkTensor (ncols t) (map (fun r => map2 Rmult r s) (rows t)).
Definition times (t : Tensor) (c : R) : Tensor :=
  mkTensor (ncols t) (map (map (fun x => x * c)) (rows t)).

(** What the methods other than "legacy" do first: both tensors have
    the training means subtracted, in place. *)
Definition centred_heap (h : heap) (train val : loc) : heap :=
  upd (upd h train (minus_row (h train) (mean_dim0 (h train))))
      val (minus_row (h val) (mean_dim0 (h train))).

(** The branches of [normalize] a method name selects. *)
Definition supported (method : string) : bool :=
  (String.eqb method "legacy" || String.eqb method "elementwise"
   || String.eqb method "meanonly")%bool.

End Centring.

(** ** [elk/utils_evaluation/probes.py]: the other probes *)

Module ProbeFamily.
Import Vec Probes.
Local Open Scope R_scope.

Definition zeros (h : nat) : vec := repeat 0 h.
Definition vadd (u v : vec) : vec := map (fun p => fst p + snd p) (combine u v).
Definition vsub (u v : vec) : vec := map (fun p => fst p - snd p) (combine u v).
Definition vscale (a : R) (v : vec) : vec := map (Rmult a) v.

(** [torch.einsum("...h,nh->...n", x, constraints)] for one row [x]. *)
Definition inner_products (x : vec) (constraints : list vec) : vec :=
  map (dot x) constraints.

(** [torch.einsum("...n,nh->...h", ip, constraints)]: the sum of the
    constraints weighted by [ip]. *)
Definition weighted_sum (h : nat) (ip : vec) (constraints : list vec) : vec :=
  fold_right vadd (zeros h)
             (map (fun p => vscale (fst p) (snd p)) (combine ip constraints)).

(** [project(x, constraints)] for [x] of shape (h,) or (1, h) and constraints
    of shape (n, h), in exact arithmetic.  Operands of different widths are
    not covered and give [None]: [einsum] raises on them, unless one of the
    widths is 1, which it broadcasts. *)
Definition project (x : vec) (constraints : list vec) : option vec :=
  if forallb (fun c => Nat.eqb (length c) (length x)) constraints
  then Some (vsub x (weighted_sum (length x) (inner_products x constraints)
                                  constraints))
  else None.

(** [LinearOrthogonalProbe]: the weight row and the bias of
    [nn.Linear(d, 1)], and the constraints. *)
Record LinearOrthogonalProbe := mkLinearOrthogonalProbe {
  lo_weight : vec;
  lo_bias : R;
  orthogonal_constraints : list vec
}.

(** [LinearOrthogonalProbe.forward] on one hidden vector: [F.linear] of the
    projected weight, then the sigmoid. *)
Definition lo_forward (p : LinearOrthogonalProbe) (x : vec) : option R :=
  match project (lo_weight p) (orthogonal_constraints p) with
  | Some w =>
      if Nat.eqb (length x) (length w)
      then Some (sigmoid (dot x w + lo_bias p))
      else None
  | None => None
  end.

(** [LinearOrthogonalProbe.normalize]: the weight is overwritten by its
    projection; the result is the probe afterwards. *)
Definition lo_normalize (p : LinearOrthogonalProbe) : option LinearOrthogonalProbe :=
  match project (lo_weight p) (orthogonal_constraints p) with
  | Some w => Some (mkLinearOrthogonalProbe w (lo_bias p) (orthogonal_constraints p))
  | None => None
  end.

(** Rows that are pairwise orthogonal and of norm one. *)
Definition orthonormal (constraints : list vec) : Prop :=
  ForallOrdPairs (fun a b => dot a b = 0) constraints /\
  Forall (fun c => dot c c = 1) constraints.

End ProbeFamily.

(** ** [elk/utils_evaluation/probes.py]: [MLPProbe] *)

Module MLP.
Import Float.

(** [nn.Linear(in_features, out_features)]: a weight of shape
    (out_features, in_features) and a bias of shape (out_features,). *)
Record Linear := mkLinear {
  in_features : nat;
  out_features : nat;
  lin_weight : list (list num);
  lin_bias : list num
}.

Definition linear_shaped (l : Linear) : Prop :=
  length (lin_weight l) = out_features l /\
  Forall (fun row => length row = in_features l) (lin_weight l) /\
  length (lin_bias l) = out_features l.

(** The modules of [self.layers]. *)
Inductive Layer :=
| LinearLayer (l : Linear)
| ReLU.

(** [MLPProbe.__init__]: the loop [for i in range(len(layer_sizes) - 1)],
    from index [i] on; [new_linear i a b] is the layer that the i-th call
    [torch.nn.Linear(a, b)] creates. *)
Fixpoint mlp_layers (new_linear : nat -> nat -> nat -> Linear) (i : nat)
    (layer_sizes : list nat) : list Layer :=
  match layer_sizes with
  | a :: ((b :: _) as rest) =>
      (if Nat.eqb i 0 then [] else [ReLU])
        ++ [LinearLayer (new_linear i a b)]
        ++ mlp_layers new_linear (S i) rest
  | _ => []
  end.

Definition mlp_init (new_linear : nat -> nat -> nat -> Linear)
    (layer_sizes : list nat) : list Layer :=
  mlp_layers new_linear 0 layer_sizes.

Section Forward.
Context {F : Format}.

(** [nn.Linear.forward] on one row; [None] when the width is wrong. *)
Definition apply_linear (l : Linear) (x : list num) : option (list num) :=
  if Nat.eqb (length x) (in_features l)
  then Some (map (fun q => fadd (fdot x (fst q)) (snd q))
                 (combine (lin_weight l) (lin_bias l)))
  else None.

Definition apply_layer (layer : Layer) (x : list num) : option (list num) :=
  match layer with
  | LinearLayer l => apply_linear l x
  | ReLU => Some (map relu x)
  end.

(** [for layer in self.layers: x = layer(x)]. *)
Fixpoint run_layers (layers : list Layer) (x : list num) : option (list num) :=
  match layers with
  | [] => Some x
  | layer :: rest =>
      match apply_layer layer x with
      | Some y => run_layers rest y
      | None => None
      end
  end.

(** [MLPProbe.forward] on one row. *)
Definition mlp_forward (layers : list Layer) (x : list num) : option (list num) :=
  match run_layers layers x with
  | Some y => Some (map fsigmoid y)
  | None => None
  end.

End Forward.

(** The layers of zeros, for examples. *)
Definition zero_linear (_ a b : nat) : Linear :=
  mkLinear a b (repeat (repeat (Finite 0%R) a) b) (repeat (Finite 0%R) b).

End MLP.

(** ** [elk/training/burns_norm.py]: [BurnsNorm] *)

Module BurnsNorm.
Import Vec.
Local Open Scope R_scope.

(** A tensor of shape (n, v, d) and its entries.  An input with more
    trailing dimensions behaves as the one with these flattened into [d]:
    the class reduces over dimension 0 and over all dimensions after the
    second. *)
Record Tensor := mkTensor {
  size0 : nat;
  size1 : nat;
  size2 : nat;
  at_ : nat -> nat -> nat -> R
}.

(** The sum of [f 0 .. f (n-1)]. *)
Definition total (n : nat) (f : nat -> R) : R := rsum (map f (seq 0 n)).

(** [x.mean(dim=0)], of a tensor with [size0 x > 0]. *)
Definition mean_dim0 (x : Tensor) (j k : nat) : R :=
  total (size0 x) (fun i => at_ x i j k) / INR (size0 x).

(** [x - x.mean(dim=0) if num_elements > 1 else x]. *)
Definition x_normalized (x : Tensor) : Tensor :=
  if Nat.ltb 1 (size0 x)
  then mkTensor (size0 x) (size1 x) (size2 x)
                (fun i j k => at_ x i j k - mean_dim0 x j k)
  else x.

(** [torch.linalg.norm(y, dim=0) / torch.sqrt(torch.tensor(y.shape[0]))]. *)
Definition std (y : Tensor) (j k : nat) : R :=
  sqrt (total (size0 y) (fun i => at_ y i j k * at_ y i j k)) / sqrt (INR (size0 y)).

(** [std.mean(dim=dims)], of shape (v,). *)
Definition avg_norm (y : Tensor) (j : nat) : R :=
  total (size2 y) (fun k => std y j k) / INR (size2 y).

(** [BurnsNorm.forward], [scale] being [self.scale].  The quotient is the
    code's where [avg_norm] is not zero; of a division by zero torch makes
    [inf] or NaN. *)
Definition forward (scale : bool) (x : Tensor) : Tensor :=
  let y := x_normalized x in
  if negb scale then y
  else mkTensor (size0 y) (size1 y) (size2 y)
                (fun i j k => at_ y i j k / avg_norm y j).

(** Two tensors of the same shape with the same entries. *)
Definition same (x y : Tensor) : Prop :=
  size0 x = size0 y /\ size1 x = size1 y /\ size2 x = size2 y /\
  forall i j k, (i < size0 x)%nat -> (j < size1 x)%nat -> (k < size2 x)%nat ->
                at_ x i j k = at_ y i j k.

End BurnsNorm.

(** * Properties *)

(** ** Squashing and calibration *)

Section ProbeFacts.
Import Vec Probes.
Local Open Scope R_scope.

Lemma sigmoid_denominator_pos z : 0 < 1 + exp (- z).
Proof. pose proof (exp_pos (- z)); lra. Qed.

Lemma sigmoid_pos z : 0 < sigmoid z.
Proof.
  unfold sigmoid. apply Rdiv_lt_0_compat; [lra | apply sigmoid_denominator_pos].
Qed.

Lemma sigmoid_lt_1 z : sigmoid z < 1.
Proof.
  unfold sigmoid.
  pose proof (exp_pos (- z)) as He.
  apply Rmult_lt_reg_r with (1 + exp (- z)); [lra|].
  unfold Rdiv. rewrite Rmult_assoc, Rinv_l by lra. lra.
Qed.

Lemma sigmoid_range z : 0 <= sigmoid z <= 1.
Proof. pose proof (sigmoid_pos z); pose proof (sigmoid_lt_1 z); lra. Qed.

Lemma exp_le_compat a b : a <= b -> exp a <= exp b.
Proof.
  intros [Hlt | ->]; [left; now apply exp_increasing | right; reflexivity].
Qed.

Lemma sigmoid_monotone a b : a <= b -> sigmoid a <= sigmoid b.
Proof.
  intros Hab. unfold sigmoid, Rdiv. rewrite !Rmult_1_l.
  apply Rinv_le_contravar; [apply sigmoid_denominator_pos|].
  apply Rplus_le_compat_l, exp_le_compat. lra.
Qed.

Lemma sigmoid_strict a b : a < b -> sigmoid a < sigmoid b.
Proof.
  intros Hab. unfold sigmoid, Rdiv. rewrite !Rmult_1_l.
  apply Rinv_lt_contravar.
  - apply Rmult_lt_0_compat; apply sigmoid_denominator_pos.
  - apply Rplus_lt_compat_l, exp_increasing. lra.
Qed.

Lemma calibrated_in_unit_interval scale shift raw :
  in_unit_interval (calibrated scale shift raw).
Proof. apply sigmoid_range. Qed.

Lemma nonneg_scale_preserves scale shift :
  0 <= scale -> order_preserving scale shift.
Proof.
  intros Hs r1 r2 Hr. apply sigmoid_monotone.
  apply Rplus_le_compat_r, Rmult_le_compat_l; assumption.
Qed.

Lemma nonpos_scale_reverses scale shift :
  scale <= 0 -> order_reversing scale shift.
Proof.
  intros Hs r1 r2 Hr. apply sigmoid_monotone.
  apply Rplus_le_compat_r.
  assert (0 <= (- scale) * (r2 - r1)) by (apply Rmult_le_pos; lra).
  lra.
Qed.

(** In the spec's calibration nothing keeps the scale from being negative,
    and with the scale -1 the raw scores 0 <= 1 get calibrated probabilities
    in the opposite order. *)
Lemma negative_scale_reverses_order : ~ order_preserving (-1) 0.
Proof.
  intros Hmono. specialize (Hmono 0 1 ltac:(lra)).
  unfold calibrated in Hmono.
  assert (Hlt : sigmoid (-1 * 1 + 0) < sigmoid (-1 * 0 + 0))
    by (apply sigmoid_strict; lra).
  lra.
Qed.

End ProbeFacts.

(** ** Rounded arithmetic and the rounded sigmoid *)

Section FloatFacts.
Import Vec Float.
Context {F : Format}.
Local Open Scope R_scope.

Lemma fmax_pos : 0 < fmax.
Proof. pose proof fmax_ge_1. lra. Qed.

Lemma round_cases x :
  (round x = PlusInf /\ fmax < rnd x) \/
  (round x = MinusInf /\ rnd x < - fmax) \/
  (round x = Finite (rnd x) /\ - fmax <= rnd x <= fmax).
Proof.
  unfold round. destruct (Rlt_dec fmax (rnd x)); [left; auto|].
  destruct (Rlt_dec (rnd x) (- fmax)); [right; left; auto|].
  right; right. split; [reflexivity | lra].
Qed.

Lemma round_not_nan x : round x <> Nan.
Proof.
  destruct (round_cases x) as [[-> _]|[[-> _]|[-> _]]]; discriminate.
Qed.

Lemma round_overflow x : 2 * fmax <= x -> round x = PlusInf.
Proof.
  intros Hx. pose proof (@rnd_overflow F x Hx).
  destruct (round_cases x) as [[-> _]|[[_ H1]|[_ H1]]]; [reflexivity| |];
    pose proof fmax_pos; lra.
Qed.

Lemma round_underflow x : x <= - (2 * fmax) -> round x = MinusInf.
Proof.
  intros Hx. assert (Hneg : 2 * fmax <= - x) by lra.
  pose proof (@rnd_overflow F (- x) Hneg) as Hr. rewrite rnd_opp in Hr.
  destruct (round_cases x) as [[_ H1]|[[-> _]|[_ H1]]]; [|reflexivity|];
    pose proof fmax_pos; lra.
Qed.

Lemma round_le x y : x <= y -> fle (round x) (round y).
Proof.
  intros Hxy. pose proof (@rnd_monotone F x y Hxy). pose proof fmax_pos.
  destruct (round_cases x) as [[-> ?]|[[-> ?]|[-> ?]]];
    destruct (round_cases y) as [[-> ?]|[[-> ?]|[-> ?]]];
    cbn [fle]; try exact I; lra.
Qed.

Lemma round_nonneg x :
  0 <= x -> round x = PlusInf \/ exists r, round x = Finite r /\ 0 <= r.
Proof.
  intros Hx. pose proof (@rnd_monotone F 0 x Hx) as Hr. rewrite rnd_0 in Hr.
  destruct (round_cases x) as [[-> ?]|[[_ ?]|[-> ?]]]; [now left| |].
  - pose proof fmax_pos. lra.
  - right. eauto.
Qed.

Lemma round_ge_1 x :
  1 <= x -> round x = PlusInf \/ exists r, round x = Finite r /\ 1 <= r.
Proof.
  intros Hx. pose proof (@rnd_monotone F 1 x Hx) as Hr. rewrite rnd_1 in Hr.
  destruct (round_cases x) as [[-> ?]|[[_ ?]|[-> ?]]]; [now left| |].
  - pose proof fmax_pos. lra.
  - right. eauto.
Qed.

Lemma round_unit x :
  0 <= x <= 1 -> exists r, round x = Finite r /\ 0 <= r <= 1.
Proof.
  intros [H0 H1].
  pose proof (@rnd_monotone F 0 x H0) as Hr0. rewrite rnd_0 in Hr0.
  pose proof (@rnd_monotone F x 1 H1) as Hr1. rewrite rnd_1 in Hr1.
  pose proof fmax_ge_1.
  destruct (round_cases x) as [[_ ?]|[[_ ?]|[-> ?]]]; [lra|lra|].
  eexists. split; [reflexivity | lra].
Qed.

Lemma fexp_nonneg a :
  a <> Nan -> fexp a = PlusInf \/ exists r, fexp a = Finite r /\ 0 <= r.
Proof.
  destruct a as [r| | |]; cbn [fexp]; intros Ha.
  - apply round_nonneg. left. apply exp_pos.
  - now left.
  - right. exists 0. split; [reflexivity | lra].
  - contradiction.
Qed.

Lemma one_plus_ge_1 e :
  (e = PlusInf \/ exists r, e = Finite r /\ 0 <= r) ->
  fadd (Finite 1) e = PlusInf \/
  exists d, fadd (Finite 1) e = Finite d /\ 1 <= d.
Proof.
  intros [->|(r & -> & Hr)]; cbn [fadd]; [now left|].
  apply round_ge_1. lra.
Qed.

Lemma reciprocal_unit d :
  (d = PlusInf \/ exists r, d = Finite r /\ 1 <= r) ->
  unit_credence (fdiv (Finite 1) d).
Proof.
  intros [->|(r & -> & Hr)]; cbn [fdiv unit_credence]; [lra|].
  destruct (Req_dec_T r 0) as [H0|_]; [lra|].
  destruct (@round_unit (1 / r)) as (c & -> & Hc); [|exact Hc].
  unfold Rdiv. rewrite Rmult_1_l. split.
  - left. apply Rinv_0_lt_compat. lra.
  - rewrite <- Rinv_1. apply Rinv_le_contravar; lra.
Qed.

Lemma fsigmoid_range z : z <> Nan -> unit_credence (fsigmoid z).
Proof.
  intros Hz. unfold fsigmoid. apply reciprocal_unit, one_plus_ge_1, fexp_nonneg.
  destruct z; cbn [fneg]; congruence.
Qed.

Lemma fsigmoid_nan : fsigmoid Nan = Nan.
Proof. reflexivity. Qed.

Lemma fle_not_nan a b : fle a b -> a <> Nan /\ b <> Nan.
Proof. destruct a, b; cbn [fle]; intros H; try contradiction; split; discriminate. Qed.

Lemma fle_plus_inf a : a <> Nan -> fle a PlusInf.
Proof. destruct a; cbn [fle]; intros H; try exact I. contradiction. Qed.

Lemma fle_minus_inf a : a <> Nan -> fle MinusInf a.
Proof. destruct a; cbn [fle]; intros H; try exact I. contradiction. Qed.

Lemma fneg_antitone a b : fle a b -> fle (fneg b) (fneg a).
Proof.
  destruct a, b; cbn [fle fneg]; intros H; try exact I; try contradiction. lra.
Qed.

Lemma fexp_monotone a b : fle a b -> fle (fexp a) (fexp b).
Proof.
  destruct a as [x| | |], b as [y| | |]; cbn [fle fexp]; intros H;
    try exact I; try contradiction.
  - apply round_le, exp_le_compat, H.
  - apply fle_plus_inf, round_not_nan.
  - destruct (@round_nonneg (exp y)) as [->|(r & -> & Hr)];
      [left; apply exp_pos | exact I | exact Hr].
  - lra.
Qed.

Lemma fadd_1_monotone a b :
  fle a b -> fle (fadd (Finite 1) a) (fadd (Finite 1) b).
Proof.
  destruct a as [x| | |], b as [y| | |]; cbn [fle fadd]; intros H;
    try exact I; try contradiction.
  - apply round_le. lra.
  - apply fle_plus_inf, round_not_nan.
  - apply fle_minus_inf, round_not_nan.
Qed.

Lemma reciprocal_antitone u v :
  (u = PlusInf \/ exists r, u = Finite r /\ 1 <= r) ->
  (v = PlusInf \/ exists r, v = Finite r /\ 1 <= r) ->
  fle u v -> fle (fdiv (Finite 1) v) (fdiv (Finite 1) u).
Proof.
  intros [->|(x & -> & Hx)] [->|(y & -> & Hy)]; cbn [fle fdiv]; intros H;
    try contradiction.
  - lra.
  - destruct (Req_dec_T x 0) as [H0|_]; [lra|].
    destruct (@round_unit (1 / x)) as (c & -> & Hc); [|apply Hc].
    unfold Rdiv. rewrite Rmult_1_l. split.
    + left. apply Rinv_0_lt_compat. lra.
    + rewrite <- Rinv_1. apply Rinv_le_contravar; lra.
  - destruct (Req_dec_T x 0) as [H0|_]; [lra|].
    destruct (Req_dec_T y 0) as [H0|_]; [lra|].
    apply round_le. unfold Rdiv. rewrite !Rmult_1_l.
    apply Rinv_le_contravar; lra.
Qed.

Lemma fsigmoid_monotone a b : fle a b -> fle (fsigmoid a) (fsigmoid b).
Proof.
  intros Hab. destruct (fle_not_nan _ _ Hab) as [Ha Hb].
  unfold fsigmoid. apply reciprocal_antitone.
  - apply one_plus_ge_1, fexp_nonneg. destruct b; cbn [fneg]; congruence.
  - apply one_plus_ge_1, fexp_nonneg. destruct a; cbn [fneg]; congruence.
  - apply fadd_1_monotone, fexp_monotone, fneg_antitone, Hab.
Qed.

Lemma fadd_finite_not_nan acc q : acc <> Nan -> is_finite q -> fadd acc q <> Nan.
Proof.
  destruct acc, q; cbn [fadd is_finite]; intros Ha Hq;
    try contradiction; try discriminate.
  apply round_not_nan.
Qed.

Lemma sum_of_finite_not_nan (l : list (num * num)) acc :
  acc <> Nan ->
  Forall (fun q => is_finite (fmul (fst q) (snd q))) l ->
  fold_left (fun acc q => fadd acc (fmul (fst q) (snd q))) l acc <> Nan.
Proof.
  revert acc. induction l as [|q l IH]; intros acc Hacc Hl; cbn [fold_left].
  - exact Hacc.
  - inversion Hl; subst. apply IH; [|assumption].
    now apply fadd_finite_not_nan.
Qed.

End FloatFacts.

(** ** [LinearProbe.forward] *)

Section ForwardFacts.
Import Vec Float Probes.
Context {F : Format}.
Local Open Scope R_scope.

Lemma linear_not_nan p row : products_finite p row -> linear p row <> Nan.
Proof.
  intros [Hprod Hb]. unfold linear, fdot.
  assert (Hdot : fold_left (fun acc q => fadd acc (fmul (fst q) (snd q)))
                           (combine row (weight p)) (Finite 0) <> Nan)
    by (apply sum_of_finite_not_nan; [discriminate | exact Hprod]).
  destruct (bias p) as [b|]; [|exact Hdot].
  now apply fadd_finite_not_nan.
Qed.

Lemma forward_total p x :
  Forall (fun row => length row = input_dim p) x ->
  forward p x = Some (map (fun row => [fsigmoid (linear p row)]) x).
Proof.
  intros Hx. unfold forward.
  replace (forallb _ x) with true; [reflexivity|].
  symmetry. apply forallb_forall. intros row Hin.
  rewrite Forall_forall in Hx. apply Nat.eqb_eq. now apply Hx.
Qed.

Lemma forward_rows p x out :
  forward p x = Some out ->
  Forall2 (fun row o =>
             o = [fsigmoid (linear p row)] /\
             (linear p row = Nan -> o = [Nan]) /\
             (linear p row <> Nan -> Forall unit_credence o)) x out.
Proof.
  unfold forward.
  match goal with |- context [if ?c then _ else _] => destruct c end;
    [|discriminate].
  intros [= <-]. clear. induction x as [|row x IH]; cbn [map]; constructor;
    [|exact IH].
  split; [reflexivity|]. split.
  - intros ->. reflexivity.
  - intros Hz. constructor; [now apply fsigmoid_range | constructor].
Qed.

(** The score of [steep_probe] on the row of [large_batch] is
    [inf + (-inf)] in every format whose range ends below 1.5e39, which
    [torch.float32], [torch.bfloat16] and [torch.float16] are. *)
Lemma steep_probe_overflows b :
  2 * fmax <= 3 * 10 ^ 39 ->
  forward (steep_probe b) large_batch = Some [[Nan]].
Proof.
  intros Hrange. unfold large_batch.
  rewrite forward_total by (repeat constructor).
  cbn [map]. do 3 f_equal.
  assert (Hscore : fdot [Finite (3 * 10 ^ 38); Finite (3 * 10 ^ 38)]
                        [Finite 10; Finite (-10)] = Nan).
  { unfold fdot. cbn [combine fold_left fst snd fmul].
    rewrite round_overflow by lra.
    rewrite round_underflow by lra.
    reflexivity. }
  unfold linear, steep_probe. cbn [bias weight]. rewrite Hscore.
  destruct b; reflexivity.
Qed.

End ForwardFacts.


(** ** [normalize]: which inputs the training output depends on *)

Section NormalizeFacts.
Import Vec Py Preprocessing.
Local Open Scope R_scope.

Lemma upd_same h l t : upd h l t l = t.
Proof. unfold upd. now rewrite Nat.eqb_refl. Qed.

Lemma upd_other h l t l' : l' <> l -> upd h l t l' = h l'.
Proof. unfold upd. intros Hne. apply Nat.eqb_neq in Hne. now rewrite Hne. Qed.

(** Running [inplace] either raises and leaves the heap alone, or rewrites
    exactly the addressed object. *)
Lemma inplace_run f l m h :
  inplace f l m h =
  match broadcast (ncols (h l)) m with
  | Ok m' => (Ok tt, upd h l (mkTensor (ncols (h l))
                                (map (fun r => map2 f r m') (rows (h l)))))
  | Raise e => (Raise e, h)
  end.
Proof.
  unfold inplace, bind, load, lift, store.
  destruct (broadcast (ncols (h l)) m); reflexivity.
Qed.

Lemma imul_scalar_run l c h :
  imul_scalar l c h =
  (Ok tt, upd h l (mkTensor (ncols (h l)) (map (map (fun x => x * c)) (rows (h l))))).
Proof. reflexivity. Qed.

(** With separate objects, the training tensor a successful "elementwise" or
    "meanonly" call returns is [train_only] of the training tensor. *)
Lemma normalize_train_only method h train val out :
  method = "elementwise"%string \/ method = "meanonly"%string ->
  train <> val ->
  returned_train (normalize train val method h) = Some out ->
  train_only method (h train) = Some out.
Proof.
  intros Hm Hne.
  assert (Hleg : String.eqb method "legacy" = false)
    by (destruct Hm as [-> | ->]; reflexivity).
  unfold normalize. rewrite Hleg.
  unfold train_only, centred_train, isub, imul_by.
  unfold bind at 1. unfold load at 1; cbn beta iota.
  unfold bind at 1. rewrite inplace_run.
  destruct (broadcast (ncols (h train)) (mean_dim0 (h train))) as [m|e];
    [|discriminate].
  set (c := mkTensor (ncols (h train)) _).
  unfold bind at 1. rewrite inplace_run.
  rewrite (upd_other h c (not_eq_sym Hne)).
  destruct (broadcast (ncols (h val)) (mean_dim0 (h train))) as [mv|e];
    [|discriminate].
  set (h2 := upd (upd h train c) val _).
  assert (Hh2 : h2 train = c)
    by (unfold h2; rewrite upd_other by exact Hne; apply upd_same).
  unfold scaled_train.
  destruct Hm as [-> | ->]; cbn [String.eqb Ascii.eqb Bool.eqb].
  - unfold bind at 1. unfold bind at 1. unfold load at 1, ret at 1.
    cbn beta iota. rewrite Hh2.
    unfold bind at 1. unfold imul. rewrite inplace_run, Hh2.
    destruct (broadcast (ncols c) _) as [s|e]; [|discriminate].
    unfold bind at 1. rewrite inplace_run.
    rewrite (upd_other h2 _ (not_eq_sym Hne)).
    destruct (broadcast (ncols (h2 val)) _) as [sv|e]; [|discriminate].
    unfold ret, returned_train. intros [= <-].
    rewrite upd_other by exact Hne. now rewrite upd_same.
  - unfold bind at 1. unfold ret at 1. cbn beta iota.
    unfold bind at 1. rewrite imul_scalar_run.
    unfold bind at 1. rewrite imul_scalar_run.
    unfold ret, returned_train. intros [= <-].
    rewrite upd_other by exact Hne. now rewrite upd_same, Hh2.
Qed.

End NormalizeFacts.


Section NormalizeExamples.
Import Vec Py Preprocessing.
Local Open Scope R_scope.

Ltac run_normalize :=
  cbv - [Rplus Rminus Rmult Rdiv Rinv Ropp IZR INR sqrt].

Lemma sqrt_sq x : 0 <= x -> sqrt (x * x + 0) = x.
Proof. intros Hx. rewrite Rplus_0_r. now apply sqrt_square. Qed.

(** [normalize(x, x, "meanonly")] on x = [[1], [3]] subtracts the mean 2
    twice: the object returned holds [[-3], [-1]]. *)
Lemma meanonly_aliased va :
  exists x y,
    returned_train (normalize 0%nat 0%nat "meanonly" (two_tensors (column 1 3) va))
    = Some (column x y) /\ x = -3 /\ y = -1.
Proof.
  eexists. eexists. split; [run_normalize; reflexivity|].
  cbv [INR]. lra.
Qed.

(** With a separate validation tensor the result is [[-1], [1]]. *)
Lemma meanonly_separate va :
  ncols va = 1%nat ->
  exists x y,
    returned_train (normalize 0%nat 1%nat "meanonly" (two_tensors (column 1 3) va))
    = Some (column x y) /\ x = -1 /\ y = 1.
Proof.
  destruct va as [d rs]. cbn [ncols]. intros ->.
  eexists. eexists. split; [run_normalize; reflexivity|].
  cbv [INR]. lra.
Qed.

Lemma legacy_with_zeros :
  exists y, returned_train (normalize 0%nat 1%nat "legacy"
                              (two_tensors (column 1 3) (column 0 0)))
            = Some (column 0 y).
Proof.
  eexists. run_normalize. unfold column. do 4 f_equal.
  apply Rmult_eq_0_compat_r. cbv [INR]. lra.
Qed.

Lemma legacy_with_fours :
  exists x y, returned_train (normalize 0%nat 1%nat "legacy"
                                (two_tensors (column 1 3) (column 4 4)))
              = Some (column x y) /\ x <> 0.
Proof.
  eexists. eexists. split; [run_normalize; reflexivity|].
  rewrite !sqrt_sq by lra.
  replace (sqrt (INR 1)) with 1 by (cbv [INR]; symmetry; apply sqrt_1).
  cbv [INR]. lra.
Qed.

(** C10, claim as stated, refuted: for "meanonly", [normalize(x, x)] and
    [normalize(x, y)] with a separate [y] differ only in [val_hiddens] and
    return different training tensors, because the in-place updates of
    [val_hiddens] hit the training tensor when both are one object. *)
Lemma normalize_alias_counterexample :
  ~ train_independent_of_val "meanonly".
Proof.
  intros Hclaim.
  destruct (meanonly_aliased (column 0 0)) as (x1 & y1 & Hrun1 & Hx1 & _).
  destruct (@meanonly_separate (column 0 0) eq_refl) as (x2 & y2 & Hrun2 & Hx2 & _).
  pose proof (Hclaim _ _ 0%nat 0%nat 1%nat _ _ eq_refl Hrun1 Hrun2) as Heq.
  injection Heq as Hx _. lra.
Qed.

(** C10, amended: for "elementwise" and "meanonly", two returning calls on
    equal training contents whose validation argument is a separate object
    return equal training tensors; for "legacy" even separate validation
    tensors change the training output, since mean and scale are taken over
    the concatenation of both. *)
Theorem normalize_val_dependence :
  (forall (method : string) (h1 h2 : heap) (train val1 val2 : loc)
          (out1 out2 : Tensor),
      method = "elementwise"%string \/ method = "meanonly"%string ->
      train <> val1 -> train <> val2 ->
      h1 train = h2 train ->
      returned_train (normalize train val1 method h1) = Some out1 ->
      returned_train (normalize train val2 method h2) = Some out2 ->
      out1 = out2)
  /\ ~ separate_train_independent_of_val "legacy".
Proof.
  split.
  - intros method h1 h2 train val1 val2 out1 out2 Hm Hv1 Hv2 Hsame Hr1 Hr2.
    apply normalize_train_only in Hr1; [|assumption..].
    apply normalize_train_only in Hr2; [|assumption..].
    rewrite Hsame in Hr1. congruence.
  - intros Hclaim.
    destruct legacy_with_zeros as (y1 & Hrun1).
    destruct legacy_with_fours as (x2 & y2 & Hrun2 & Hx2).
    assert (Hne : 0%nat <> 1%nat) by discriminate.
    pose proof (Hclaim (two_tensors (column 1 3) (column 0 0))
                       (two_tensors (column 1 3) (column 4 4))
                       0%nat 1%nat 1%nat _ _ Hne Hne eq_refl Hrun1 Hrun2) as Heq.
    injection Heq as Hx _. auto.
Qed.

Lemma normalize_val_dependence_witness :
  exists out1 out2,
    returned_train (normalize 0%nat 1%nat "meanonly"
                      (two_tensors (column 1 3) (column 0 0))) = Some out1 /\
    returned_train (normalize 0%nat 2%nat "meanonly"
                      (two_tensors (column 1 3) (column 5 7))) = Some out2 /\
    out1 = out2.
Proof.
  eexists. eexists.
  split; [run_normalize; reflexivity|].
  split; [run_normalize; reflexivity|].
  apply (proj1 normalize_val_dependence "meanonly"%string
           (two_tensors (column 1 3) (column 0 0))
           (two_tensors (column 1 3) (column 5 7)) 0%nat 1%nat 2%nat).
  - right; reflexivity.
  - discriminate.
  - discriminate.
  - reflexivity.
  - reflexivity.
  - reflexivity.
Defined.

End NormalizeExamples.


(** ** Credence range and calibration order *)

Section ProbeClaims.
Import Vec Float Probes.
Local Open Scope R_scope.

Lemma binary32_range_is_small : 2 * @fmax binary32_range <= 3 * 10 ^ 39.
Proof. cbn [fmax binary32_range]. unfold binary32_fmax. lra. Qed.



Lemma probe_example_in_range :
  @products_finite binary32_range probe_example [Finite 1; Finite 2].
Proof.
  assert (Hfin : forall x, - 4 <= x <= 4 -> is_finite (@round binary32_range x)).
  { intros x Hx. unfold round. cbn [fmax rnd binary32_range]. unfold binary32_fmax.
    destruct (Rlt_dec _ x); [lra|]. destruct (Rlt_dec x _); [lra|]. exact I. }
  split; [|exact I].
  repeat constructor; cbn [fst snd fmul]; apply Hfin; lra.
Qed.


End ProbeClaims.


(** ** [apply_to_layer]: validation *)

Section ValidationFacts.
Import Vec Py Train.
Context {C : Collaborators}.

Lemma bind_ok {S A B} (c : M S A) (k : A -> M S B) s a s' :
  c s = (Ok a, s') -> bind c k s = k a s'.
Proof. unfold bind. now intros ->. Qed.

Lemma bind_raise {S A B} (c : M S A) (k : A -> M S B) s e s' :
  c s = (Raise e, s') -> bind c k s = (Raise e, s').
Proof. unfold bind. now intros ->. Qed.

Lemma dim_is_true i x b :
  dim_is i x b = Ok true ->
  nth_error (rev (shape (hiddens b))) (i - 1) = Some x.
Proof.
  unfold dim_is, from_end.
  destruct (nth_error _ _) as [y|]; [|discriminate].
  intros [= Hxy]. apply Nat.eqb_eq in Hxy. now subst.
Qed.

Lemma all_m_dim_true i x l :
  all_m (dim_is i x) l = Ok true ->
  Forall (fun b => nth_error (rev (shape (hiddens b))) (i - 1) = Some x) l.
Proof.
  induction l as [|b l IH]; cbn [all_m]; intros H; [constructor|].
  destruct (dim_is i x b) as [[|]|e] eqn:Hb; try discriminate.
  constructor; [now apply dim_is_true | now apply IH].
Qed.

Lemma four_dim_shape b :
  four_dim b -> exists n v k d, shape (hiddens b) = [n; v; k; d].
Proof.
  unfold four_dim. destruct (shape (hiddens b)) as [|n [|v [|k [|d [|]]]]];
    try discriminate. intros _. now exists n, v, k, d.
Qed.

Lemma four_dim_dim_is i x b :
  four_dim b -> (i = 1 \/ i = 2)%nat -> exists t, dim_is i x b = Ok t.
Proof.
  intros (n & v & k & d & Hs)%four_dim_shape Hi.
  unfold dim_is, from_end. rewrite Hs.
  destruct Hi as [-> | ->]; cbn; eauto.
Qed.

Lemma four_dim_all_m i x l :
  Forall four_dim l -> (i = 1 \/ i = 2)%nat -> exists t, all_m (dim_is i x) l = Ok t.
Proof.
  intros Hl Hi. induction Hl as [|b l Hb _ IH]; cbn [all_m]; [eauto|].
  destruct (four_dim_dim_is x Hb Hi) as ([|] & ->); eauto.
Qed.

(** What a passed validation establishes. *)
Lemma validate_ok td first v k d :
  validate td = Ok (first, (v, k, d)) ->
  (exists rest n, values td = first :: rest /\ shape (hiddens first) = [n; v; k; d]) /\
  Forall (fun b => hidden_dim b = Some d /\ class_count b = Some k) (values td).
Proof.
  unfold validate.
  destruct (values td) as [|b rest]; cbn [unpack_first]; [discriminate|].
  destruct (shape (hiddens b)) as [|n [|v' [|k' [|d' [|]]]]] eqn:Hs;
    cbn [unpack4]; try discriminate.
  destruct (all_m (dim_is 1 d') rest) as [[|]|] eqn:Hd; try discriminate.
  destruct (all_m (dim_is 2 k') rest) as [[|]|] eqn:Hk; try discriminate.
  intros [= <- <- <- <-]. split; [now exists rest, n|].
  apply all_m_dim_true in Hd. apply all_m_dim_true in Hk.
  constructor.
  - unfold hidden_dim, class_count. rewrite Hs. now cbn.
  - rewrite Forall_forall in *. intros x Hx. split; [now apply Hd | now apply Hk].
Qed.

(** Datasets that disagree on the hidden size or on the number of classes
    never pass. *)
Lemma validate_mismatch td :
  (exists b1 b2, In b1 (values td) /\ In b2 (values td) /\
                 (hidden_dim b1 <> hidden_dim b2 \/ class_count b1 <> class_count b2)) ->
  exists e, validate td = Raise e.
Proof.
  intros (b1 & b2 & H1 & H2 & Hne).
  destruct (validate td) as [[first [[v k] d]]|e] eqn:Hv; [|eauto].
  exfalso. apply validate_ok in Hv as [_ Hall].
  rewrite Forall_forall in Hall.
  destruct (Hall _ H1) as [Hd1 Hk1]. destruct (Hall _ H2) as [Hd2 Hk2].
  destruct Hne as [Hne | Hne]; apply Hne; congruence.
Qed.

Lemma validate_mismatch_four_dim td :
  Forall four_dim (values td) ->
  (exists b1 b2, In b1 (values td) /\ In b2 (values td) /\
                 (hidden_dim b1 <> hidden_dim b2 \/ class_count b1 <> class_count b2)) ->
  validate td = Raise size_mismatch \/ validate td = Raise classes_mismatch.
Proof.
  intros H4 Hmis. destruct (validate_mismatch _ Hmis) as [e He].
  revert He. unfold validate.
  destruct (values td) as [|b rest]; cbn [unpack_first].
  - destruct Hmis as (b1 & _ & [] & _).
  - inversion H4 as [|? ? Hb Hrest]; subst.
    destruct (four_dim_shape Hb) as (n & v & k & d & ->). cbn [unpack4].
    destruct (four_dim_all_m d Hrest (or_introl eq_refl)) as ([|] & ->); [|now left].
    destruct (four_dim_all_m k Hrest (or_intror eq_refl)) as ([|] & ->); [|now right].
    discriminate.
Qed.

Lemma apply_to_layer_run (self : Elicit Hyper) layer devices world_size w :
  apply_to_layer self layer devices world_size w =
  fit_and_evaluate self layer (get_device devices world_size)
    (train_dict_of self layer devices world_size)
    (val_dict_of self layer devices world_size)
    (mkWorld (rng_after_val self layer devices world_size)
             (log w ++ preparation self layer)).
Proof.
  unfold apply_to_layer, make_reproducible, emit, with_rng, bind.
  cbn [rng log]. unfold preparation.
  rewrite <- !app_assoc. reflexivity.
Qed.

Lemma fit_and_evaluate_invalid (self : Elicit Hyper) layer device td vd e w :
  validate td = Raise e ->
  fit_and_evaluate self layer device td vd w = (Raise e, w).
Proof.
  intros Hv. unfold fit_and_evaluate. apply bind_raise.
  unfold lift. now rewrite Hv.
Qed.

(** C3: when the prepared training datasets do not all share the hidden
    size, or do not all share the number of classes, [apply_to_layer] raises,
    and all it has done by then is seeding and preparing the data: the log
    holds no fitting, no persistence and no evaluation.  With 4-D hidden
    tensors the exception is one of the two descriptive [ValueError]s. *)
Theorem mismatch_aborts_layer
    (self : Elicit Hyper) (layer : Z) (devices : list string) (world_size : Z)
    (w : World) :
  (exists b1 b2,
      In b1 (values (train_dict_of self layer devices world_size)) /\
      In b2 (values (train_dict_of self layer devices world_size)) /\
      (hidden_dim b1 <> hidden_dim b2 \/ class_count b1 <> class_count b2)) ->
  exists e w',
    apply_to_layer self layer devices world_size w = (Raise e, w') /\
    log w' = log w ++ preparation self layer /\
    (Forall four_dim (values (train_dict_of self layer devices world_size)) ->
     e = size_mismatch \/ e = classes_mismatch).
Proof.
  intros Hmis. destruct (validate_mismatch _ Hmis) as [e He].
  exists e. eexists. rewrite apply_to_layer_run.
  rewrite fit_and_evaluate_invalid with (e := e) by exact He.
  split; [reflexivity|]. split; [reflexivity|].
  intros H4. destruct (validate_mismatch_four_dim _ H4 Hmis); [left | right]; congruence.
Qed.

End ValidationFacts.


Section ValidationExamples.
Import Vec Py Train Scenario.

Lemma mismatch_aborts_layer_witness :
  exists e w',
    @apply_to_layer (collaborators mismatched mismatched)
       (elicit EigenFitterConfig "none") 3 [] 1
       (@start (collaborators mismatched mismatched) 0%Z) = (Raise e, w') /\
    log w' = [MakeReproducible 3; PrepareData "train"; PrepareData "val"] /\
    (Forall four_dim (values mismatched) ->
     e = size_mismatch \/ e = classes_mismatch).
Proof.
  apply (@mismatch_aborts_layer (collaborators mismatched mismatched)
           (elicit EigenFitterConfig "none") 3%Z [] 1%Z
           (@start (collaborators mismatched mismatched) 0%Z)).
  exists (bundle 1 2 2 8 None), (bundle 1 2 2 16 None).
  split; [left; reflexivity|].
  split; [right; left; reflexivity|].
  left. discriminate.
Defined.

End ValidationExamples.


(** ** [apply_to_layer]: the log of a run *)

Section TraceFacts.
Import Vec Py Train.
Context {C : Collaborators}.

Lemma platt_scale_params (r : reporter) labels x :
  params (platt_scale r labels x) = params r.
Proof. reflexivity. Qed.

Lemma fit_ccs_many cfg device td first v k d w :
  length td <> 1%nat ->
  fit_ccs cfg device td first v k d w = (Raise not_single_task, w).
Proof.
  intros Hlen. unfold fit_ccs.
  apply Nat.eqb_neq in Hlen. now rewrite Hlen.
Qed.

Lemma fit_ccs_ok cfg device td first v k d w rep loss w' :
  fit_ccs cfg device td first v k d w = (Ok (rep, loss), w') ->
  length td = 1%nat /\
  exists r0 r1 l,
    log w' = log w ++ [CcsFit r0 r1; PlattScale r1 rep] /\
    (exists labels x, rep = platt_scale r1 labels x) /\ loss = Some l.
Proof.
  unfold fit_ccs.
  destruct (Nat.eqb (length td) 1) eqn:Hlen; cbn [negb]; [|discriminate].
  apply Nat.eqb_eq in Hlen.
  unfold bind, with_rng, emit, lift, ret, raise. cbn [rng log].
  destruct (repeat_rows _ v) as [one_hot|e]; [|discriminate].
  intros [= <- <- <-]. split; [assumption|].
  cbn [log]. rewrite <- app_assoc. cbn [app].
  eexists. eexists. eexists. split; [reflexivity|].
  split; [|reflexivity]. eexists. eexists. reflexivity.
Qed.

Lemma eigen_loop_ok items k f hl ll w f' hl' ll' w' :
  eigen_loop items k (f, hl, ll) w = (Ok (f', hl', ll'), w') ->
  f' = fold_left eigen_update (map (fun kv => hiddens (snd kv)) items) f /\
  log w' = log w ++ map EigenUpdate (keys items) /\
  rng w' = rng w.
Proof.
  revert f hl ll w.
  induction items as [|[name b] items IH]; intros f hl ll w; cbn [eigen_loop].
  - unfold ret. intros [= <- <- <- <-]. cbn. now rewrite app_nil_r.
  - unfold bind at 1. unfold lift at 1.
    destruct (unpack4 (shape (hiddens b))) as [[[[n v] k'] d]|e]; [|discriminate].
    unfold bind at 1. unfold lift at 1.
    destruct (rearrange_rows (hiddens b)) as [h|e]; [|discriminate].
    unfold bind at 1. unfold lift at 1.
    destruct (repeat_each (labels b) v) as [l|e]; [|discriminate].
    unfold bind at 1. unfold emit at 1.
    intros Hrun. apply IH in Hrun as (-> & Hlog & Hrng).
    cbn [rng log] in *. split; [reflexivity|]. split; [|assumption].
    rewrite Hlog, <- app_assoc. reflexivity.
Qed.

Lemma fit_eigen_ok cfg device td v k d w rep loss w' :
  fit_eigen cfg device td v k d w = (Ok (rep, loss), w') ->
  exists fitted,
    log w' = log w ++ map EigenUpdate (keys td)
               ++ [FitStreaming
                     (fold_left eigen_update (map (fun kv => hiddens (snd kv)) td)
                        (eigen_new (hyper cfg) d k v device))
                     fitted;
                   PlattScale fitted rep] /\
    (exists labels x, rep = platt_scale fitted labels x) /\ loss = None.
Proof.
  unfold fit_eigen. unfold bind at 1.
  destruct (eigen_loop td k _ w) as [[[[f hl] ll]|e] w1] eqn:Hloop; [|discriminate].
  apply eigen_loop_ok in Hloop as (-> & Hlog & Hrng).
  unfold bind, with_rng, emit, lift, ret. cbn [rng log].
  destruct (cat ll) as [all_labels|e]; [|discriminate].
  destruct (cat hl) as [all_hiddens|e]; [|discriminate].
  intros [= <- <- <-]. cbn [log]. eexists.
  split; [rewrite Hlog, <- !app_assoc; reflexivity|].
  split; [|reflexivity]. eexists. eexists. reflexivity.
Qed.

(** A completed fit ends with the one calibration of the reporter it
    returns, right after the event that produced the fitted reporter. *)
Lemma fit_ok cfg device td first v k d w rep loss w' :
  fit cfg device td first v k d w = (Ok (rep, loss), w') ->
  exists pre ev fitted,
    log w' = log w ++ pre ++ [ev; PlattScale fitted rep] /\
    Forall (fun e => calibration e = false) (pre ++ [ev]) /\
    fit_result ev = Some fitted /\
    exists labels x, rep = platt_scale fitted labels x.
Proof.
  unfold fit. destruct (family cfg) as [| |t].
  - intros (_ & r0 & r1 & l & Hlog & Hp & _)%fit_ccs_ok.
    exists [], (CcsFit r0 r1), r1. cbn [app].
    split; [assumption|]. split; [repeat constructor|].
    split; [reflexivity | assumption].
  - intros (fitted & Hlog & Hp & _)%fit_eigen_ok.
    eexists. eexists. exists fitted. split; [exact Hlog|].
    split; [|split; [reflexivity | assumption]].
    apply Forall_app. split; [|repeat constructor].
    apply Forall_forall. intros e (name & <- & _)%in_map_iff. reflexivity.
  - discriminate.
Qed.

Lemma supervised_models_log (self : Elicit Hyper) layer device lr_dir td w ms w' :
  supervised_models self layer device lr_dir td w = (Ok ms, w') ->
  exists evs, log w' = log w ++ evs /\
              Forall (fun e => e = TrainSupervised \/ exists p, e = SaveLrModels p) evs.
Proof.
  unfold supervised_models.
  destruct (negb (String.eqb (supervised self) "none")).
  - unfold bind, with_rng, emit, ret. cbn [rng log].
    intros [= <- <-]. cbn [log]. rewrite <- app_assoc. eexists. split; [reflexivity|].
    constructor; [now left|]. constructor; [right; eauto|]. constructor.
  - unfold ret. intros [= <- <-]. exists []. now rewrite app_nil_r.
Qed.

Lemma eval_loop_log (self : Elicit Hyper) layer loss rep ms vd td names st w res w' :
  eval_loop self layer loss rep ms vd td names st w = (res, w') ->
  exists seen, log w' = log w ++ map (fun n => Evaluate n rep) seen.
Proof.
  revert st w. induction names as [|name names IH]; intros st w; cbn [eval_loop].
  - unfold ret. intros [= <- <-]. exists []. cbn. now rewrite app_nil_r.
  - unfold bind at 1. unfold lift at 1.
    destruct (getitem vd name) as [val|e];
      [|intros [= <- <-]; exists []; cbn; now rewrite app_nil_r].
    unfold bind at 1. unfold lift at 1.
    destruct (getitem td name) as [train|e];
      [|intros [= <- <-]; exists []; cbn; now rewrite app_nil_r].
    unfold bind at 1. unfold emit at 1.
    intros (seen & Hlog)%IH. cbn [log] in Hlog.
    exists (name :: seen). rewrite Hlog, <- app_assoc. reflexivity.
Qed.

End TraceFacts.


(** ** [apply_to_layer]: the log only grows *)

Section ExtendsFacts.
Import Vec Py Train.
Context {C : Collaborators}.

Lemma extends_ret {A} (a : A) : extends (ret a).
Proof. intros w res w' [= <- <-]. exists []. now rewrite app_nil_r. Qed.

Lemma extends_raise {A} e : extends (@raise World A e).
Proof. intros w res w' [= <- <-]. exists []. now rewrite app_nil_r. Qed.

Lemma extends_lift {A} (r : Result A) : extends (lift r).
Proof. intros w res w' [= <- <-]. exists []. now rewrite app_nil_r. Qed.

Lemma extends_emit ev : extends (emit ev).
Proof. intros w res w' [= <- <-]. now exists [ev]. Qed.

Lemma extends_with_rng {A} (f : Rng -> A * Rng) : extends (with_rng f).
Proof. intros w res w' [= <- <-]. exists []. cbn. now rewrite app_nil_r. Qed.

Lemma extends_make_reproducible s : extends (make_reproducible s).
Proof. intros w res w' [= <- <-]. now exists [MakeReproducible s]. Qed.

Lemma extends_bind {A B} (c : M World A) (k : A -> M World B) :
  extends c -> (forall a, extends (k a)) -> extends (bind c k).
Proof.
  intros Hc Hk w res w'. unfold bind.
  destruct (c w) as [[a|e] w1] eqn:Hrun.
  - intros Hrest. destruct (Hc _ _ _ Hrun) as [evs1 H1].
    destruct (Hk a _ _ _ Hrest) as [evs2 H2].
    exists (evs1 ++ evs2). now rewrite H2, H1, app_assoc.
  - intros [= <- <-]. eapply Hc; eassumption.
Qed.

Create HintDb log_grows.
Hint Resolve extends_ret extends_raise extends_lift extends_emit
  extends_with_rng extends_make_reproducible : log_grows.

Ltac grows :=
  repeat first
    [ apply extends_bind; [|intros ?]
    | solve [auto with log_grows]
    | match goal with
      | |- extends (if ?b then _ else _) => destruct b
      | |- extends (let '(_, _) := ?p in _) => destruct p
      | |- extends (match ?x with _ => _ end) => destruct x
      end ].

Lemma extends_eigen_loop items k st : extends (eigen_loop items k st).
Proof.
  revert st. induction items as [|[name b] items IH]; intros [[f hl] ll];
    cbn [eigen_loop]; [grows|].
  apply extends_bind; [grows|]. intros [[[n v] k'] d].
  apply extends_bind; [grows|]. intros h.
  apply extends_bind; [grows|]. intros l.
  apply extends_bind; [grows|]. intros _. apply IH.
Qed.

Lemma extends_eval_loop (self : Elicit Hyper) layer loss rep ms vd td names st :
  extends (eval_loop self layer loss rep ms vd td names st).
Proof.
  intros w res w' Hrun. apply eval_loop_log in Hrun as [seen Hlog]. eauto.
Qed.

Lemma extends_fit cfg device td first v k d :
  extends (fit cfg device td first v k d).
Proof.
  unfold fit. destruct (family cfg); [| |grows].
  - unfold fit_ccs. grows.
  - unfold fit_eigen. apply extends_bind; [apply extends_eigen_loop|].
    intros [[f hl] ll]. grows.
Qed.

Lemma extends_supervised_models (self : Elicit Hyper) layer device lr_dir td :
  extends (supervised_models self layer device lr_dir td).
Proof. unfold supervised_models. grows. Qed.

Lemma extends_fit_and_evaluate (self : Elicit Hyper) layer device td vd :
  extends (fit_and_evaluate self layer device td vd).
Proof.
  unfold fit_and_evaluate.
  apply extends_bind; [grows|]. intros [first [[v k] d]]. cbn [fst snd].
  apply extends_bind; [grows|]. intros out.
  apply extends_bind; [unfold create_models_dir; grows|]. intros dirs.
  apply extends_bind; [apply extends_fit|]. intros fitted.
  apply extends_bind; [grows|]. intros _.
  apply extends_bind; [apply extends_supervised_models|]. intros ms.
  apply extends_eval_loop.
Qed.

End ExtendsFacts.


(** ** [apply_to_layer]: fatal errors, calibration, reproducibility *)

Section OrchestratorClaims.
Import Vec Py Train.
Context {C : Collaborators}.

(** The run once validation and the output directory are settled. *)
Lemma fit_and_evaluate_checked (self : Elicit Hyper) layer device td vd
    first v k d out w :
  validate td = Ok (first, (v, k, d)) ->
  assert_path (out_dir self) = Ok out ->
  fit_and_evaluate self layer device td vd w =
  bind (fit (net self) device td first v k d)
    (fun fitted =>
       bind (emit (SaveReporter (layer_file (out ++ "/reporters") layer) (fst fitted)))
         (fun _ =>
            bind (supervised_models self layer device (out ++ "/lr_models") td)
              (fun lr_models =>
                 eval_loop self layer (snd fitted) (fst fitted) lr_models vd td
                   (keys vd) ([], []))))
    (mkWorld (rng w) (log w ++ [CreateModelsDir out])).
Proof.
  intros Hv Hp. unfold fit_and_evaluate.
  unfold bind at 1. unfold lift at 1. rewrite Hv. cbn [fst snd].
  unfold bind at 1. unfold lift at 1. rewrite Hp.
  unfold bind at 1. unfold create_models_dir.
  unfold bind at 1. unfold emit at 1. unfold ret at 1. cbn [fst snd].
  reflexivity.
Qed.

Lemma fit_and_evaluate_no_path (self : Elicit Hyper) layer device td vd x e w :
  validate td = Ok x ->
  assert_path (out_dir self) = Raise e ->
  fit_and_evaluate self layer device td vd w = (Raise e, w).
Proof.
  intros Hv Hp. unfold fit_and_evaluate.
  unfold bind at 1. unfold lift at 1. rewrite Hv.
  destruct x as [first [[v k] d]]. cbn [fst snd].
  unfold bind at 1. unfold lift at 1. now rewrite Hp.
Qed.

(** C4: with the CCS family configured and more than one training dataset,
    [apply_to_layer] raises instead of fitting: its log holds no fitting or
    calibration event.  When the datasets pass validation and the output
    directory is there, the exception is the [AssertionError]
    "CCS only supports single-task training". *)
Theorem ccs_rejects_multiple_datasets
    (self : Elicit Hyper) (layer : Z) (devices : list string) (world_size : Z)
    (w : World) :
  family (net self) = CcsConfig ->
  (1 < length (train_dict_of self layer devices world_size))%nat ->
  exists e w' evs,
    apply_to_layer self layer devices world_size w = (Raise e, w') /\
    log w' = log w ++ evs /\
    Forall (fun ev => fitting ev = false) evs /\
    (forall x out,
        validate (train_dict_of self layer devices world_size) = Ok x ->
        assert_path (out_dir self) = Ok out ->
        e = not_single_task).
Proof.
  intros Hfam Hlen. rewrite apply_to_layer_run.
  set (td := train_dict_of self layer devices world_size) in *.
  set (w2 := mkWorld _ _).
  destruct (validate td) as [[first [[v k] d]]|e] eqn:Hv.
  - destruct (assert_path (out_dir self)) as [out|e] eqn:Hp.
    + erewrite fit_and_evaluate_checked; [|exact Hv|exact Hp].
      unfold bind at 1. unfold fit. rewrite Hfam.
      rewrite fit_ccs_many by lia.
      exists not_single_task. eexists. eexists.
      split; [reflexivity|]. cbn [log w2].
      split; [rewrite <- app_assoc; reflexivity|].
      split; [repeat constructor | reflexivity].
    + erewrite fit_and_evaluate_no_path; [|exact Hv|exact Hp].
      exists e. eexists. eexists. split; [reflexivity|].
      split; [reflexivity|]. split; [repeat constructor | discriminate].
  - rewrite fit_and_evaluate_invalid with (e := e) by exact Hv.
    exists e. eexists. eexists. split; [reflexivity|].
    split; [reflexivity|]. split; [repeat constructor | discriminate].
Qed.

Lemma all_m_dim_false i x l :
  all_m (dim_is i x) l = Ok false ->
  exists b, In b l /\ nth_error (rev (shape (hiddens b))) (i - 1) <> Some x.
Proof.
  induction l as [|b l IH]; cbn [all_m]; [discriminate|].
  destruct (dim_is i x b) as [[|]|e] eqn:Hb; try discriminate.
  - intros (b' & Hin & Hne)%IH. exists b'. split; [now right | assumption].
  - intros _. exists b. split; [now left|].
    revert Hb. unfold dim_is, from_end.
    destruct (nth_error _ _) as [y|]; [|discriminate].
    intros [= Hxy]. apply Nat.eqb_neq in Hxy. congruence.
Qed.

Lemma validate_size_mismatch td :
  Forall four_dim (values td) ->
  (exists b1 b2, In b1 (values td) /\ In b2 (values td) /\
                 hidden_dim b1 <> hidden_dim b2) ->
  validate td = Raise size_mismatch.
Proof.
  intros H4 (b1 & b2 & H1 & H2 & Hne).
  unfold validate. destruct (values td) as [|b rest] eqn:Hvals; [destruct H1|].
  cbn [unpack_first]. inversion H4 as [|? ? Hb Hrest]; subst.
  destruct (four_dim_shape Hb) as (n & v & k & d & Hs). rewrite Hs. cbn [unpack4].
  destruct (four_dim_all_m d Hrest (or_introl eq_refl)) as ([|] & Hd);
    rewrite Hd; [|reflexivity].
  exfalso. apply all_m_dim_true in Hd. rewrite Forall_forall in Hd.
  assert (Hall : forall x, In x (b :: rest) -> hidden_dim x = Some d).
  { intros x [<- | Hx]; [unfold hidden_dim; now rewrite Hs | now apply Hd]. }
  apply Hne. now rewrite (Hall _ H1), (Hall _ H2).
Qed.

Lemma validate_classes_mismatch td :
  Forall four_dim (values td) ->
  (forall b1 b2, In b1 (values td) -> In b2 (values td) ->
                 hidden_dim b1 = hidden_dim b2) ->
  (exists b1 b2, In b1 (values td) /\ In b2 (values td) /\
                 class_count b1 <> class_count b2) ->
  validate td = Raise classes_mismatch.
Proof.
  intros H4 Hsame (b1 & b2 & H1 & H2 & Hne).
  unfold validate. destruct (values td) as [|b rest] eqn:Hvals; [destruct H1|].
  cbn [unpack_first]. inversion H4 as [|? ? Hb Hrest]; subst.
  destruct (four_dim_shape Hb) as (n & v & k & d & Hs). rewrite Hs. cbn [unpack4].
  destruct (four_dim_all_m d Hrest (or_introl eq_refl)) as ([|] & Hd); rewrite Hd.
  - destruct (four_dim_all_m k Hrest (or_intror eq_refl)) as ([|] & Hk);
      rewrite Hk; [|reflexivity].
    exfalso. apply all_m_dim_true in Hk. rewrite Forall_forall in Hk.
    assert (Hall : forall x, In x (b :: rest) -> class_count x = Some k).
    { intros x [<- | Hx]; [unfold class_count; now rewrite Hs | now apply Hk]. }
    apply Hne. now rewrite (Hall _ H1), (Hall _ H2).
  - exfalso. apply all_m_dim_false in Hd as (b' & Hin & Hd).
    apply Hd. change (hidden_dim b' = Some d).
    rewrite (Hsame b' b (or_intror Hin) (or_introl eq_refl)).
    unfold hidden_dim. now rewrite Hs.
Qed.

(** C9, amended: each of the four fatal errors of a layer's cycle reaches
    the caller as the exception [apply_to_layer] raises, and carries a fixed
    text naming the kind of failure (for an unknown configuration, the text
    of its type): the exception is the same whatever the layer index and the
    dataset names are. *)
Theorem fatal_errors_reach_caller
    (self : Elicit Hyper) (layer : Z) (devices : list string) (world_size : Z)
    (w : World) :
  let td := train_dict_of self layer devices world_size in
  let run := apply_to_layer self layer devices world_size w in
  (Forall four_dim (values td) ->
   (exists b1 b2, In b1 (values td) /\ In b2 (values td) /\
                  hidden_dim b1 <> hidden_dim b2) ->
   fst run = Raise size_mismatch) /\
  (Forall four_dim (values td) ->
   (forall b1 b2, In b1 (values td) -> In b2 (values td) ->
                  hidden_dim b1 = hidden_dim b2) ->
   (exists b1 b2, In b1 (values td) /\ In b2 (values td) /\
                  class_count b1 <> class_count b2) ->
   fst run = Raise classes_mismatch) /\
  (forall x out,
      validate td = Ok x -> assert_path (out_dir self) = Ok out ->
      family (net self) = CcsConfig -> length td <> 1%nat ->
      fst run = Raise not_single_task) /\
  (forall x out type_repr,
      validate td = Ok x -> assert_path (out_dir self) = Ok out ->
      family (net self) = OtherConfig type_repr ->
      fst run = Raise (ValueError (unknown_config type_repr))).
Proof.
  intros td run. unfold run. rewrite apply_to_layer_run. fold td.
  refine (conj _ (conj _ (conj _ _))).
  - intros H4 Hmis.
    now rewrite fit_and_evaluate_invalid
      with (e := size_mismatch) by now apply validate_size_mismatch.
  - intros H4 Hsame Hmis.
    now rewrite fit_and_evaluate_invalid
      with (e := classes_mismatch) by now apply validate_classes_mismatch.
  - intros [first [[v k] d]] out Hv Hp Hfam Hlen.
    erewrite fit_and_evaluate_checked; [|exact Hv|exact Hp].
    unfold bind at 1. unfold fit. rewrite Hfam.
    now rewrite fit_ccs_many by assumption.
  - intros [first [[v k] d]] out t Hv Hp Hfam.
    erewrite fit_and_evaluate_checked; [|exact Hv|exact Hp].
    unfold bind at 1. unfold fit. now rewrite Hfam.
Qed.

(** C6: in a run that returns, the reporter is calibrated by exactly one
    [platt_scale], placed right after the event that completes the fit; the
    calibrated reporter has the parameters of the fitted one; and all that
    follows is saving and evaluating that same calibrated reporter (and the
    supervised baseline): nothing changes it again. *)
Theorem calibrated_once_then_frozen
    (self : Elicit Hyper) (layer : Z) (devices : list string) (world_size : Z)
    (w w' : World) (res : dict (list Row) * dict Logprobs) :
  apply_to_layer self layer devices world_size w = (Ok res, w') ->
  exists pre ev fitted calibrated post,
    log w' = log w ++ pre ++ [ev; PlattScale fitted calibrated] ++ post /\
    Forall (fun e => calibration e = false) (pre ++ [ev]) /\
    fit_result ev = Some fitted /\
    (exists labels x, calibrated = platt_scale fitted labels x) /\
    params calibrated = params fitted /\
    Forall (frozen calibrated) post.
Proof.
  rewrite apply_to_layer_run.
  set (td := train_dict_of self layer devices world_size).
  set (vd := val_dict_of self layer devices world_size).
  set (w2 := mkWorld _ _).
  destruct (validate td) as [[first [[v k] d]]|e] eqn:Hv;
    [|rewrite fit_and_evaluate_invalid with (e := e) by exact Hv; discriminate].
  destruct (assert_path (out_dir self)) as [out|e] eqn:Hp;
    [|erewrite fit_and_evaluate_no_path; [discriminate|exact Hv|exact Hp]].
  erewrite fit_and_evaluate_checked; [|exact Hv|exact Hp].
  unfold bind at 1.
  destruct (fit _ _ _ _ _ _ _ _) as [[[rep loss]|e] w3] eqn:Hfit; [|discriminate].
  apply fit_ok in Hfit as (pre & ev & fitted & Hlog3 & Hpre & Hev & Hcal).
  cbn [fst snd]. unfold bind at 1. unfold emit at 1.
  unfold bind at 1.
  destruct (supervised_models _ _ _ _ _ _) as [[ms|e] w4] eqn:Hsup; [|discriminate].
  apply supervised_models_log in Hsup as (sup & Hlog4 & Hsup).
  intros (seen & Hlog5)%eval_loop_log.
  cbn [log w2] in *.
  exists (preparation self layer ++ CreateModelsDir out :: pre), ev, fitted, rep.
  exists (SaveReporter (layer_file (out ++ "/reporters") layer) rep
            :: sup ++ map (fun n => Evaluate n rep) seen).
  split.
  { rewrite Hlog5, Hlog4, Hlog3. rewrite <- !app_assoc. cbn [app].
    rewrite <- ?app_assoc. reflexivity. }
  split.
  { rewrite <- app_assoc. apply Forall_app. split; [repeat constructor|].
    cbn [app]. constructor; [reflexivity | assumption]. }
  split; [assumption|]. split; [assumption|].
  split; [destruct Hcal as (l & x & ->); reflexivity|].
  constructor; [reflexivity|]. apply Forall_app. split.
  - eapply Forall_impl; [|exact Hsup].
    intros e [-> | [p ->]]; exact I.
  - apply Forall_forall. intros e (n & <- & _)%in_map_iff. reflexivity.
Qed.

End OrchestratorClaims.


(** ** Runs in the concrete setting *)

Section OrchestratorExamples.
Import Vec Py Train Scenario.
Local Open Scope string_scope.
Local Open Scope list_scope.
Local Open Scope Z_scope.

Ltac run_layer :=
  cbv - [Rplus Rminus Rmult Rdiv Rinv Ropp exp IZR INR sqrt].

Lemma ccs_rejects_multiple_datasets_witness :
  exists e w' evs,
    @apply_to_layer (collaborators two_tasks two_tasks)
       (elicit CcsConfig "none") 3 [] 1
       (@start (collaborators two_tasks two_tasks) 0%Z) = (Raise e, w') /\
    log w' = [] ++ evs /\
    Forall (fun ev => fitting ev = false) evs /\
    (forall x out,
        validate two_tasks = Ok x ->
        @assert_path (collaborators two_tasks two_tasks) (Some "out") = Ok out ->
        e = not_single_task).
Proof.
  apply (@ccs_rejects_multiple_datasets (collaborators two_tasks two_tasks)
           (elicit CcsConfig "none") 3%Z [] 1%Z
           (@start (collaborators two_tasks two_tasks) 0%Z)).
  - reflexivity.
  - cbn. lia.
Defined.

(** The same two datasets (d = 8, k = 2, v = 2 and v = 3) go through the
    eigen path. *)
Lemma eigen_accepts_two_tasks :
  exists res w',
    @apply_to_layer (collaborators two_tasks two_tasks)
       (elicit EigenFitterConfig "none") 3 [] 1
       (@start (collaborators two_tasks two_tasks) 0%Z) = (Ok res, w').
Proof. eexists. eexists. run_layer. reflexivity. Qed.

Lemma calibrated_once_then_frozen_witness :
  exists res w',
    @apply_to_layer (collaborators one_task one_task)
       (elicit CcsConfig "single") 3 [] 1
       (@start (collaborators one_task one_task) 0%Z) = (Ok res, w') /\
    exists pre ev fitted calibrated post,
      log w' = [] ++ pre ++ [ev; PlattScale fitted calibrated] ++ post /\
      Forall (fun e => calibration e = false) (pre ++ [ev]) /\
      fit_result ev = Some fitted /\
      (exists labels x, calibrated = platt_scale fitted labels x) /\
      params calibrated = params fitted /\
      Forall (frozen calibrated) post.
Proof.
  eexists. eexists. split; [run_layer; reflexivity|].
  eapply (@calibrated_once_then_frozen (collaborators one_task one_task)
           (elicit CcsConfig "single") 3%Z [] 1%Z
           (@start (collaborators one_task one_task) 0%Z)).
  run_layer. reflexivity.
Defined.

(** C9, claim as stated, refuted: at layer 3, with datasets "imdb" (d = 8)
    and "boolq" (d = 16), the exception that reaches the caller says
    "All datasets must have the same hidden state size": neither the layer
    index nor a dataset name is in it. *)
Lemma fatal_error_without_context :
  exists e w',
    @apply_to_layer (collaborators mismatched mismatched)
       (elicit EigenFitterConfig "none") 3 [] 1
       (@start (collaborators mismatched mismatched) 0%Z) = (Raise e, w') /\
    ~ carries_context e 3 (keys mismatched).
Proof.
  eexists. eexists. split; [run_layer; reflexivity|].
  intros [Hlayer _]. vm_compute in Hlayer. discriminate.
Qed.

Lemma fatal_errors_reach_caller_witness :
  fst (@apply_to_layer (collaborators mismatched mismatched)
         (elicit EigenFitterConfig "none") 3 [] 1
         (@start (collaborators mismatched mismatched) 0%Z))
  = Raise size_mismatch.
Proof.
  apply (proj1 (@fatal_errors_reach_caller (collaborators mismatched mismatched)
                  (elicit EigenFitterConfig "none") 3%Z [] 1%Z
                  (@start (collaborators mismatched mismatched) 0%Z))).
  - repeat constructor.
  - exists (bundle 1 2 2 8 None), (bundle 1 2 2 16 None).
    split; [left; reflexivity|].
    split; [right; left; reflexivity|].
    discriminate.
Defined.

End OrchestratorExamples.


(** ** [apply_to_layer]: the rows of the result tables *)

Section TableFacts.
Import Vec Py Train.
Context {C : Collaborators}.
Local Open Scope string_scope.
Local Open Scope list_scope.

Lemma lookup_setitem_same {V} (d : dict V) k v :
  lookup (setitem d k v) k = Some v.
Proof.
  induction d as [|[k' v'] d IH]; cbn [setitem lookup].
  - now rewrite String.eqb_refl.
  - destruct (String.eqb k' k) eqn:Hk; cbn [lookup]; rewrite Hk; auto.
Qed.

Lemma lookup_setitem_other {V} (d : dict V) k v k' :
  k <> k' -> lookup (setitem d k v) k' = lookup d k'.
Proof.
  intros Hne. induction d as [|[k0 v0] d IH]; cbn [setitem lookup].
  - apply String.eqb_neq in Hne. now rewrite Hne.
  - destruct (String.eqb k0 k) eqn:Hk; cbn [lookup].
    + apply String.eqb_eq in Hk. subst k0.
      apply String.eqb_neq in Hne. now rewrite Hne.
    + now rewrite IH.
Qed.

Lemma table_append_same {X} (d : dict (list X)) k x :
  table (append_to d k x) k = table d k ++ [x].
Proof.
  unfold table, append_to.
  destruct (lookup d k) as [l|]; now rewrite lookup_setitem_same.
Qed.

Lemma table_append_other {X} (d : dict (list X)) k x k' :
  k <> k' -> table (append_to d k x) k' = table d k'.
Proof.
  intros Hne. unfold table, append_to.
  destruct (lookup d k) as [l|]; now rewrite lookup_setitem_other.
Qed.

Ltac tables :=
  repeat first
    [ rewrite table_append_same
    | rewrite table_append_other by discriminate ].

Section OneDatasetFacts.
Variable self : Elicit Hyper.
Variable layer : Z.
Variable fit_loss : option R.
Variable ds_name : string.
Variables val train : Bundle.

Local Notation "'lr_pass'" := (lr_step self layer ds_name val train).
Local Notation "'mode_pass'" := (mode_step self layer fit_loss ds_name val train).

(** The loop over the baselines leaves the reporter's tables alone, but not
    the two credence variables. *)
Lemma lr_loop_tables mode ims st name :
  name <> "lr_eval" -> name <> "train_lr_eval" ->
  table (row_bufs (fold_left (lr_pass mode) ims st)) name
  = table (row_bufs st) name.
Proof.
  intros H1 H2. revert st.
  induction ims as [|im ims IH]; intros st; cbn [fold_left]; [reflexivity|].
  rewrite IH. unfold Train.lr_step. cbn [row_bufs].
  rewrite !table_append_other by congruence. reflexivity.
Qed.

Lemma lr_loop_val_credences mode (ms : list LrModel) (js : list nat) st :
  length js = length ms ->
  val_credences (fold_left (lr_pass mode) (combine js ms) st)
  = after_baselines val ms (val_credences st).
Proof.
  revert js st. induction ms as [|m ms IH]; intros [|j js] st Hlen;
    try discriminate; cbn [combine fold_left]; [reflexivity|].
  rewrite IH by (cbn in Hlen; lia). reflexivity.
Qed.

Lemma lr_loop_train_credences mode (ms : list LrModel) (js : list nat) st :
  length js = length ms ->
  train_credences (fold_left (lr_pass mode) (combine js ms) st)
  = after_baselines train ms (train_credences st).
Proof.
  revert js st. induction ms as [|m ms IH]; intros [|j js] st Hlen;
    try discriminate; cbn [combine fold_left]; [reflexivity|].
  rewrite IH by (cbn in Hlen; lia). reflexivity.
Qed.

Lemma mode_step_val_credences ms st mode :
  val_credences (mode_pass ms st mode) = after_baselines val ms (val_credences st).
Proof.
  unfold Train.mode_step, enumerate.
  rewrite lr_loop_val_credences by apply length_seq. reflexivity.
Qed.

Lemma mode_step_train_credences ms st mode :
  train_credences (mode_pass ms st mode)
  = after_baselines train ms (train_credences st).
Proof.
  unfold Train.mode_step, enumerate.
  rewrite lr_loop_train_credences by apply length_seq. reflexivity.
Qed.

(** One pass of the loop over the modes adds to "eval" the row scored on the
    current contents of [val_credences]. *)
Lemma mode_step_eval ms st mode :
  table (row_bufs (mode_pass ms st mode)) "eval"
  = table (row_bufs st) "eval"
    ++ [mkRow ds_name layer mode None
          (evaluate_preds (labels val) (val_credences st) mode) (Some fit_loss)].
Proof.
  unfold Train.mode_step.
  rewrite lr_loop_tables by discriminate. cbn [row_bufs].
  destruct (lm_preds train), (lm_preds val); tables; reflexivity.
Qed.

Lemma mode_step_train_eval ms st mode :
  table (row_bufs (mode_pass ms st mode)) "train_eval"
  = table (row_bufs st) "train_eval"
    ++ [mkRow ds_name layer mode None
          (evaluate_preds (labels train) (train_credences st) mode) (Some fit_loss)].
Proof.
  unfold Train.mode_step.
  rewrite lr_loop_tables by discriminate. cbn [row_bufs].
  destruct (lm_preds train), (lm_preds val); tables; reflexivity.
Qed.

Lemma mode_step_lm_eval ms st mode :
  table (row_bufs (mode_pass ms st mode)) "lm_eval"
  = table (row_bufs st) "lm_eval"
    ++ match lm_preds val with
       | Some lm => [mkRow ds_name layer mode None
                       (evaluate_preds (labels val) lm mode) None]
       | None => []
       end.
Proof.
  unfold Train.mode_step.
  rewrite lr_loop_tables by discriminate. cbn [row_bufs].
  destruct (lm_preds train), (lm_preds val); tables;
    rewrite ?app_nil_r; reflexivity.
Qed.

Lemma mode_step_train_lm_eval ms st mode :
  table (row_bufs (mode_pass ms st mode)) "train_lm_eval"
  = table (row_bufs st) "train_lm_eval"
    ++ match lm_preds train with
       | Some lm => [mkRow ds_name layer mode None
                       (evaluate_preds (labels train) lm mode) None]
       | None => []
       end.
Proof.
  unfold Train.mode_step.
  rewrite lr_loop_tables by discriminate. cbn [row_bufs].
  destruct (lm_preds train), (lm_preds val); tables;
    rewrite ?app_nil_r; reflexivity.
Qed.

(** The "eval" rows of one dataset.  Only the row of mode "none" is scored
    on the reporter's credences; by then the baselines have overwritten
    [val_credences]. *)
Lemma eval_dataset_eval rep ms bufs out :
  let c0 := reporter_call rep (hiddens val) in
  let c1 := after_baselines val ms c0 in
  let c2 := after_baselines val ms c1 in
  let row mode c := mkRow ds_name layer mode None
                      (evaluate_preds (labels val) c mode) (Some fit_loss) in
  table (fst (eval_dataset self layer fit_loss ds_name val train rep ms bufs out)) "eval"
  = table bufs "eval" ++ [row "none" c0; row "partial" c1; row "full" c2].
Proof.
  unfold eval_dataset, modes. cbn [fold_left fst].
  rewrite !mode_step_eval, !mode_step_val_credences. cbn [row_bufs val_credences].
  rewrite <- !app_assoc. reflexivity.
Qed.

Lemma eval_dataset_train_eval rep ms bufs out :
  let c0 := reporter_call rep (hiddens train) in
  let c1 := after_baselines train ms c0 in
  let c2 := after_baselines train ms c1 in
  let row mode c := mkRow ds_name layer mode None
                      (evaluate_preds (labels train) c mode) (Some fit_loss) in
  table (fst (eval_dataset self layer fit_loss ds_name val train rep ms bufs out))
        "train_eval"
  = table bufs "train_eval" ++ [row "none" c0; row "partial" c1; row "full" c2].
Proof.
  unfold eval_dataset, modes. cbn [fold_left fst].
  rewrite !mode_step_train_eval, !mode_step_train_credences.
  cbn [row_bufs train_credences].
  rewrite <- !app_assoc. reflexivity.
Qed.

(** The language-model rows: three per split whose bundle has predictions,
    none otherwise. *)
Lemma eval_dataset_lm_eval rep ms bufs out :
  table (fst (eval_dataset self layer fit_loss ds_name val train rep ms bufs out))
        "lm_eval"
  = table bufs "lm_eval"
    ++ match lm_preds val with
       | Some lm => map (fun mode => mkRow ds_name layer mode None
                                       (evaluate_preds (labels val) lm mode) None)
                        modes
       | None => []
       end.
Proof.
  unfold eval_dataset, modes. cbn [fold_left fst].
  rewrite !mode_step_lm_eval. cbn [row_bufs].
  destruct (lm_preds val); rewrite ?app_nil_r, <- ?app_assoc; reflexivity.
Qed.

Lemma eval_dataset_train_lm_eval rep ms bufs out :
  table (fst (eval_dataset self layer fit_loss ds_name val train rep ms bufs out))
        "train_lm_eval"
  = table bufs "train_lm_eval"
    ++ match lm_preds train with
       | Some lm => map (fun mode => mkRow ds_name layer mode None
                                       (evaluate_preds (labels train) lm mode) None)
                        modes
       | None => []
       end.
Proof.
  unfold eval_dataset, modes. cbn [fold_left fst].
  rewrite !mode_step_train_lm_eval. cbn [row_bufs].
  destruct (lm_preds train); rewrite ?app_nil_r, <- ?app_assoc; reflexivity.
Qed.

(** Without supervised baselines all three "eval" rows are the reporter's. *)
Lemma eval_dataset_eval_no_baseline rep bufs out :
  table (fst (eval_dataset self layer fit_loss ds_name val train rep [] bufs out)) "eval"
  = table bufs "eval"
    ++ map (fun mode => mkRow ds_name layer mode None
                          (evaluate_preds (labels val)
                             (reporter_call rep (hiddens val)) mode)
                          (Some fit_loss))
           modes.
Proof. apply eval_dataset_eval. Qed.

End OneDatasetFacts.

End TableFacts.


Section TableExamples.
Import Vec Py Train Scenario.
Local Open Scope string_scope.
Local Open Scope list_scope.
Local Open Scope Z_scope.

Ltac run_layer :=
  cbv - [Rplus Rminus Rmult Rdiv Rinv Ropp exp IZR INR sqrt].

(** C5, at the default configuration (eigen fitter, [supervised = "single"])
    with one dataset: the run returns three "eval" rows, for "none",
    "partial" and "full", but the last two are scored on the credences of
    the supervised baseline, which the inner loop has stored in
    [val_credences], not on the reporter's. *)
Theorem eval_rows_scored_on_baseline :
  let C := collaborators one_task one_task in
  let val := bundle 1 1 2 1 None in
  let rep : @reporter C := mkReporter 1%Z 2%R 1%R in
  exists res w' r_none r_partial r_full,
    @apply_to_layer C (elicit EigenFitterConfig "single") 3 [] 1 (@start C 0%Z)
    = (Ok res, w') /\
    In (SaveReporter "out/reporters/layer_3.pt" rep) (log w') /\
    table (fst res) "eval" = [r_none; r_partial; r_full] /\
    map (@ensembling C) [r_none; r_partial; r_full] = ["none"; "partial"; "full"] /\
    result r_none
    = @evaluate_preds C (labels val) (@reporter_call C rep (hiddens val)) "none" /\
    result r_partial
    = @evaluate_preds C (labels val) (@lr_forward C tt (hiddens val)) "partial" /\
    result r_partial
    <> @evaluate_preds C (labels val) (@reporter_call C rep (hiddens val)) "partial" /\
    result r_full
    <> @evaluate_preds C (labels val) (@reporter_call C rep (hiddens val)) "full".
Proof.
  intros C val rep.
  assert (Hne : @lr_forward C tt (hiddens val) <> @reporter_call C rep (hiddens val)).
  { run_layer. intros [= H _]. pose proof (exp_pos (- (2 * 0 + 1))) as He.
    assert (H1 : (1 + exp (- (2 * 0 + 1)) <> 0)%R) by lra.
    apply (f_equal (fun x => (x * (1 + exp (- (2 * 0 + 1))))%R)) in H.
    unfold Rdiv in H. rewrite Rmult_assoc, Rinv_l in H by exact H1. lra. }
  do 5 eexists.
  split; [run_layer; reflexivity|].
  split; [cbn [log]; right; right; right; right; right; right; right; left; reflexivity|].
  split; [reflexivity|].
  split; [reflexivity|].
  split; [reflexivity|].
  split; [reflexivity|].
  split; exact Hne.
Qed.

End TableExamples.


(** ** Streaming statistics: coordinates of vectors and matrices *)

Section VectorFacts.
Import Vec Accumulator.
Local Open Scope R_scope.

Lemma length_zip_with {A} (f : A -> A -> A) u v :
  length u = length v -> length (zip_with f u v) = length u.
Proof.
  intros Hlen. unfold zip_with. rewrite length_map, length_combine, <- Hlen.
  apply Nat.min_id.
Qed.

Lemma nth_zip_with {A} (f : A -> A -> A) (a : A) u v i :
  f a a = a -> length u = length v ->
  nth i (zip_with f u v) a = f (nth i u a) (nth i v a).
Proof.
  intros Hf. revert v i.
  induction u as [|x u IH]; intros [|y v] i Hlen; try discriminate.
  - destruct i; cbn; now rewrite Hf.
  - destruct i as [|i]; [reflexivity|].
    cbn in Hlen. injection Hlen as Hlen. apply (IH v i Hlen).
Qed.

Lemma coord_vadd u v i :
  length u = length v -> coord i (vadd u v) = coord i u + coord i v.
Proof. intros Hlen. apply nth_zip_with; [lra | assumption]. Qed.

Lemma coord_vsub u v i :
  length u = length v -> coord i (vsub u v) = coord i u - coord i v.
Proof. intros Hlen. apply nth_zip_with; [lra | assumption]. Qed.

Lemma coord_vscale c v i : coord i (vscale c v) = c * coord i v.
Proof.
  unfold coord, vscale. revert i.
  induction v as [|x v IH]; intros [|i]; cbn; try lra. apply IH.
Qed.

Lemma coord_zeros D i : coord i (zeros D) = 0.
Proof.
  unfold coord, zeros. revert i.
  induction D as [|D IH]; intros [|i]; cbn; try reflexivity. apply IH.
Qed.

Lemma length_zeros D : length (zeros D) = D.
Proof. apply repeat_length. Qed.

Lemma length_vscale c v : length (vscale c v) = length v.
Proof. apply length_map. Qed.

Lemma length_vsum D xs : well_shaped D xs -> length (vsum D xs) = D.
Proof.
  induction 1 as [|x xs Hx _ IH]; cbn [vsum fold_right]; [apply length_zeros|].
  unfold vadd. rewrite length_zip_with; [assumption|]. now rewrite Hx.
Qed.

Lemma coord_vsum D xs i :
  well_shaped D xs -> coord i (vsum D xs) = rsum (map (coord i) xs).
Proof.
  induction 1 as [|x xs Hx Hxs IH]; cbn [vsum fold_right map rsum].
  - apply coord_zeros.
  - rewrite coord_vadd by (now rewrite Hx; symmetry; apply length_vsum).
    fold (vsum D xs). now rewrite IH.
Qed.

Lemma vec_ext D u v :
  length u = D -> length v = D -> (forall i, coord i u = coord i v) -> u = v.
Proof.
  intros Hu Hv Hc. apply nth_ext with (d := 0) (d' := 0); [congruence|].
  intros i _. apply Hc.
Qed.

Lemma square_row D m i : square D m -> (i < D)%nat -> length (nth i m []) = D.
Proof.
  intros [Hlen Hrows] Hi. rewrite Forall_forall in Hrows.
  apply Hrows, nth_In. now rewrite Hlen.
Qed.

Lemma square_zero D : square D (zero_matrix D).
Proof.
  split; [apply repeat_length|].
  apply Forall_forall. intros r Hr. apply repeat_spec in Hr. subst.
  apply length_zeros.
Qed.

Lemma entry_zero D i j : entry i j (zero_matrix D) = 0.
Proof.
  unfold entry, zero_matrix.
  destruct (Nat.lt_ge_cases i D) as [Hi | Hi].
  - rewrite nth_repeat_lt by exact Hi. apply coord_zeros.
  - rewrite (nth_overflow (repeat (zeros D) D))
      by (rewrite repeat_length; exact Hi).
    now destruct j.
Qed.

Lemma square_outer D u v :
  length u = D -> length v = D -> square D (outer u v).
Proof.
  intros Hu Hv. unfold outer. split; [now rewrite length_map|].
  apply Forall_forall. intros r (a & <- & _)%in_map_iff. now rewrite length_map.
Qed.

Lemma entry_outer u v i j : entry i j (outer u v) = coord i u * coord j v.
Proof.
  unfold entry, outer, coord. revert i.
  induction u as [|a u IH]; intros [|i]; cbn [map nth].
  - destruct j; lra.
  - destruct j; lra.
  - clear IH. revert j. induction v as [|b v IH]; intros [|j]; cbn; try lra.
    apply IH.
  - apply IH.
Qed.

Lemma square_madd D a b : square D a -> square D b -> square D (madd a b).
Proof.
  intros [Ha Hra] [Hb Hrb]. unfold madd. split.
  - rewrite length_zip_with; congruence.
  - apply Forall_forall. intros r Hr. unfold zip_with in Hr.
    apply in_map_iff in Hr as ([x y] & <- & Hin). cbn [fst snd].
    rewrite Forall_forall in Hra, Hrb.
    pose proof (in_combine_l _ _ _ _ Hin) as Hx.
    pose proof (in_combine_r _ _ _ _ Hin) as Hy.
    unfold vadd. rewrite length_zip_with; [now apply Hra|].
    rewrite (Hra _ Hx), (Hrb _ Hy). reflexivity.
Qed.

Lemma entry_madd D a b i j :
  square D a -> square D b -> entry i j (madd a b) = entry i j a + entry i j b.
Proof.
  intros Ha Hb. unfold entry.
  destruct (Nat.lt_ge_cases i D) as [Hi | Hi].
  - unfold madd. rewrite nth_zip_with.
    + apply coord_vadd.
      now rewrite (square_row Ha Hi), (square_row Hb Hi).
    + reflexivity.
    + destruct Ha, Hb. congruence.
  - assert (Hm : length (madd a b) = D) by apply (square_madd Ha Hb).
    destruct Ha as [Hla _], Hb as [Hlb _].
    rewrite (nth_overflow (madd a b)), (nth_overflow a), (nth_overflow b) by lia.
    destruct j; cbn; lra.
Qed.

Lemma square_msum D ms :
  Forall (square D) ms -> square D (msum D ms).
Proof.
  induction 1 as [|m ms Hm _ IH]; cbn [msum fold_right]; [apply square_zero|].
  now apply square_madd.
Qed.

Lemma entry_msum D ms i j :
  Forall (square D) ms -> entry i j (msum D ms) = rsum (map (entry i j) ms).
Proof.
  induction 1 as [|m ms Hm Hms IH]; cbn [msum fold_right map rsum].
  - apply entry_zero.
  - change (entry i j (madd m (msum D ms))
            = entry i j m + rsum (map (entry i j) ms)).
    rewrite (entry_madd i j Hm (square_msum Hms)). now rewrite IH.
Qed.

Lemma matrix_ext D a b :
  square D a -> square D b -> (forall i j, entry i j a = entry i j b) -> a = b.
Proof.
  intros Ha Hb He. apply nth_ext with (d := []) (d' := []).
  - destruct Ha, Hb. congruence.
  - intros i Hi. destruct Ha as [Hla Hra]. rewrite Hla in Hi.
    apply vec_ext with (D := D).
    + apply square_row; [split|]; assumption.
    + now apply square_row.
    + intros j. apply He.
Qed.

End VectorFacts.


(** ** Streaming statistics: batches against the whole dataset *)

Section AccumulatorFacts.
Import Vec Train Accumulator.
Local Open Scope R_scope.

Lemma rsum_app l1 l2 : rsum (l1 ++ l2) = rsum l1 + rsum l2.
Proof.
  unfold rsum. induction l1 as [|x l1 IH]; cbn [app fold_right]; [lra | rewrite IH; lra].
Qed.

Lemma rsum_permutation l1 l2 : Permutation l1 l2 -> rsum l1 = rsum l2.
Proof. unfold rsum. induction 1; cbn [fold_right]; lra. Qed.

(** Sums of deviations, in terms of the sums of coordinates and products. *)
Lemma rsum_deviation i a xs :
  rsum (map (fun x => coord i x - a) xs)
  = rsum (map (coord i) xs) - INR (length xs) * a.
Proof.
  induction xs as [|x xs IH]; [cbn; lra|].
  cbn [map rsum fold_right length]. fold (rsum (map (fun x => coord i x - a) xs)).
  fold (rsum (map (coord i) xs)). rewrite IH, S_INR. lra.
Qed.

Lemma rsum_codeviation i j a b xs :
  rsum (map (fun x => (coord i x - a) * (coord j x - b)) xs)
  = rsum (map (fun x => coord i x * coord j x) xs)
    - b * rsum (map (coord i) xs) - a * rsum (map (coord j) xs)
    + INR (length xs) * a * b.
Proof.
  induction xs as [|x xs IH]; [cbn; lra|].
  cbn [map rsum fold_right length].
  fold (rsum (map (fun x => (coord i x - a) * (coord j x - b)) xs)).
  fold (rsum (map (fun x => coord i x * coord j x) xs)).
  fold (rsum (map (coord i) xs)). fold (rsum (map (coord j) xs)).
  rewrite IH, S_INR. lra.
Qed.

(** The two identities behind the update, on numbers: [n], [m] are the sizes
    of the data seen and of the batch, [s], [t] their coordinate sums. *)
Lemma mean_step n m s t :
  0 <= n -> 0 <= m -> (n = 0 -> s = 0) -> (m = 0 -> t = 0) ->
  / n * s + / (n + m) * (t - m * (/ n * s)) = / (n + m) * (s + t).
Proof.
  intros Hn Hm Hs Ht.
  destruct (Req_dec n 0) as [-> | Hn0].
  - rewrite (Hs eq_refl), Rplus_0_l. ring.
  - field. lra.
Qed.

Lemma comoment_step n m si sj ti tj p q :
  0 <= n -> 0 <= m ->
  (n = 0 -> si = 0 /\ sj = 0 /\ p = 0) ->
  (m = 0 -> ti = 0 /\ tj = 0 /\ q = 0) ->
  let mi := / n * si in
  let mj := / n * sj in
  let mi' := / (n + m) * (si + ti) in
  let mj' := / (n + m) * (sj + tj) in
  (p - mj * si - mi * sj + n * mi * mj)
  + (q - mj' * ti - mi * tj + m * mi * mj')
  = (p + q) - mj' * (si + ti) - mi' * (sj + tj) + (n + m) * mi' * mj'.
Proof.
  intros Hn Hm Hs Ht mi mj mi' mj'. subst mi mj mi' mj'.
  destruct (Req_dec n 0) as [-> | Hn0].
  - destruct (Hs eq_refl) as (-> & -> & ->).
    rewrite !Rplus_0_l, !Rmult_0_r.
    destruct (Req_dec m 0) as [-> | Hm0].
    + destruct (Ht eq_refl) as (-> & -> & ->). ring.
    + field. exact Hm0.
  - field. split; lra.
Qed.

Lemma rsum_nil_sums i j (xs : list vec) :
  INR (length xs) = 0 ->
  rsum (map (coord i) xs) = 0 /\ rsum (map (coord j) xs) = 0 /\
  rsum (map (fun x => coord i x * coord j x) xs) = 0.
Proof.
  destruct xs as [|x xs]; [now cbn|].
  intros H. exfalso. cbn [length] in H. rewrite S_INR in H.
  pose proof (pos_INR (length xs)). lra.
Qed.

Lemma length_vsub D x mu : length x = D -> length mu = D -> length (vsub x mu) = D.
Proof. intros Hx Hmu. unfold vsub. rewrite length_zip_with; congruence. Qed.

Lemma square_deviations D mu mu' xs :
  well_shaped D xs -> length mu = D -> length mu' = D ->
  Forall (square D) (map (fun x => outer (vsub x mu) (vsub x mu')) xs).
Proof.
  intros Hxs Hmu Hmu'. apply Forall_forall. intros m (x & <- & Hx)%in_map_iff.
  unfold well_shaped in Hxs. rewrite Forall_forall in Hxs.
  apply square_outer; apply length_vsub; auto.
Qed.

Lemma entry_deviations D mu mu' xs i j :
  well_shaped D xs -> length mu = D -> length mu' = D ->
  entry i j (msum D (map (fun x => outer (vsub x mu) (vsub x mu')) xs))
  = rsum (map (fun x => (coord i x - coord i mu) * (coord j x - coord j mu')) xs).
Proof.
  intros Hxs Hmu Hmu'.
  rewrite entry_msum by now apply square_deviations.
  rewrite map_map. f_equal. apply map_ext_in. intros x Hx.
  unfold well_shaped in Hxs. rewrite Forall_forall in Hxs.
  rewrite entry_outer, !coord_vsub by (rewrite (Hxs x Hx); congruence).
  reflexivity.
Qed.

(** The state after [stats_of]: shapes and coordinates. *)
Lemma length_mean_stats_of D xs :
  well_shaped D xs -> length (mean (stats_of D xs)) = D.
Proof.
  intros Hxs. cbn [stats_of mean]. now rewrite length_vscale, length_vsum.
Qed.

Lemma coord_mean_stats_of D xs i :
  well_shaped D xs ->
  coord i (mean (stats_of D xs)) = / INR (length xs) * rsum (map (coord i) xs).
Proof.
  intros Hxs. cbn [stats_of mean]. now rewrite coord_vscale, coord_vsum.
Qed.

Lemma square_m2_stats_of D xs : well_shaped D xs -> square D (m2 (stats_of D xs)).
Proof.
  intros Hxs. cbn [stats_of m2]. apply square_msum.
  apply square_deviations; auto; apply (length_mean_stats_of Hxs).
Qed.

Lemma well_shaped_app D xs ys :
  well_shaped D xs -> well_shaped D ys -> well_shaped D (xs ++ ys).
Proof. intros Hx Hy. apply Forall_app. now split. Qed.

Lemma stats_ext (a b : Stats) :
  dim a = dim b -> count a = count b -> mean a = mean b -> m2 a = m2 b -> a = b.
Proof. destruct a, b. cbn. now intros -> -> -> ->. Qed.

(** One [update] on top of the statistics of [xs] gives the statistics of
    [xs ++ ys]. *)
Lemma update_rows_stats_of D xs ys :
  well_shaped D xs -> well_shaped D ys ->
  update_rows (stats_of D xs) ys = stats_of D (xs ++ ys).
Proof.
  intros Hxs Hys.
  pose proof (well_shaped_app Hxs Hys) as Hall.
  pose proof (length_mean_stats_of Hxs) as Hmu.
  set (mu := mean (stats_of D xs)) in *.
  set (mu' := vadd mu (vscale (/ INR (length xs + length ys))
                         (vsum D (map (fun x => vsub x mu) ys)))).
  assert (Hdev : well_shaped D (map (fun x => vsub x mu) ys)).
  { apply Forall_forall. intros v (y & <- & Hy)%in_map_iff.
    unfold well_shaped in Hys. rewrite Forall_forall in Hys.
    apply length_vsub; auto. }
  assert (Hmu' : length mu' = D).
  { unfold mu', vadd. rewrite length_zip_with; [assumption|].
    now rewrite Hmu, length_vscale, length_vsum. }
  assert (Hmean : forall i, coord i mu' = coord i (mean (stats_of D (xs ++ ys)))).
  { intros i. unfold mu'.
    rewrite coord_vadd by now rewrite Hmu, length_vscale, length_vsum.
    rewrite coord_vscale, coord_vsum by assumption.
    rewrite map_map.
    rewrite (map_ext_in (fun x => coord i (vsub x mu)) (fun x => coord i x - coord i mu)).
    2:{ intros y Hy. unfold well_shaped in Hys. rewrite Forall_forall in Hys.
        apply coord_vsub. rewrite (Hys y Hy). congruence. }
    rewrite rsum_deviation.
    unfold mu. rewrite !coord_mean_stats_of by assumption.
    rewrite map_app, rsum_app, length_app, !plus_INR.
    apply mean_step; try apply pos_INR.
    - intros H0. apply (rsum_nil_sums i i xs H0).
    - intros H0. apply (rsum_nil_sums i i ys H0). }
  assert (Heq : mu' = mean (stats_of D (xs ++ ys))).
  { apply vec_ext with (D := D); auto. now apply length_mean_stats_of. }
  apply stats_ext.
  - reflexivity.
  - cbn [update_rows count stats_of]. now rewrite length_app.
  - exact Heq.
  - change (madd (m2 (stats_of D xs))
              (msum D (map (fun x => outer (vsub x mu) (vsub x mu')) ys))
            = m2 (stats_of D (xs ++ ys))).
    apply matrix_ext with (D := D).
    + apply square_madd.
      * apply (square_m2_stats_of Hxs).
      * apply square_msum, square_deviations; auto.
    + apply (square_m2_stats_of Hall).
    + intros i j.
      rewrite (@entry_madd D)
        by (first [apply (square_m2_stats_of Hxs)
                  | apply square_msum, square_deviations; auto]).
      rewrite entry_deviations by auto.
      cbn [stats_of m2].
      rewrite !entry_deviations
        by (auto; first [apply (length_mean_stats_of Hxs)
                        | apply (length_mean_stats_of Hall)]).
      rewrite !rsum_codeviation. rewrite Hmean.
      change (vscale (/ INR (length xs)) (vsum D xs)) with mu.
      change (vscale (/ INR (length (xs ++ ys))) (vsum D (xs ++ ys)))
        with (mean (stats_of D (xs ++ ys))).
      unfold mu. rewrite !coord_mean_stats_of by assumption.
      rewrite !map_app, !rsum_app, length_app, !plus_INR.
      apply comoment_step; try apply pos_INR.
      * intros H0. apply (rsum_nil_sums i j xs H0).
      * intros H0. apply (rsum_nil_sums i j ys H0).
Qed.

Lemma stats_of_nil D : stats_of D [] = init D.
Proof.
  apply stats_ext; try reflexivity.
  cbn [stats_of mean init vsum fold_right].
  apply vec_ext with (D := D).
  - now rewrite length_vscale, length_zeros.
  - apply length_zeros.
  - intros i. rewrite coord_vscale, coord_zeros. apply Rmult_0_r.
Qed.

Lemma stats_of_permutation D xs ys :
  Permutation xs ys -> well_shaped D xs -> stats_of D xs = stats_of D ys.
Proof.
  intros Hperm Hxs.
  assert (Hys : well_shaped D ys) by exact (Permutation_Forall Hperm Hxs).
  assert (Hmean : mean (stats_of D xs) = mean (stats_of D ys)).
  { apply vec_ext with (D := D); try now apply length_mean_stats_of.
    intros i. rewrite !coord_mean_stats_of by assumption.
    rewrite (Permutation_length Hperm).
    f_equal. apply rsum_permutation. now apply Permutation_map. }
  apply stats_ext.
  - reflexivity.
  - apply (Permutation_length Hperm).
  - exact Hmean.
  - apply matrix_ext with (D := D); try now apply square_m2_stats_of.
    intros i j. cbn [stats_of m2].
    change (vscale (/ INR (length xs)) (vsum D xs)) with (mean (stats_of D xs)).
    change (vscale (/ INR (length ys)) (vsum D ys)) with (mean (stats_of D ys)).
    rewrite !entry_deviations by (auto; now apply length_mean_stats_of).
    rewrite Hmean. apply rsum_permutation. now apply Permutation_map.
Qed.

Lemma fold_update_stats_of D (batches : list (Tensor R)) xs :
  well_shaped D xs ->
  Forall (fun t => well_shaped D (rows t)) batches ->
  fold_left update batches (stats_of D xs)
  = stats_of D (xs ++ flat_map rows batches).
Proof.
  intros Hxs Hb. revert xs Hxs.
  induction Hb as [|t batches Ht _ IH]; intros xs Hxs; cbn [fold_left flat_map].
  - now rewrite app_nil_r.
  - unfold update at 2. rewrite update_rows_stats_of by assumption.
    rewrite IH by now apply well_shaped_app.
    now rewrite app_assoc.
Qed.

Lemma well_shaped_batches D (batches : list (Tensor R)) :
  well_shaped D (flat_map rows batches) ->
  Forall (fun t => well_shaped D (rows t)) batches.
Proof.
  induction batches as [|t batches IH]; cbn [flat_map]; intros H; [constructor|].
  apply Forall_app in H as [Ht Hrest]. constructor; auto.
Qed.

(** One [update] on everything is the two-pass computation. *)
Lemma update_whole D (whole : Tensor R) :
  well_shaped D (rows whole) ->
  update (init D) whole = stats_of D (rows whole).
Proof.
  intros Hwhole. unfold update. rewrite <- stats_of_nil.
  rewrite update_rows_stats_of by (assumption || constructor). reflexivity.
Qed.

(** Batches whose rows make up the rows of [whole], fed one by one. *)
Lemma fold_update_whole D (batches : list (Tensor R)) (whole : Tensor R) :
  well_shaped D (rows whole) ->
  Permutation (flat_map rows batches) (rows whole) ->
  fold_left update batches (init D) = stats_of D (rows whole).
Proof.
  intros Hwhole Hperm.
  assert (Hrows : well_shaped D (flat_map rows batches))
    by exact (Permutation_Forall (Permutation_sym Hperm) Hwhole).
  rewrite <- stats_of_nil.
  rewrite fold_update_stats_of
    by (constructor || now apply well_shaped_batches).
  cbn [app]. now apply stats_of_permutation.
Qed.

(** C1: take any collection of hidden-state rows and any way of cutting it
    into batches: calling [update] once per batch, in the order given or in
    any other, leaves the fitter with the statistics that a single [update]
    on the whole collection leaves, which are the two-pass statistics of the
    collection.  Equality is exact over the reals; in floating point it
    holds up to the rounding of the sums. *)
Theorem batches_match_single_update
    (D : nat) (batches : list (Tensor R)) (whole : Tensor R) :
  well_shaped D (rows whole) ->
  Permutation (flat_map rows batches) (rows whole) ->
  fold_left update batches (init D) = update (init D) whole /\
  update (init D) whole = stats_of D (rows whole) /\
  (forall reordered, Permutation batches reordered ->
                     fold_left update reordered (init D)
                     = fold_left update batches (init D)).
Proof.
  intros Hwhole Hperm.
  pose proof (@update_whole D whole Hwhole) as Hone.
  pose proof (@fold_update_whole D batches whole Hwhole Hperm) as Hbatches.
  split; [congruence|]. split; [exact Hone|].
  intros reordered Hre.
  rewrite Hbatches. apply fold_update_whole; [assumption|].
  apply Permutation_trans with (flat_map rows batches); [|assumption].
  apply Permutation_flat_map, Permutation_sym, Hre.
Qed.

Lemma batches_match_single_update_witness :
  fold_left update [batch_a; batch_b] (init 2) = update (init 2) batch_ab /\
  update (init 2) batch_ab = stats_of 2 (rows batch_ab) /\
  (forall reordered, Permutation [batch_a; batch_b] reordered ->
                     fold_left update reordered (init 2)
                     = fold_left update [batch_a; batch_b] (init 2)).
Proof.
  apply (@batches_match_single_update 2 [batch_a; batch_b] batch_ab).
  - unfold well_shaped. cbn. repeat constructor.
  - cbn. apply Permutation_refl.
Defined.

End AccumulatorFacts.


(** ** Ensembling modes on a single variant *)

Section MetricsFacts.
Import Vec Metrics.
Local Open Scope R_scope.

Lemma per_choice_single x : per_choice (length x) [x] = map (fun p => [p]) x.
Proof.
  cbn [per_choice]. induction x as [|a x IH]; [reflexivity|].
  cbn [length repeat combine map fst snd]. now rewrite IH.
Qed.

Lemma average_single p : average [p] = p.
Proof. unfold average, rsum. cbn. field. Qed.

Lemma sigmoid_logit p : 0 < p < 1 -> sigmoid (ln (p / (1 - p))) = p.
Proof.
  intros [H0 H1].
  assert (Hq : 0 < p / (1 - p)) by (apply Rdiv_lt_0_compat; lra).
  unfold sigmoid. rewrite exp_Ropp, exp_ln by exact Hq. field. lra.
Qed.

Lemma average_in_logit_space_single p :
  0 <= p <= 1 -> average_in_logit_space [p] = Some p.
Proof.
  intros [H0 H1]. unfold average_in_logit_space, logit.
  cbn [map fold_right length].
  destruct (Req_dec_T p 0) as [-> | Hn0]; [reflexivity|].
  destruct (Req_dec_T p 1) as [-> | Hn1]; [reflexivity|].
  destruct (Rlt_dec 0 p) as [Hp | Hp]; [|lra].
  destruct (Rlt_dec p 1) as [Hp1 | Hp1]; [|lra].
  cbn [ext_plus ext_div expit]. f_equal.
  replace ((ln (p / (1 - p)) + 0) / INR 1) with (ln (p / (1 - p)))
    by (cbn; field).
  apply sigmoid_logit. lra.
Qed.

Lemma partial_example_single x : partial_example [x] = x.
Proof.
  unfold partial_example. cbn [choices]. rewrite per_choice_single, map_map.
  rewrite (map_ext _ (fun p => p)) by apply average_single. apply map_id.
Qed.

Lemma full_example_single x :
  Forall (fun p => 0 <= p <= 1) x -> full_example [x] = Some x.
Proof.
  intros Hx. unfold full_example. cbn [choices].
  rewrite per_choice_single, map_map.
  induction Hx as [|p x Hp _ IH]; [reflexivity|].
  cbn [map all_some]. rewrite average_in_logit_space_single by exact Hp.
  now rewrite IH.
Qed.

Lemma aggregate_partial_single c :
  single_variant c -> map partial_example c = concat c.
Proof.
  induction 1 as [|vs c Hvs _ IH]; [reflexivity|].
  destruct vs as [|x [|]]; try discriminate.
  cbn [map concat app]. now rewrite partial_example_single, IH.
Qed.

Lemma aggregate_full_single c :
  single_variant c -> probabilities c ->
  all_some (map full_example c) = Some (concat c).
Proof.
  induction 1 as [|vs c Hvs _ IH]; intros Hp; [reflexivity|].
  destruct vs as [|x [|]]; try discriminate.
  inversion Hp as [|? ? Hx Hc]; subst. inversion Hx as [|? ? Hx' _]; subst.
  cbn [map all_some concat app].
  now rewrite full_example_single, IH.
Qed.

Lemma broadcast_labels_single labels c :
  single_variant c -> length labels = length c ->
  broadcast_labels "none" labels c = labels.
Proof.
  unfold broadcast_labels. cbn [String.eqb Ascii.eqb Bool.eqb].
  intros Hc. revert labels.
  induction Hc as [|vs c Hvs _ IH]; intros [|l labels] Hlen; try discriminate;
    [reflexivity|].
  cbn [combine flat_map fst snd]. rewrite Hvs. cbn [repeat app].
  f_equal. apply IH. now injection Hlen.
Qed.

(** C2: on a dataset with exactly one prompt variant, whatever the
    predictor's credences (probabilities in [0,1]), the modes "none",
    "partial" and "full" score the same credences against the same labels,
    and yield the same record of accuracy, AUC and log-loss. *)
Theorem single_variant_modes_agree (labels : list nat) (c : credences) :
  single_variant c -> probabilities c ->
  aggregate "none" c = Some (concat c) /\
  aggregate "partial" c = aggregate "none" c /\
  aggregate "full" c = aggregate "none" c /\
  evaluate_preds labels c "partial" = evaluate_preds labels c "none" /\
  evaluate_preds labels c "full" = evaluate_preds labels c "none" /\
  (length labels = length c ->
   evaluate_preds labels c "none" = Some (score (concat c) labels)).
Proof.
  intros Hv Hp.
  assert (Hpartial : aggregate "partial" c = aggregate "none" c).
  { unfold aggregate. cbn [String.eqb Ascii.eqb Bool.eqb].
    now rewrite aggregate_partial_single. }
  assert (Hfull : aggregate "full" c = aggregate "none" c).
  { unfold aggregate. cbn [String.eqb Ascii.eqb Bool.eqb].
    now apply aggregate_full_single. }
  split; [reflexivity|]. split; [exact Hpartial|]. split; [exact Hfull|].
  unfold evaluate_preds. rewrite Hpartial, Hfull.
  destruct (Nat.eqb (length labels) (length c)) eqn:Hlen.
  - apply Nat.eqb_eq in Hlen.
    rewrite (broadcast_labels_single labels Hv Hlen).
    repeat split; reflexivity.
  - apply Nat.eqb_neq in Hlen. repeat split; try reflexivity. contradiction.
Qed.

Lemma single_variant_modes_agree_witness :
  aggregate "none" one_variant = Some (concat one_variant) /\
  aggregate "partial" one_variant = aggregate "none" one_variant /\
  aggregate "full" one_variant = aggregate "none" one_variant /\
  evaluate_preds [1%nat; 0%nat] one_variant "partial"
  = evaluate_preds [1%nat; 0%nat] one_variant "none" /\
  evaluate_preds [1%nat; 0%nat] one_variant "full"
  = evaluate_preds [1%nat; 0%nat] one_variant "none" /\
  (length [1%nat; 0%nat] = length one_variant ->
   evaluate_preds [1%nat; 0%nat] one_variant "none"
   = Some (score (concat one_variant) [1%nat; 0%nat])).
Proof.
  apply (@single_variant_modes_agree [1%nat; 0%nat] one_variant).
  - repeat constructor.
  - unfold probabilities, one_variant. repeat constructor; lra.
Defined.

End MetricsFacts.


(** ** The eigen path of [apply_to_layer] over the streaming statistics *)

Section EigenPathFacts.
Import Vec Py Train Accumulator.

(** The fitter that [fit_streaming] consumes in a returning run of the eigen
    path has been updated once per training dataset, in the order of
    [train_dict]. *)
Lemma eigen_path_fitter {C : Collaborators}
    (self : Elicit Hyper) layer devices world_size w res w' :
  family (net self) = EigenFitterConfig ->
  apply_to_layer self layer devices world_size w = (Ok res, w') ->
  exists first v k d fitted,
    validate (train_dict_of self layer devices world_size) = Ok (first, (v, k, d)) /\
    In (FitStreaming
          (fold_left eigen_update
             (map hiddens (values (train_dict_of self layer devices world_size)))
             (eigen_new (hyper (net self)) d k v (get_device devices world_size)))
          fitted)
       (log w').
Proof.
  intros Hfam. rewrite apply_to_layer_run.
  set (td := train_dict_of self layer devices world_size).
  set (w2 := mkWorld _ _).
  destruct (validate td) as [[first [[v k] d]]|e] eqn:Hv;
    [|rewrite fit_and_evaluate_invalid with (e := e) by exact Hv; discriminate].
  destruct (assert_path (out_dir self)) as [out|e] eqn:Hp;
    [|erewrite fit_and_evaluate_no_path; [discriminate|exact Hv|exact Hp]].
  erewrite fit_and_evaluate_checked; [|exact Hv|exact Hp].
  unfold bind at 1.
  destruct (fit _ _ _ _ _ _ _ _) as [[[rep loss]|e] w3] eqn:Hfit; [|discriminate].
  unfold fit in Hfit. rewrite Hfam in Hfit.
  apply fit_eigen_ok in Hfit as (fitted & Hlog3 & _).
  intros Hrest.
  assert (Hext : exists evs, log w' = log w3 ++ evs).
  { revert Hrest. apply extends_bind; [apply extends_emit|]. intros _.
    apply extends_bind; [apply extends_supervised_models|]. intros ms.
    apply extends_eval_loop. }
  destruct Hext as [evs Hlog].
  exists first, v, k, d, fitted. split; [reflexivity|].
  rewrite Hlog, Hlog3. unfold values. rewrite map_map.
  apply in_or_app. left. apply in_or_app. right. apply in_or_app. right.
  left. reflexivity.
Qed.

(** With the streaming statistics as the fitter, what [fit_streaming]
    consumes are the statistics of a single [update] on the whole of the
    training data, however the datasets cut it up. *)
Lemma eigen_path_statistics (C : Collaborators)
    (solve : Stats -> @Rng C -> Reporter (@Params C) * @Rng C)
    (self : Elicit (@Hyper C)) layer devices world_size w res w' :
  family (net self) = EigenFitterConfig ->
  @apply_to_layer (with_accumulator C solve) self layer devices world_size w
  = (Ok res, w') ->
  exists first v k d fitted,
    validate (@train_dict_of C self layer devices world_size)
    = Ok (first, (v, k, d)) /\
    forall whole,
      well_shaped (k * d) (rows whole) ->
      Permutation
        (flat_map rows
           (map hiddens (values (@train_dict_of C self layer devices world_size))))
        (rows whole) ->
      In (@FitStreaming (with_accumulator C solve) (update (init (k * d)) whole) fitted)
         (log w').
Proof.
  intros Hfam Hrun.
  destruct (@eigen_path_fitter (with_accumulator C solve) _ _ _ _ _ _ _ Hfam Hrun)
    as (first & v & k & d & fitted & Hv & Hin).
  exists first, v, k, d, fitted. split; [exact Hv|].
  intros whole Hshape Hperm.
  rewrite (@update_whole _ whole Hshape), <- (@fold_update_whole _ _ whole Hshape Hperm).
  exact Hin.
Qed.

End EigenPathFacts.


(** ** [extraction.py]: layers, shares of work, truncation *)

Section ExtractionFacts.
Import Py Extraction.
Local Open Scope list_scope.
Local Open Scope Z_scope.

Lemma range_len_spec start stop step i :
  0 < step ->
  (i < range_len start stop step)%nat <-> start + Z.of_nat i * step < stop.
Proof.
  intros Hstep. unfold range_len.
  destruct (stop <=? start) eqn:Hle.
  - apply Z.leb_le in Hle. split; [lia | nia].
  - apply Z.leb_gt in Hle.
    assert (Hq : 0 <= (stop - start - 1) / step) by (apply Z.div_pos; lia).
    rewrite Nat2Z.inj_lt, Z2Nat.id by lia.
    split; intros H.
    + assert (Z.of_nat i <= (stop - start - 1) / step) by lia.
      assert (Z.of_nat i * step <= stop - start - 1).
      { transitivity ((stop - start - 1) / step * step); [nia|].
        rewrite Z.mul_comm. apply Z.mul_div_le. lia. }
      lia.
    + assert (Z.of_nat i <= (stop - start - 1) / step); [|lia].
      apply Z.div_le_lower_bound; lia.
Qed.

Lemma in_py_range start stop step l :
  0 < step ->
  In l (py_range start stop step) <->
  start <= l < stop /\ (l - start) mod step = 0.
Proof.
  intros Hstep. unfold py_range. rewrite in_map_iff. split.
  - intros (i & <- & Hi). apply in_seq in Hi.
    assert (Hlt : (i < range_len start stop step)%nat) by lia.
    apply (range_len_spec start stop i Hstep) in Hlt.
    split; [nia|].
    replace (start + Z.of_nat i * step - start) with (Z.of_nat i * step) by lia.
    apply Z_mod_mult.
  - intros [[Hlo Hhi] Hmod].
    apply Z_div_exact_full_2 in Hmod; [|lia].
    assert (Hq : 0 <= (l - start) / step) by (apply Z.div_pos; lia).
    exists (Z.to_nat ((l - start) / step)).
    rewrite Z2Nat.id by exact Hq. split; [lia|].
    apply in_seq. split; [lia|]. cbn.
    apply (range_len_spec start stop _ Hstep). rewrite Z2Nat.id by exact Hq. lia.
Qed.

Lemma py_range_sorted start stop step :
  0 < step -> StronglySorted Z.lt (py_range start stop step).
Proof.
  intros Hstep. unfold py_range.
  generalize (range_len start stop step) as n. generalize 0%nat as a.
  intros a n. revert a. induction n as [|n IH]; intros a; cbn [seq map];
    constructor; [apply IH|].
  apply Forall_forall. intros l (i & <- & Hi)%in_map_iff.
  apply in_seq in Hi. nia.
Qed.

(** X1: with no layers given and a stride above 1, [__post_init__] selects
    the embedding layer 0 and, of the layers 1 .. num_hidden_layers, those at
    distance a multiple of the stride from layer 1, in increasing order; with
    layers given as well it raises. *)
Theorem post_init_layers {P} (num_hidden_layers : string -> Z)
    (self : Extract P) (layer_stride : Z) :
  1 < layer_stride ->
  (layers self <> [] ->
   post_init num_hidden_layers self layer_stride = Raise both_given) /\
  (layers self = [] ->
   exists cfg,
     post_init num_hidden_layers self layer_stride = Ok cfg /\
     model cfg = model self /\
     (forall l, In l (layers cfg) <->
                l = 0 \/ (1 <= l <= num_hidden_layers (model self) /\
                          (l - 1) mod layer_stride = 0)) /\
     StronglySorted Z.lt (layers cfg)).
Proof.
  intros Hstride. apply Z.ltb_lt in Hstride as Hb. unfold post_init. split.
  - destruct (layers self); [congruence|]. now rewrite Hb.
  - intros ->. rewrite Hb. eexists. split; [reflexivity|]. cbn [model layers].
    split; [reflexivity|]. split.
    + intros l. cbn [In]. rewrite in_py_range by lia.
      split; intros [H | H]; auto; right; (split; [lia | apply H]).
    + constructor; [apply py_range_sorted; lia|].
      apply Forall_forall. intros l Hl. apply in_py_range in Hl; lia.
Qed.

Lemma post_init_layers_witness :
  exists cfg,
    post_init (fun _ => 5) (mkExtract tt "gpt2"%string [] "last"%string false) 2
    = Ok cfg /\ layers cfg = [0; 1; 3; 5].
Proof.
  destruct (proj2 (@post_init_layers unit (fun _ => 5)
                     (mkExtract tt "gpt2"%string [] "last"%string false) 2
                     ltac:(lia)) eq_refl)
    as (cfg & Hrun & _).
  exists cfg. split; [exact Hrun|].
  cbv in Hrun. injection Hrun as <-. reflexivity.
Defined.

(** X2: without configured layers, [extract_hiddens] extracts every layer
    from the embedding layer 0 to num_hidden_layers, each once, in order;
    configured layers are used as they are. *)
Theorem layer_indices_default (cfg_layers : list Z) (num_hidden_layers : Z) :
  (cfg_layers <> [] -> layer_indices cfg_layers num_hidden_layers = cfg_layers) /\
  (cfg_layers = [] ->
   (forall l, In l (layer_indices cfg_layers num_hidden_layers) <->
              0 <= l <= num_hidden_layers) /\
   StronglySorted Z.lt (layer_indices cfg_layers num_hidden_layers)).
Proof.
  split.
  - destruct cfg_layers; [congruence | reflexivity].
  - intros ->. cbn [layer_indices]. split; [|apply py_range_sorted; lia].
    intros l. rewrite in_py_range by lia.
    rewrite Z.mod_1_r. lia.
Qed.

Lemma layer_indices_default_witness :
  layer_indices [2; 4] 12 = [2; 4] /\
  forall l, In l (layer_indices [] 12) <-> 0 <= l <= 12.
Proof.
  split.
  - apply (proj1 (layer_indices_default [2; 4] 12)). discriminate.
  - apply (proj2 (layer_indices_default [] 12) eq_refl).
Defined.

Lemma taken_below g ws (n : nat) :
  0 < ws -> Z.of_nat n <= ws - 1 ->
  fold_right Z.add 0
    (map (fun rank => match max_examples g ws rank with
                      | Some m => m
                      | None => 0
                      end)
         (map Z.of_nat (seq 0 n)))
  = Z.of_nat n * (g / ws).
Proof.
  intros Hws. induction n as [|n IH]; intros Hn; [reflexivity|].
  rewrite seq_S, !map_app, fold_right_app. cbn [map fold_right Nat.add].
  unfold max_examples at 1.
  replace (ws =? 0) with false by (symmetry; apply Z.eqb_neq; lia).
  replace (Z.of_nat n =? ws - 1) with false by (symmetry; apply Z.eqb_neq; lia).
  rewrite Z.add_0_r.
  assert (Hshift : forall l a,
             fold_right Z.add a l = fold_right Z.add 0 l + a).
  { induction l as [|x l IHl]; intros a; cbn; [lia | rewrite IHl; lia]. }
  rewrite Hshift, IH by lia. lia.
Qed.

(** X3: the shares of [max_examples] that the processes 0 .. world_size - 1
    take add up to the global number exactly: every process takes the
    quotient, and the last one, rank world_size - 1, the remainder on top.
    So all shares differ from the quotient by less than world_size. *)
Theorem shares_add_up (global_max_examples world_size : Z) :
  0 < world_size ->
  taken global_max_examples world_size = global_max_examples /\
  forall rank, 0 <= rank < world_size ->
    let share :=
      global_max_examples / world_size
      + (if rank =? world_size - 1 then global_max_examples mod world_size else 0) in
    max_examples global_max_examples world_size rank = Some share /\
    global_max_examples / world_size <= share
    < global_max_examples / world_size + world_size.
Proof.
  intros Hws. split.
  - unfold taken, ranks.
    destruct (Z.to_nat world_size) as [|n] eqn:Hn; [lia|].
    rewrite seq_S, !map_app, fold_right_app. cbn [map fold_right Nat.add].
    unfold max_examples at 1.
    replace (world_size =? 0) with false by (symmetry; apply Z.eqb_neq; lia).
    replace (Z.of_nat n =? world_size - 1) with true
      by (symmetry; apply Z.eqb_eq; lia).
    rewrite Z.add_0_r.
    assert (Hshift : forall l a,
               fold_right Z.add a l = fold_right Z.add 0 l + a).
    { induction l as [|x l IHl]; intros a; cbn; [lia | rewrite IHl; lia]. }
    rewrite Hshift, taken_below by lia.
    pose proof (Z.div_mod global_max_examples world_size ltac:(lia)).
    replace (Z.of_nat n) with (world_size - 1) by lia. nia.
  - intros rank Hrank share. subst share. unfold max_examples.
    replace (world_size =? 0) with false by (symmetry; apply Z.eqb_neq; lia).
    pose proof (Z.mod_pos_bound global_max_examples world_size Hws).
    destruct (rank =? world_size - 1); (split; [f_equal; lia | lia]).
Qed.

Lemma shares_add_up_witness :
  taken 10 4 = 10 /\
  max_examples 10 4 0 = Some 2 /\ max_examples 10 4 3 = Some 4.
Proof.
  destruct (@shares_add_up 10 4) as [Hsum Hshare]; [lia|].
  split; [exact Hsum|]. split.
  - apply (Hshare 0). lia.
  - apply (Hshare 3). lia.
Defined.

Lemma slice_from_last {A} (k : Z) (xs : list A) :
  0 < k <= Z.of_nat (length xs) ->
  slice_from (- k) xs = skipn (length xs - Z.to_nat k) xs.
Proof.
  intros Hk. unfold slice_from.
  replace (- k <? 0) with true by (symmetry; apply Z.ltb_lt; lia).
  f_equal. lia.
Qed.

(** X4: with a maximal length in force, the joined question and answer are
    cut from the left to their last min(length, maximal length) tokens; so
    an answer that fits the maximal length is always kept whole, at the end.
    Without a maximal length nothing is cut. *)
Theorem truncation_keeps_the_end (input_ids answer : list Z) (model_max_length : Z) :
  0 < model_max_length ->
  let out := join_and_truncate input_ids answer model_max_length in
  Z.of_nat (length out)
  = Z.min (Z.of_nat (length (input_ids ++ answer))) model_max_length /\
  (exists dropped, input_ids ++ answer = dropped ++ out) /\
  (Z.of_nat (length answer) <= model_max_length ->
   exists kept, out = kept ++ answer /\
                exists dropped, input_ids = dropped ++ kept) /\
  join_and_truncate input_ids answer 0 = input_ids ++ answer.
Proof.
  intros Hmax out. subst out. unfold join_and_truncate.
  replace (model_max_length =? 0) with false by (symmetry; apply Z.eqb_neq; lia).
  cbn [Z.eqb].
  set (xs := input_ids ++ answer).
  set (k := Z.min (Z.of_nat (length xs)) model_max_length).
  assert (Hout : slice_from (- k) xs = skipn (length xs - Z.to_nat k) xs).
  { destruct (Z.eq_dec k 0) as [Hk0 | Hk0].
    - assert (Hnil : xs = []) by (destruct xs; [reflexivity | cbn in k; lia]).
      rewrite Hnil. unfold slice_from. now rewrite !skipn_nil.
    - apply slice_from_last. lia. }
  rewrite Hout. refine (conj _ (conj _ (conj _ eq_refl))).
  - rewrite length_skipn. lia.
  - exists (firstn (length xs - Z.to_nat k) xs). symmetry. apply firstn_skipn.
  - intros Hfit. unfold xs. rewrite length_app in *.
    assert (Hle : (length (input_ids ++ answer) - Z.to_nat k <= length input_ids)%nat)
      by (rewrite length_app; unfold k, xs; rewrite length_app; lia).
    rewrite length_app in Hle.
    rewrite skipn_app.
    replace (length input_ids + length answer - Z.to_nat k - length input_ids)%nat
      with 0%nat by lia.
    cbn [skipn]. eexists. split; [reflexivity|].
    eexists. symmetry. apply firstn_skipn.
Qed.

Lemma truncation_keeps_the_end_witness :
  let out := join_and_truncate [11; 12; 13; 14] [21; 22] 3 in
  Z.of_nat (length out) = Z.min (Z.of_nat (length ([11; 12; 13; 14] ++ [21; 22]))) 3 /\
  (exists dropped, [11; 12; 13; 14] ++ [21; 22] = dropped ++ out) /\
  (Z.of_nat (length [21; 22]) <= 3 ->
   exists kept, out = kept ++ [21; 22] /\
                exists dropped, [11; 12; 13; 14] = dropped ++ kept) /\
  join_and_truncate [11; 12; 13; 14] [21; 22] 0 = [11; 12; 13; 14] ++ [21; 22].
Proof. apply (@truncation_keeps_the_end [11; 12; 13; 14] [21; 22] 3). lia. Defined.

End ExtractionFacts.


(** ** [train.py]: checkpoint files *)

Section FileFacts.
Import Py Train.
Local Open Scope string_scope.

Lemma append_cancel_l (s x y : string) : s ++ x = s ++ y -> x = y.
Proof. induction s as [|c s IH]; cbn; [auto | intros [= H]; auto]. Qed.

Lemma append_assoc (x y z : string) : (x ++ y) ++ z = x ++ (y ++ z).
Proof. induction x as [|c x IH]; cbn; [reflexivity | now rewrite IH]. Qed.

Lemma length_append (x y : string) :
  String.length (x ++ y) = (String.length x + String.length y)%nat.
Proof. induction x as [|c x IH]; cbn; [reflexivity | now rewrite IH]. Qed.

Lemma append_cancel_r (t x y : string) : x ++ t = y ++ t -> x = y.
Proof.
  intros H.
  assert (Hlen : String.length x = String.length y).
  { apply (f_equal String.length) in H. rewrite !length_append in H. lia. }
  revert y H Hlen. induction x as [|c x IH]; intros [|c' y] H Hlen;
    try discriminate; [reflexivity|].
  cbn in H. injection H as -> H. f_equal. apply IH; [assumption|].
  cbn in Hlen. lia.
Qed.

Lemma to_int_not_nil z :
  Z.to_int z <> Decimal.Pos Decimal.Nil /\ Z.to_int z <> Decimal.Neg Decimal.Nil.
Proof.
  destruct z as [|p|p]; cbn; split; try discriminate;
    intros [= H]; exact (DecimalPos.Unsigned.to_uint_nonnil p H).
Qed.

Lemma str_of_int_inj a b : str_of_int a = str_of_int b -> a = b.
Proof.
  unfold str_of_int. intros H.
  apply (f_equal NilZero.int_of_string) in H.
  destruct (to_int_not_nil a) as [Ha1 Ha2], (to_int_not_nil b) as [Hb1 Hb2].
  rewrite !NilZero.isi in H by assumption.
  injection H as H. apply (f_equal Z.of_int) in H.
  now rewrite !DecimalZ.of_to in H.
Qed.

(** X5: one checkpoint file per layer: under one output directory, two
    different layers never share a reporter file nor a file of supervised
    models, and a reporter file is never a file of supervised models. *)
Theorem layer_files_distinct (out : string) (a b : Z) :
  (layer_file (out ++ "/reporters") a = layer_file (out ++ "/reporters") b -> a = b) /\
  layer_file (out ++ "/reporters") a <> layer_file (out ++ "/lr_models") b.
Proof.
  unfold layer_file. split.
  - intros H. apply append_cancel_l, append_cancel_l, append_cancel_r in H.
    now apply str_of_int_inj.
  - rewrite !append_assoc. intros H. apply append_cancel_l in H.
    discriminate.
Qed.

End FileFacts.

(** ** [train.py]: what a run logs, phase by phase *)

Section EmitsFacts.
Import Py Train Runs.
Context {C : Collaborators}.

Lemma emits_ret {A} P (a : A) : emits P (ret a).
Proof. intros w res w' [= <- <-]. exists []. now rewrite app_nil_r. Qed.

Lemma emits_raise {A} P e : emits P (@raise World A e).
Proof. intros w res w' [= <- <-]. exists []. now rewrite app_nil_r. Qed.

Lemma emits_lift {A} P (r : Result A) : emits P (lift r).
Proof. intros w res w' [= <- <-]. exists []. now rewrite app_nil_r. Qed.

Lemma emits_emit (P : Event -> Prop) ev : P ev -> emits P (emit ev).
Proof. intros Hev w res w' [= <- <-]. exists [ev]. split; [reflexivity | now constructor]. Qed.

Lemma emits_with_rng {A} P (f : Rng -> A * Rng) : emits P (with_rng f).
Proof. intros w res w' [= <- <-]. exists []. cbn. now rewrite app_nil_r. Qed.

Lemma emits_bind {A B} P (c : M World A) (k : A -> M World B) :
  emits P c -> (forall a, emits P (k a)) -> emits P (bind c k).
Proof.
  intros Hc Hk w res w'. unfold bind.
  destruct (c w) as [[a|e] w1] eqn:Hrun.
  - intros Hrest. destruct (Hc _ _ _ Hrun) as (evs1 & H1 & HP1).
    destruct (Hk a _ _ _ Hrest) as (evs2 & H2 & HP2).
    exists (evs1 ++ evs2). split; [now rewrite H2, H1, app_assoc|].
    apply Forall_app. now split.
  - intros [= <- <-]. eapply Hc; eassumption.
Qed.

Lemma emits_weaken {A} (P Q : Event -> Prop) (c : M World A) :
  (forall ev, P ev -> Q ev) -> emits P c -> emits Q c.
Proof.
  intros HPQ Hc w res w' Hrun. destruct (Hc _ _ _ Hrun) as (evs & Hlog & HP).
  exists evs. split; [assumption|]. eapply Forall_impl; eassumption.
Qed.

End EmitsFacts.

Ltac emitting :=
  repeat first
    [ apply emits_bind; [|intros ?]
    | apply emits_ret | apply emits_raise | apply emits_lift
    | apply emits_with_rng
    | apply emits_emit; solve [exact I | reflexivity | cbn; auto]
    | match goal with
      | |- Runs.emits _ (if ?b then _ else _) => destruct b
      | |- Runs.emits _ (let '(_, _) := ?p in _) => destruct p
      | |- Runs.emits _ (match ?x with _ => _ end) => destruct x
      end ].

Section PhaseFacts.
Import Py Train Runs.
Context {C : Collaborators}.

(** Fitting logs only fitting and calibration. *)
Lemma emits_eigen_loop items k st :
  emits (fun ev => fitting ev = true) (eigen_loop items k st).
Proof.
  revert st. induction items as [|[name b] items IH]; intros [[f hl] ll];
    cbn [eigen_loop]; [emitting|].
  apply emits_bind; [emitting|]. intros [[[n v] k'] d].
  apply emits_bind; [emitting|]. intros h.
  apply emits_bind; [emitting|]. intros l.
  apply emits_bind; [emitting|]. intros _. apply IH.
Qed.

Lemma emits_fit cfg device td first v k d :
  emits (fun ev => fitting ev = true) (fit cfg device td first v k d).
Proof.
  unfold fit. destruct (family cfg); [| |emitting].
  - unfold fit_ccs. emitting.
  - unfold fit_eigen. apply emits_bind; [apply emits_eigen_loop|].
    intros [[f hl] ll]. emitting.
Qed.

Lemma emits_eval_loop (self : Elicit Hyper) layer loss rep ms vd td names st :
  emits (fun ev => exists n, ev = Evaluate n rep)
        (eval_loop self layer loss rep ms vd td names st).
Proof.
  intros w res w' Hrun. apply eval_loop_log in Hrun as [seen Hlog].
  eexists. split; [exact Hlog|].
  apply Forall_forall. intros ev (n & <- & _)%in_map_iff. eauto.
Qed.

Lemma emits_supervised_models (self : Elicit Hyper) layer device lr_dir td :
  emits supervised_event (supervised_models self layer device lr_dir td).
Proof. unfold supervised_models. emitting. Qed.

Lemma emits_no_supervised (self : Elicit Hyper) layer device lr_dir td :
  supervised self = "none"%string ->
  supervised_models self layer device lr_dir td = ret [].
Proof. intros Hs. unfold supervised_models. now rewrite Hs. Qed.

End PhaseFacts.

(** ** [apply_to_layer]: seeding *)

Section SeedingFacts.
Import Py Train Runs.
Context {C : Collaborators}.
Local Open Scope list_scope.

Lemma emits_fit_and_evaluate_unseeded (self : Elicit Hyper) layer device td vd :
  emits (fun ev => forall s, ev <> MakeReproducible s)
        (fit_and_evaluate self layer device td vd).
Proof.
  unfold fit_and_evaluate.
  apply emits_bind; [emitting|]. intros [first [[v k] d]].
  apply emits_bind; [emitting|]. intros out.
  apply emits_bind.
  { unfold create_models_dir.
    apply emits_bind; [apply emits_emit; intros s; discriminate|].
    intros _. apply emits_ret. }
  intros dirs.
  apply emits_bind.
  { eapply emits_weaken; [|apply emits_fit].
    intros ev Hev s ->. discriminate. }
  intros fitted.
  apply emits_bind; [apply emits_emit; intros s; discriminate|]. intros _.
  apply emits_bind.
  { eapply emits_weaken; [|apply emits_supervised_models].
    intros ev Hev s ->. exact Hev. }
  intros ms.
  eapply emits_weaken; [|apply emits_eval_loop].
  intros ev [n ->] s. discriminate.
Qed.

(** X27: whatever its outcome, [apply_to_layer] begins by calling
    [make_reproducible] with the configured seed plus the layer index, and
    does not call it again. *)
Theorem seeding_comes_first
    (self : Elicit Hyper) (layer : Z) (devices : list string) (world_size : Z)
    (w : World) :
  exists later,
    log (snd (apply_to_layer self layer devices world_size w))
    = log w ++ MakeReproducible (seed (net self) + layer) :: later /\
    Forall (fun ev => forall s, ev <> MakeReproducible s) later.
Proof.
  rewrite apply_to_layer_run.
  match goal with |- context [fit_and_evaluate ?s ?l ?dv ?td ?vd ?w0] =>
    destruct (fit_and_evaluate s l dv td vd w0) as [res w'] eqn:Hrun
  end.
  apply emits_fit_and_evaluate_unseeded in Hrun as (evs & Hlog & Hevs).
  cbn [snd log] in *. rewrite Hlog. unfold preparation.
  rewrite <- app_assoc. cbn [app].
  eexists. split; [reflexivity|].
  repeat (constructor; [intros s; discriminate|]). exact Hevs.
Qed.

End SeedingFacts.

(** ** [train.py]: the tables of a returning run *)

Section RunFacts.
Import Py Train Runs.
Context {C : Collaborators}.
Local Open Scope string_scope.
Local Open Scope list_scope.

Lemma getitem_ok {V} (d : dict V) k v : getitem d k = Ok v <-> lookup d k = Some v.
Proof.
  unfold getitem. destruct (lookup d k); split; intros H; try discriminate;
    now injection H as ->.
Qed.

(** A returning run went through every phase. *)
Lemma apply_to_layer_ok_inv (self : Elicit Hyper) layer devices world_size w res w' :
  apply_to_layer self layer devices world_size w = (Ok res, w') ->
  let device := get_device devices world_size in
  let td := train_dict_of self layer devices world_size in
  let vd := val_dict_of self layer devices world_size in
  exists first v k d out rep loss ms w3 w5,
    validate td = Ok (first, (v, k, d)) /\
    assert_path (out_dir self) = Ok out /\
    fit (net self) device td first v k d
        (mkWorld (rng_after_val self layer devices world_size)
                 ((log w ++ preparation self layer) ++ [CreateModelsDir out]))
    = (Ok (rep, loss), w3) /\
    supervised_models self layer device (out ++ "/lr_models") td
        (mkWorld (rng w3)
                 (log w3 ++ [SaveReporter (layer_file (out ++ "/reporters") layer) rep]))
    = (Ok ms, w5) /\
    eval_loop self layer loss rep ms vd td (keys vd) ([], []) w5 = (Ok res, w').
Proof.
  rewrite apply_to_layer_run. intros Hrun device td vd. revert Hrun.
  fold td vd device.
  destruct (validate td) as [[first [[v k] d]]|e] eqn:Hv;
    [|rewrite fit_and_evaluate_invalid with (e := e) by exact Hv; discriminate].
  destruct (assert_path (out_dir self)) as [out|e] eqn:Hp;
    [|erewrite fit_and_evaluate_no_path; [discriminate|exact Hv|exact Hp]].
  erewrite fit_and_evaluate_checked; [|exact Hv|exact Hp].
  unfold bind at 1. cbn [rng log].
  destruct (fit _ _ _ _ _ _ _ _) as [[[rep loss]|e] w3] eqn:Hfit; [|discriminate].
  cbn [fst snd]. unfold bind at 1. unfold emit at 1. unfold bind at 1.
  destruct (supervised_models _ _ _ _ _ _) as [[ms|e] w5] eqn:Hsup; [|discriminate].
  intros Heval.
  exists first, v, k, d, out, rep, loss, ms, w3, w5. repeat split; assumption.
Qed.

(** The rows a dataset adds, by table, read off their keys. *)
Lemma eval_loop_ok (self : Elicit Hyper) layer loss rep ms vd td names st w st' w' :
  eval_loop self layer loss rep ms vd td names st w = (Ok st', w') ->
  (forall name, In name names ->
                exists val train, lookup vd name = Some val /\ lookup td name = Some train) /\
  map keyed (table (fst st') "eval")
  = map keyed (table (fst st) "eval") ++ flat_map three_modes names /\
  map keyed (table (fst st') "train_eval")
  = map keyed (table (fst st) "train_eval") ++ flat_map three_modes names /\
  map keyed (table (fst st') "lm_eval")
  = map keyed (table (fst st) "lm_eval") ++ flat_map (lm_modes vd) names /\
  map keyed (table (fst st') "train_lm_eval")
  = map keyed (table (fst st) "train_lm_eval") ++ flat_map (lm_modes td) names.
Proof.
  revert st w. induction names as [|name names IH]; intros st w; cbn [eval_loop].
  - unfold ret. intros [= <- <-]. cbn [flat_map]. rewrite !app_nil_r.
    repeat split. intros name [].
  - unfold bind at 1. unfold lift at 1.
    destruct (getitem vd name) as [val|e] eqn:Hval; [|discriminate].
    unfold bind at 1. unfold lift at 1.
    destruct (getitem td name) as [train|e] eqn:Htrain; [|discriminate].
    unfold bind at 1. unfold emit at 1.
    intros Hrest. apply IH in Hrest as (Hin & He & Ht & Hl & Htl).
    apply getitem_ok in Hval, Htrain.
    rewrite He, Ht, Hl, Htl.
    rewrite eval_dataset_eval, eval_dataset_train_eval,
      eval_dataset_lm_eval, eval_dataset_train_lm_eval.
    assert (Hlv : lm_modes vd name
                  = match lm_preds val with Some _ => three_modes name | None => [] end)
      by (unfold lm_modes; now rewrite Hval).
    assert (Hlt : lm_modes td name
                  = match lm_preds train with Some _ => three_modes name | None => [] end)
      by (unfold lm_modes; now rewrite Htrain).
    cbn [flat_map]. rewrite Hlv, Hlt.
    rewrite !map_app, <- !app_assoc.
    split.
    { intros n [<- | Hn]; [now exists val, train | now apply Hin]. }
    repeat split; try reflexivity.
    + destruct (lm_preds val); reflexivity.
    + destruct (lm_preds train); reflexivity.
Qed.

Lemma lr_loop_lr_eval (self : Elicit Hyper) layer name val train mode ims st :
  table (row_bufs (fold_left (lr_step self layer name val train mode) ims st)) "lr_eval"
  = table (row_bufs st) "lr_eval"
    ++ map (fun im => mkRow name layer mode (Some (fst im))
                        (evaluate_preds (labels val) (lr_forward (snd im) (hiddens val)) mode)
                        None) ims /\
  table (row_bufs (fold_left (lr_step self layer name val train mode) ims st)) "train_lr_eval"
  = table (row_bufs st) "train_lr_eval"
    ++ map (fun im => mkRow name layer mode (Some (fst im))
                        (evaluate_preds (labels train) (lr_forward (snd im) (hiddens train)) mode)
                        None) ims.
Proof.
  revert st. induction ims as [|im ims IH]; intros st; cbn [fold_left map].
  - now rewrite !app_nil_r.
  - destruct (IH (lr_step self layer name val train mode st im)) as [-> ->].
    unfold lr_step. cbn [row_bufs fst snd].
    rewrite table_append_other by discriminate.
    rewrite table_append_same, table_append_same.
    rewrite table_append_other by discriminate.
    now rewrite <- !app_assoc.
Qed.

Lemma mode_step_lr_eval (self : Elicit Hyper) layer loss name val train ms st mode :
  table (row_bufs (mode_step self layer loss name val train ms st mode)) "lr_eval"
  = table (row_bufs st) "lr_eval" ++ lr_rows layer ms name val mode /\
  table (row_bufs (mode_step self layer loss name val train ms st mode)) "train_lr_eval"
  = table (row_bufs st) "train_lr_eval" ++ lr_rows layer ms name train mode.
Proof.
  unfold mode_step.
  match goal with |- context [fold_left ?f ?l ?s] =>
    destruct (lr_loop_lr_eval self layer name val train mode l s) as [-> ->]
  end.
  cbn [row_bufs].
  destruct (lm_preds train), (lm_preds val);
    rewrite !table_append_other by discriminate; split; reflexivity.
Qed.

Lemma eval_dataset_lr_eval (self : Elicit Hyper) layer loss name val train rep ms bufs out :
  table (fst (eval_dataset self layer loss name val train rep ms bufs out)) "lr_eval"
  = table bufs "lr_eval" ++ flat_map (lr_rows layer ms name val) modes /\
  table (fst (eval_dataset self layer loss name val train rep ms bufs out)) "train_lr_eval"
  = table bufs "train_lr_eval" ++ flat_map (lr_rows layer ms name train) modes.
Proof.
  unfold eval_dataset, modes. cbn [fold_left fst flat_map].
  repeat match goal with |- context [mode_step ?s ?l ?lo ?n ?v ?t ?m ?st ?mo] =>
    destruct (mode_step_lr_eval s l lo n v t m st mo) as [-> ->]
  end.
  cbn [row_bufs]. rewrite !app_nil_r, <- !app_assoc. split; reflexivity.
Qed.

Lemma eval_loop_lr_eval (self : Elicit Hyper) layer loss rep ms vd td names st w st' w' :
  eval_loop self layer loss rep ms vd td names st w = (Ok st', w') ->
  table (fst st') "lr_eval"
  = table (fst st) "lr_eval" ++ flat_map (lr_rows_of layer ms vd) names /\
  table (fst st') "train_lr_eval"
  = table (fst st) "train_lr_eval" ++ flat_map (lr_rows_of layer ms td) names.
Proof.
  revert st w. induction names as [|name names IH]; intros st w; cbn [eval_loop].
  - unfold ret. intros [= <- <-]. cbn [flat_map]. now rewrite !app_nil_r.
  - unfold bind at 1. unfold lift at 1.
    destruct (getitem vd name) as [val|e] eqn:Hval; [|discriminate].
    unfold bind at 1. unfold lift at 1.
    destruct (getitem td name) as [train|e] eqn:Htrain; [|discriminate].
    unfold bind at 1. unfold emit at 1.
    intros Hrest. apply IH in Hrest as (-> & ->).
    apply getitem_ok in Hval, Htrain.
    destruct (eval_dataset_lr_eval self layer loss name val train rep ms (fst st) (snd st))
      as [-> ->].
    assert (Hv : lr_rows_of layer ms vd name = flat_map (lr_rows layer ms name val) modes)
      by (unfold lr_rows_of; now rewrite Hval).
    assert (Ht : lr_rows_of layer ms td name = flat_map (lr_rows layer ms name train) modes)
      by (unfold lr_rows_of; now rewrite Htrain).
    cbn [flat_map]. rewrite Hv, Ht.
    now rewrite <- !app_assoc.
Qed.

Lemma flat_map_lr_rows_of_nil layer (d : dict Bundle) names :
  flat_map (lr_rows_of layer [] d) names = [].
Proof.
  induction names as [|name names IH]; [reflexivity|].
  cbn [flat_map]. rewrite IH, app_nil_r.
  unfold lr_rows_of. now destruct (lookup d name).
Qed.

Lemma supervised_models_ok (self : Elicit Hyper) layer device lr_dir td w ms w' :
  supervised_models self layer device lr_dir td w = (Ok ms, w') ->
  (supervised self = "none" -> ms = []) /\
  (supervised self <> "none" ->
   ms = fst (train_supervised td device (supervised self) (rng w))).
Proof.
  unfold supervised_models.
  destruct (String.eqb_spec (supervised self) "none") as [Heq|Hne]; cbn [negb].
  - unfold ret. intros [= <- <-]. split; [reflexivity|]. intros Hne. now elim Hne.
  - intros Hrun. split; [intros Heq; now elim Hne|]. intros _.
    revert Hrun. unfold bind, emit, with_rng, ret. cbn [rng log].
    now intros [= <- <-].
Qed.

Lemma eval_loop_results (self : Elicit Hyper) layer loss rep ms vd td names st w st' w' :
  eval_loop self layer loss rep ms vd td names st w = (Ok st', w') ->
  map result (table (fst st') "eval")
  = map result (table (fst st) "eval") ++ flat_map (eval_results rep ms vd) names /\
  (Forall (fun r => train_loss r = Some loss /\ layer_of r = layer)
          (table (fst st) "eval" ++ table (fst st) "train_eval") ->
   Forall (fun r => train_loss r = Some loss /\ layer_of r = layer)
          (table (fst st') "eval" ++ table (fst st') "train_eval")).
Proof.
  revert st w. induction names as [|name names IH]; intros st w; cbn [eval_loop].
  - unfold ret. intros [= <- <-]. cbn [flat_map]. rewrite app_nil_r. auto.
  - unfold bind at 1. unfold lift at 1.
    destruct (getitem vd name) as [val|e] eqn:Hval; [|discriminate].
    unfold bind at 1. unfold lift at 1.
    destruct (getitem td name) as [train|e] eqn:Htrain; [|discriminate].
    unfold bind at 1. unfold emit at 1.
    intros Hrest. apply IH in Hrest as (Hres & Hrows).
    apply getitem_ok in Hval. split.
    + rewrite Hres, eval_dataset_eval. cbn [flat_map].
      unfold eval_results at 2. rewrite Hval.
      rewrite map_app, <- app_assoc. reflexivity.
    + intros Hold. apply Hrows.
      rewrite eval_dataset_eval, eval_dataset_train_eval.
      apply Forall_app in Hold as [He Ht].
      repeat (apply Forall_app; split); try assumption;
        repeat constructor.
Qed.

(** X6: the tables of a returning run.  For every dataset of [val_dict], in
    its order, "eval" and "train_eval" hold three rows, for the modes "none",
    "partial" and "full" in this order; "lm_eval" (resp. "train_lm_eval")
    holds three such rows for the datasets whose validation (resp. training)
    bundle has language-model predictions and none for the others.  Every
    dataset evaluated is in [train_dict]. *)
Theorem tables_of_returning_run
    (self : Elicit Hyper) (layer : Z) (devices : list string) (world_size : Z)
    (w w' : World) (res : dict (list Row) * dict Logprobs) :
  apply_to_layer self layer devices world_size w = (Ok res, w') ->
  let td := train_dict_of self layer devices world_size in
  let vd := val_dict_of self layer devices world_size in
  (forall name, In name (keys vd) -> exists train, lookup td name = Some train) /\
  map keyed (table (fst res) "eval") = flat_map three_modes (keys vd) /\
  map keyed (table (fst res) "train_eval") = flat_map three_modes (keys vd) /\
  map keyed (table (fst res) "lm_eval") = flat_map (lm_modes vd) (keys vd) /\
  map keyed (table (fst res) "train_lm_eval") = flat_map (lm_modes td) (keys vd).
Proof.
  intros Hrun td vd.
  destruct (apply_to_layer_ok_inv _ _ _ _ _ Hrun)
    as (first & v & k & d & out & rep & loss & ms & w3 & w5 & _ & _ & _ & _ & Heval).
  apply eval_loop_ok in Heval as (Hin & He & Ht & Hl & Htl).
  split; [|now repeat split].
  intros name Hname. destruct (Hin name Hname) as (val & train & _ & Htrain). eauto.
Qed.

(** X7: the [train_loss] column.  All "eval" and "train_eval" rows of a
    returning run carry the layer index and one and the same training loss:
    Python's [None] on the eigen path; on the CCS path the number that
    [CcsReporter.fit] returned for the hiddens of the first (and only)
    training dataset, on the reporter [CcsReporter(...)] just created. *)
Theorem train_loss_column
    (self : Elicit Hyper) (layer : Z) (devices : list string) (world_size : Z)
    (w w' : World) (res : dict (list Row) * dict Logprobs) :
  apply_to_layer self layer devices world_size w = (Ok res, w') ->
  let device := get_device devices world_size in
  let td := train_dict_of self layer devices world_size in
  exists loss,
    Forall (fun r => train_loss r = Some loss /\ layer_of r = layer)
           (table (fst res) "eval" ++ table (fst res) "train_eval") /\
    (family (net self) = EigenFitterConfig -> loss = None) /\
    (family (net self) = CcsConfig ->
     exists first v k d,
       validate td = Ok (first, (v, k, d)) /\
       let created := ccs_new (hyper (net self)) d device v
                        (rng_after_val self layer devices world_size) in
       loss = Some (snd (fst (ccs_fit (fst created) (hiddens first) (snd created))))).
Proof.
  intros Hrun device td.
  destruct (apply_to_layer_ok_inv _ _ _ _ _ Hrun)
    as (first & v & k & d & out & rep & loss & ms & w3 & w5 & Hv & _ & Hfit & _ & Heval).
  exists loss. split.
  - apply eval_loop_results in Heval as [_ Hrows]. apply Hrows. constructor.
  - unfold fit in Hfit. split; intros Hfam; rewrite Hfam in Hfit.
    + now apply fit_eigen_ok in Hfit as (_ & _ & _ & ->).
    + exists first, v, k, d. split; [exact Hv|].
      revert Hfit. unfold fit_ccs.
      destruct (Nat.eqb (length _) 1); cbn [negb]; [|discriminate].
      unfold bind, with_rng, emit, lift, ret. cbn [rng log].
      destruct (repeat_rows _ v) as [one_hot|e]; [|discriminate].
      now intros [= _ <- _].
Qed.

(** X8: with [supervised = "none"] no supervised model is trained or saved,
    the tables "lr_eval" and "train_lr_eval" stay empty, and each "eval" row
    of a returning run holds the metrics of the saved reporter's credences
    under the row's mode. *)
Theorem run_without_baseline
    (self : Elicit Hyper) (layer : Z) (devices : list string) (world_size : Z)
    (w w' : World) (res : dict (list Row) * dict Logprobs) :
  supervised self = "none" ->
  apply_to_layer self layer devices world_size w = (Ok res, w') ->
  let vd := val_dict_of self layer devices world_size in
  exists evs path rep,
    log w' = log w ++ evs /\
    Forall (fun ev => ~ supervised_event ev) evs /\
    In (SaveReporter path rep) evs /\
    table (fst res) "lr_eval" = [] /\
    table (fst res) "train_lr_eval" = [] /\
    map result (table (fst res) "eval")
    = flat_map (reporter_results rep vd) (keys vd).
Proof.
  intros Hnone Hrun vd.
  destruct (apply_to_layer_ok_inv _ _ _ _ _ Hrun)
    as (first & v & k & d & out & rep & loss & ms & w3 & w5
        & _ & _ & Hfit & Hsup & Heval).
  rewrite emits_no_supervised in Hsup by exact Hnone.
  injection Hsup as <- <-.
  destruct (@emits_fit C _ _ _ _ _ _ _ _ _ _ Hfit) as (fevs & Hlog3 & Hfevs).
  destruct (@emits_eval_loop C _ _ _ _ _ _ _ _ _ _ _ _ Heval) as (eevs & Hlog5 & Heevs).
  destruct (eval_loop_lr_eval _ _ _ _ _ _ _ _ _ _ Heval) as [Hlr Htlr].
  rewrite !flat_map_lr_rows_of_nil in *.
  apply eval_loop_results in Heval as [Hres _].
  cbn [log] in *.
  exists (preparation self layer ++ [CreateModelsDir out] ++ fevs
            ++ [SaveReporter (layer_file (out ++ "/reporters") layer) rep] ++ eevs).
  exists (layer_file (out ++ "/reporters") layer), rep.
  split; [rewrite Hlog5, Hlog3; now rewrite <- !app_assoc|].
  split.
  { repeat (apply Forall_app; split).
    - repeat constructor; intros [].
    - repeat constructor. intros [].
    - eapply Forall_impl; [|exact Hfevs]. intros [] Hf; try discriminate; intros [].
    - repeat constructor. intros [].
    - eapply Forall_impl; [|exact Heevs]. intros ev [n ->] []. }
  split.
  { apply in_or_app. right. apply in_or_app. right. apply in_or_app. right.
    now left. }
  split; [exact Hlr|]. split; [exact Htlr|].
  rewrite Hres. cbn [fst table lookup map app]. reflexivity.
Qed.

(** X9: the baseline's tables.  In a returning run the supervised models are
    those [train_supervised] returned on the training data (none when
    [supervised = "none"]); "lr_eval" holds, for every dataset of [val_dict]
    in its order, for each mode in the order "none", "partial", "full", one
    row per model, numbered by [inlp_iter] from 0 and scored on that model's
    credences for the validation hiddens; "train_lr_eval" the same on the
    training bundle of that dataset. *)
Theorem baseline_tables
    (self : Elicit Hyper) (layer : Z) (devices : list string) (world_size : Z)
    (w w' : World) (res : dict (list Row) * dict Logprobs) :
  apply_to_layer self layer devices world_size w = (Ok res, w') ->
  let device := get_device devices world_size in
  let td := train_dict_of self layer devices world_size in
  let vd := val_dict_of self layer devices world_size in
  exists ms,
    (supervised self = "none" -> ms = []) /\
    (supervised self <> "none" ->
     exists g, ms = fst (train_supervised td device (supervised self) g)) /\
    table (fst res) "lr_eval" = flat_map (lr_rows_of layer ms vd) (keys vd) /\
    table (fst res) "train_lr_eval" = flat_map (lr_rows_of layer ms td) (keys vd).
Proof.
  intros Hrun device td vd.
  destruct (apply_to_layer_ok_inv _ _ _ _ _ Hrun)
    as (first & v & k & d & out & rep & loss & ms & w3 & w5
        & _ & _ & _ & Hsup & Heval).
  exists ms.
  apply supervised_models_ok in Hsup as [Hnone Hsome].
  destruct (eval_loop_lr_eval _ _ _ _ _ _ _ _ _ _ Heval) as [Hlr Htlr].
  repeat split; [exact Hnone| |exact Hlr|exact Htlr].
  intros Hsup. eexists. now apply Hsome.
Qed.

End RunFacts.

(** ** [train.py]: the tables of concrete runs *)

Section RunExamples.
Import Py Train Runs Scenario.
Local Open Scope string_scope.
Local Open Scope list_scope.
Local Open Scope Z_scope.

Ltac run_layer :=
  cbv - [Rplus Rminus Rmult Rdiv Rinv Ropp exp IZR INR sqrt].

Local Notation "'one'" := (collaborators one_task one_task).

Lemma tables_of_returning_run_witness :
  exists res w',
    @apply_to_layer one (elicit EigenFitterConfig "single") 3 [] 1 (@start one 0)
    = (Ok res, w') /\
    let td := @train_dict_of one (elicit EigenFitterConfig "single") 3 [] 1 in
    let vd := @val_dict_of one (elicit EigenFitterConfig "single") 3 [] 1 in
    (forall name, In name (keys vd) -> exists train, lookup td name = Some train) /\
    map keyed (table (fst res) "eval") = flat_map three_modes (keys vd) /\
    map keyed (table (fst res) "train_eval") = flat_map three_modes (keys vd) /\
    map keyed (table (fst res) "lm_eval") = flat_map (lm_modes vd) (keys vd) /\
    map keyed (table (fst res) "train_lm_eval") = flat_map (lm_modes td) (keys vd).
Proof.
  eexists. eexists. split; [run_layer; reflexivity|].
  eapply (@tables_of_returning_run one (elicit EigenFitterConfig "single") 3 [] 1
            (@start one 0)).
  run_layer. reflexivity.
Defined.

Lemma train_loss_column_witness :
  exists res w',
    @apply_to_layer one (elicit CcsConfig "single") 3 [] 1 (@start one 0)
    = (Ok res, w') /\
    exists loss,
      Forall (fun r => train_loss r = Some loss /\ layer_of r = 3)
             (table (fst res) "eval" ++ table (fst res) "train_eval") /\
      loss = Some (1 / 4)%R.
Proof.
  destruct (@apply_to_layer one (elicit CcsConfig "single") 3 [] 1 (@start one 0))
    as [[res|e] w'] eqn:Hrun; [|revert Hrun; run_layer; discriminate].
  exists res, w'. split; [reflexivity|].
  destruct (@train_loss_column one (elicit CcsConfig "single") 3 [] 1 (@start one 0)
              w' res Hrun) as (loss & Hrows & _ & Hccs).
  exists loss. split; [exact Hrows|].
  destruct (Hccs eq_refl) as (first & v & k & d & Hv & Hloss).
  rewrite Hloss. injection Hv as <- <- <- <-. reflexivity.
Defined.

Lemma run_without_baseline_witness :
  exists res w',
    @apply_to_layer one (elicit EigenFitterConfig "none") 3 [] 1 (@start one 0)
    = (Ok res, w') /\
    let vd := @val_dict_of one (elicit EigenFitterConfig "none") 3 [] 1 in
    exists evs path rep,
      log w' = [] ++ evs /\
      Forall (fun ev => ~ supervised_event ev) evs /\
      In (SaveReporter path rep) evs /\
      table (fst res) "lr_eval" = [] /\
      table (fst res) "train_lr_eval" = [] /\
      map result (table (fst res) "eval")
      = flat_map (reporter_results rep vd) (keys vd).
Proof.
  eexists. eexists. split; [run_layer; reflexivity|].
  eapply (@run_without_baseline one (elicit EigenFitterConfig "none") 3 [] 1
            (@start one 0)).
  - reflexivity.
  - run_layer. reflexivity.
Defined.

Lemma baseline_tables_witness :
  exists res w',
    @apply_to_layer one (elicit EigenFitterConfig "single") 3 [] 1 (@start one 0)
    = (Ok res, w') /\
    let device := @get_device one [] 1 in
    let td := @train_dict_of one (elicit EigenFitterConfig "single") 3 [] 1 in
    let vd := @val_dict_of one (elicit EigenFitterConfig "single") 3 [] 1 in
    exists ms,
      (supervised (elicit EigenFitterConfig "single") = "none" -> ms = []) /\
      (supervised (elicit EigenFitterConfig "single") <> "none" ->
       exists g, ms = fst (train_supervised td device
                             (supervised (elicit EigenFitterConfig "single")) g)) /\
      table (fst res) "lr_eval" = flat_map (lr_rows_of 3 ms vd) (keys vd) /\
      table (fst res) "train_lr_eval" = flat_map (lr_rows_of 3 ms td) (keys vd).
Proof.
  eexists. eexists. split; [run_layer; reflexivity|].
  eapply (@baseline_tables one (elicit EigenFitterConfig "single") 3 [] 1
            (@start one 0)).
  run_layer. reflexivity.
Defined.

End RunExamples.

(** ** [train.py]: the saved log-probabilities *)

Section LogprobFacts.
Import Py Train Runs SavedLogprobs.
Context {C : Collaborators}.
Local Open Scope string_scope.
Local Open Scope list_scope.

Lemma setitem_setitem {V} (d : dict V) k a b :
  setitem (setitem d k a) k b = setitem d k b.
Proof.
  induction d as [|[k' v'] d IH]; cbn [setitem].
  - now rewrite String.eqb_refl.
  - destruct (String.eqb k' k) eqn:Hk; cbn [setitem]; rewrite Hk; [reflexivity|].
    now rewrite IH.
Qed.

Lemma setitem_fresh {V} (d : dict V) k v :
  lookup d k = None -> setitem d k v = d ++ [(k, v)].
Proof.
  induction d as [|[k' v'] d IH]; cbn [setitem lookup app]; [reflexivity|].
  destruct (String.eqb k' k); [discriminate|]. intros H. now rewrite IH.
Qed.

Lemma lookup_last {V} (d : dict V) k v :
  lookup d k = None -> lookup (d ++ [(k, v)]) k = Some v.
Proof.
  intros H. rewrite <- setitem_fresh by exact H. apply lookup_setitem_same.
Qed.

Lemma setitem_last {V} (d : dict V) k a b :
  lookup d k = None -> setitem (d ++ [(k, a)]) k b = d ++ [(k, b)].
Proof.
  intros H. rewrite <- !setitem_fresh by exact H. apply setitem_setitem.
Qed.

Lemma update_entry_last (o : dict Logprobs) name e f :
  lookup o name = None ->
  update_entry (o ++ [(name, e)]) name f = o ++ [(name, f e)].
Proof.
  intros H. unfold update_entry. rewrite lookup_last by exact H.
  now apply setitem_last.
Qed.

Lemma lookup_none_keys {V} (d : dict V) k : lookup d k = None <-> ~ In k (keys d).
Proof.
  induction d as [|[k' v'] d IH]; cbn [lookup keys map fst In]; [tauto|].
  destruct (String.eqb_spec k' k) as [->|Hne].
  - split; [discriminate|]. intros H. elim H. now left.
  - rewrite IH. unfold keys. tauto.
Qed.

Section OneDatasetLogprobs.
Variable self : Elicit Hyper.
Variable layer : Z.
Variable fit_loss : option R.
Variable ds_name : string.
Variables val train : Bundle.
Hypothesis Hsave : save_logprobs self = true.
Variable o : dict Logprobs.
Hypothesis Hfresh : lookup o ds_name = None.

Lemma lr_loop_out mode ims st e :
  out_logprobs st = o ++ [(ds_name, e)] ->
  out_logprobs (fold_left (lr_step self layer ds_name val train mode) ims st)
  = o ++ [(ds_name,
           fold_left (fun e im =>
                        set_lr mode (fst im)
                          (get_logprobs (lr_forward (snd im) (hiddens val)) mode) e)
                     ims e)].
Proof.
  revert st e. induction ims as [|im ims IH]; intros st e Hst; cbn [fold_left].
  - exact Hst.
  - apply IH. unfold lr_step. cbn [out_logprobs]. rewrite Hsave, Hst.
    cbn [when]. now apply update_entry_last.
Qed.

Lemma lr_fold_entry mode (ims : list (nat * LrModel)) e l :
  let g := fun im : nat * LrModel =>
             (fst im, get_logprobs (lr_forward (snd im) (hiddens val)) mode) in
  fold_left (fun e im => set_lr mode (fst im) (snd (g im)) e) ims
    (mkLogprobs (lp_row_ids e) (lp_variant_ids e) (lp_texts e) (lp_labels e)
                (lp_lm e) (setitem (lp_lr e) mode l) (lp_reporter e))
  = mkLogprobs (lp_row_ids e) (lp_variant_ids e) (lp_texts e) (lp_labels e)
               (lp_lm e) (setitem (lp_lr e) mode (l ++ map g ims)) (lp_reporter e).
Proof.
  intros g. revert l. induction ims as [|im ims IH]; intros l; cbn [fold_left map].
  - now rewrite app_nil_r.
  - unfold set_lr at 2. cbn [lp_row_ids lp_variant_ids lp_texts lp_labels lp_lm
                               lp_lr lp_reporter].
    unfold append_to. rewrite lookup_setitem_same, setitem_setitem.
    rewrite IH. now rewrite <- app_assoc.
Qed.

Lemma mode_step_out ms st mode e :
  out_logprobs st = o ++ [(ds_name, e)] ->
  out_logprobs (mode_step self layer fit_loss ds_name val train ms st mode)
  = o ++ [(ds_name, step_entry ms val (val_credences st) mode e)].
Proof.
  intros Hst. unfold mode_step, step_entry, lr_logprobs.
  destruct (lm_preds val) as [lm|].
  - erewrite lr_loop_out; cycle 1.
    { cbn [out_logprobs]. rewrite Hsave, Hst. cbn [when].
      rewrite !update_entry_last by exact Hfresh. reflexivity. }
    f_equal. f_equal. f_equal.
    unfold reset_lr, set_lm, set_reporter;
      cbn [lp_row_ids lp_variant_ids lp_texts lp_labels lp_lm lp_lr lp_reporter].
    pose proof (lr_fold_entry mode (enumerate ms)
        (mkLogprobs (lp_row_ids e) (lp_variant_ids e) (lp_texts e) (lp_labels e)
           (setitem (lp_lm e) mode (get_logprobs lm mode)) (lp_lr e)
           (setitem (lp_reporter e) mode (get_logprobs (val_credences st) mode))) [])
        as H.
    cbn [lp_row_ids lp_variant_ids lp_texts lp_labels lp_lm lp_lr lp_reporter
         app fst snd] in H. exact H.
  - erewrite lr_loop_out; cycle 1.
    { cbn [out_logprobs]. rewrite Hsave, Hst. cbn [when].
      rewrite !update_entry_last by exact Hfresh. reflexivity. }
    f_equal. f_equal. f_equal.
    unfold reset_lr, set_lm, set_reporter;
      cbn [lp_row_ids lp_variant_ids lp_texts lp_labels lp_lm lp_lr lp_reporter].
    pose proof (lr_fold_entry mode (enumerate ms)
        (mkLogprobs (lp_row_ids e) (lp_variant_ids e) (lp_texts e) (lp_labels e)
           (lp_lm e) (lp_lr e)
           (setitem (lp_reporter e) mode (get_logprobs (val_credences st) mode))) [])
        as H.
    cbn [lp_row_ids lp_variant_ids lp_texts lp_labels lp_lm lp_lr lp_reporter
         app fst snd] in H. exact H.
Qed.

Lemma eval_dataset_out rep ms bufs :
  snd (eval_dataset self layer fit_loss ds_name val train rep ms bufs o)
  = o ++ [(ds_name, saved_entry rep ms val)].
Proof.
  unfold eval_dataset, modes. cbn [fold_left snd]. rewrite Hsave. cbn [when].
  rewrite setitem_fresh by exact Hfresh.
  erewrite mode_step_out; cycle 1.
  { erewrite mode_step_out; cycle 1.
    { erewrite mode_step_out; [reflexivity|]. cbn [out_logprobs]. reflexivity. }
    reflexivity. }
  rewrite !mode_step_val_credences. cbn [val_credences].
  unfold step_entry, saved_entry, lm_logprobs, reporter_logprobs, modes.
  destruct (lm_preds val); reflexivity.
Qed.

End OneDatasetLogprobs.

Lemma eval_dataset_out_off (self : Elicit Hyper) layer loss name val train rep ms bufs o :
  save_logprobs self = false ->
  snd (eval_dataset self layer loss name val train rep ms bufs o) = o.
Proof.
  intros Hoff. unfold eval_dataset. cbn [snd]. rewrite Hoff. cbn [when].
  assert (Hlr : forall mode ims st,
             out_logprobs (fold_left (lr_step self layer name val train mode) ims st)
             = out_logprobs st).
  { intros mode ims. induction ims as [|im ims IH]; intros st; cbn [fold_left];
      [reflexivity|]. rewrite IH. unfold lr_step. cbn [out_logprobs].
    now rewrite Hoff. }
  assert (Hmode : forall st mode,
             out_logprobs (mode_step self layer loss name val train ms st mode)
             = out_logprobs st).
  { intros st mode. unfold mode_step. rewrite Hlr. cbn [out_logprobs].
    rewrite Hoff. cbn [when]. now destruct (lm_preds val). }
  unfold modes. cbn [fold_left]. now rewrite !Hmode.
Qed.

Lemma keys_entries_of rep ms vd names :
  incl (keys (flat_map (entries_of rep ms vd) names)) names.
Proof.
  induction names as [|name names IH]; cbn [flat_map]; [easy|].
  unfold keys in *. rewrite map_app. intros k Hk.
  apply in_app_or in Hk as [Hk|Hk].
  - left. unfold entries_of in Hk. destruct (lookup vd name); [|easy].
    cbn in Hk. tauto.
  - right. now apply IH.
Qed.

Lemma eval_loop_out (self : Elicit Hyper) layer loss rep ms vd td names st w st' w' :
  eval_loop self layer loss rep ms vd td names st w = (Ok st', w') ->
  (save_logprobs self = false -> snd st' = snd st) /\
  (save_logprobs self = true -> NoDup names ->
   (forall name, In name names -> ~ In name (keys (snd st))) ->
   snd st' = snd st ++ flat_map (entries_of rep ms vd) names).
Proof.
  revert st w. induction names as [|name names IH]; intros st w; cbn [eval_loop].
  - unfold ret. intros [= <- <-]. cbn [flat_map]. rewrite app_nil_r. auto.
  - unfold bind at 1. unfold lift at 1.
    destruct (getitem vd name) as [val|e] eqn:Hval; [|discriminate].
    unfold bind at 1. unfold lift at 1.
    destruct (getitem td name) as [train|e] eqn:Htrain; [|discriminate].
    unfold bind at 1. unfold emit at 1.
    intros Hrest. apply IH in Hrest as [Hoff Hon]. split.
    + intros Hsave. rewrite Hoff by exact Hsave. cbn [snd].
      now apply eval_dataset_out_off.
    + intros Hsave Hnd Hfresh. apply NoDup_cons_iff in Hnd as [Hname Hnd].
      assert (Hnone : lookup (snd st) name = None).
      { apply lookup_none_keys, Hfresh. now left. }
      apply getitem_ok in Hval.
      assert (Hstep : snd (eval_dataset self layer loss name val train rep ms
                             (fst st) (snd st))
                      = snd st ++ entries_of rep ms vd name).
      { unfold entries_of. rewrite Hval. now apply eval_dataset_out. }
      rewrite Hon; [| exact Hsave | exact Hnd |].
      * cbn [snd flat_map]. rewrite Hstep. now rewrite <- app_assoc.
      * intros n Hn. cbn [snd]. rewrite Hstep. unfold keys. rewrite map_app.
        intros Hin. apply in_app_or in Hin as [Hin|Hin].
        -- apply (Hfresh n); [now right | exact Hin].
        -- unfold entries_of in Hin. rewrite Hval in Hin. cbn in Hin.
           destruct Hin as [<-|[]]. contradiction.
Qed.

Lemma entries_of_keys rep ms (vd : dict Bundle) :
  NoDup (keys vd) ->
  flat_map (entries_of rep ms vd) (keys vd)
  = map (fun nv => (fst nv, saved_entry rep ms (snd nv))) vd.
Proof.
  induction vd as [|[k v] vd IH]; cbn [keys map fst snd flat_map]; [reflexivity|].
  intros Hnd. apply NoDup_cons_iff in Hnd as [Hk Hnd].
  unfold entries_of at 1. cbn [lookup]. rewrite String.eqb_refl. cbn [app].
  f_equal. rewrite <- IH by exact Hnd. rewrite !flat_map_concat_map.
  f_equal. apply map_ext_in.
  intros name Hname. unfold entries_of. cbn [lookup].
  destruct (String.eqb_spec k name) as [->|Hne]; [contradiction|reflexivity].
Qed.

(** X10: the saved log-probabilities.  Without [save_logprobs] a
    returning run hands back an empty [out_logprobs].  With it, [out_logprobs]
    has one entry per dataset of [val_dict], in its order, holding the
    validation bundle's row ids, variant ids, texts and labels; under "lr",
    for each of the three modes, one tensor per supervised model; under "lm"
    the three modes when the bundle has language-model predictions and
    nothing otherwise; under "reporter" the three modes, computed from the
    contents of [val_credences] when the mode is reached. *)
Theorem saved_logprobs
    (self : Elicit Hyper) (layer : Z) (devices : list string) (world_size : Z)
    (w w' : World) (res : dict (list Row) * dict Logprobs) :
  apply_to_layer self layer devices world_size w = (Ok res, w') ->
  let device := get_device devices world_size in
  let td := train_dict_of self layer devices world_size in
  let vd := val_dict_of self layer devices world_size in
  (save_logprobs self = false -> snd res = []) /\
  (save_logprobs self = true -> NoDup (keys vd) ->
   exists path rep ms,
     In (SaveReporter path rep) (log w') /\
     (supervised self = "none" -> ms = []) /\
     (supervised self <> "none" ->
      exists g, ms = fst (train_supervised td device (supervised self) g)) /\
     snd res = map (fun nv => (fst nv, saved_entry rep ms (snd nv))) vd).
Proof.
  intros Hrun device td vd.
  destruct (apply_to_layer_ok_inv _ _ _ _ _ Hrun)
    as (first & v & k & d & out & rep & loss & ms & w3 & w5
        & _ & _ & _ & Hsup & Heval).
  destruct (@emits_supervised_models C _ _ _ _ _ _ _ _ Hsup) as (sevs & Hlog5 & _).
  destruct (@emits_eval_loop C _ _ _ _ _ _ _ _ _ _ _ _ Heval) as (eevs & Hlog & _).
  apply supervised_models_ok in Hsup as [Hnone Hsome].
  apply eval_loop_out in Heval as [Hoff Hon]. split; [exact Hoff|].
  intros Hsave Hnd.
  exists (layer_file (out ++ "/reporters") layer), rep, ms.
  split.
  { rewrite Hlog, Hlog5. cbn [log]. rewrite !in_app_iff. left. left. right.
    now left. }
  split; [exact Hnone|]. split; [intros Hs; eexists; now apply Hsome|].
  rewrite Hon; [| exact Hsave | exact Hnd | intros ? _ []].
  cbn [snd app]. now apply entries_of_keys.
Qed.

End LogprobFacts.

(** ** [train.py]: failures after the reporter was saved *)

Section FailureFacts.
Import Py Train Runs.
Context {C : Collaborators}.
Local Open Scope string_scope.
Local Open Scope list_scope.

Lemma lookup_keys {V} (d : dict V) k : In k (keys d) -> exists v, lookup d k = Some v.
Proof.
  induction d as [|[k' v'] d IH]; cbn [keys map fst In lookup]; [easy|].
  intros [->|Hin].
  - rewrite String.eqb_refl. eauto.
  - destruct (String.eqb k' k); eauto.
Qed.

Lemma supervised_models_returns (self : Elicit Hyper) layer device lr_dir td w :
  exists ms w', supervised_models self layer device lr_dir td w = (Ok ms, w').
Proof.
  unfold supervised_models.
  destruct (negb (String.eqb (supervised self) "none")).
  - unfold bind, with_rng, emit, ret. eauto.
  - unfold ret. eauto.
Qed.

Lemma eval_loop_raise (self : Elicit Hyper) layer loss rep ms vd td names st w e w' :
  eval_loop self layer loss rep ms vd td names st w = (Raise e, w') ->
  (forall n, In n names -> exists v, lookup vd n = Some v) ->
  exists name, e = KeyError name /\ In name names /\
               first_missing td names = Some name.
Proof.
  revert st w. induction names as [|name names IH]; intros st w; cbn [eval_loop].
  - discriminate.
  - intros Hrun Hvd. destruct (Hvd name (or_introl eq_refl)) as [val Hval].
    revert Hrun. unfold bind at 1. unfold lift at 1. unfold getitem at 1.
    rewrite Hval. unfold bind at 1. unfold lift at 1. unfold getitem at 1.
    unfold first_missing. cbn [find].
    destruct (lookup td name) as [train|].
    + unfold bind at 1. unfold emit at 1. intros Hrest.
      apply IH in Hrest as (n & -> & Hin & Hfirst);
        [|intros n Hn; apply Hvd; now right].
      exists n. repeat split; [now right | exact Hfirst].
    + intros [= <- <-]. exists name. repeat split. now left.
Qed.

(** X11: a run that fails after it has saved the reporter fails in the
    evaluation loop, at [train_dict[ds_name]]: the exception is the
    [KeyError] of the first dataset of [val_dict] that [train_dict] lacks
    (the collaborators called after the save are taken to return). *)
Theorem failure_after_save
    (self : Elicit Hyper) (layer : Z) (devices : list string) (world_size : Z)
    (w w' : World) (e : PyError) (evs : list Event) (path : string) (rep : reporter) :
  apply_to_layer self layer devices world_size w = (Raise e, w') ->
  log w' = log w ++ evs ->
  In (SaveReporter path rep) evs ->
  let td := train_dict_of self layer devices world_size in
  let vd := val_dict_of self layer devices world_size in
  exists name,
    e = KeyError name /\ In name (keys vd) /\ first_missing td (keys vd) = Some name.
Proof.
  rewrite apply_to_layer_run. intros Hrun Hlog Hsaved td vd. revert Hrun.
  fold td vd.
  destruct (validate td) as [[first [[v k] d]]|e0] eqn:Hv.
  2:{ rewrite fit_and_evaluate_invalid with (e := e0) by exact Hv.
      intros [= <- <-]. cbn [log] in Hlog. apply app_inv_head in Hlog. subst evs.
      cbn in Hsaved. intuition discriminate. }
  destruct (assert_path (out_dir self)) as [out|e0] eqn:Hp.
  2:{ erewrite fit_and_evaluate_no_path; [|exact Hv|exact Hp].
      intros [= <- <-]. cbn [log] in Hlog. apply app_inv_head in Hlog. subst evs.
      cbn in Hsaved. intuition discriminate. }
  erewrite fit_and_evaluate_checked; [|exact Hv|exact Hp].
  unfold bind at 1. cbn [rng log].
  destruct (fit _ _ _ _ _ _ _ _) as [[[rep0 loss]|e0] w3] eqn:Hfit.
  2:{ intros [= <- <-].
      destruct (@emits_fit C _ _ _ _ _ _ _ _ _ _ Hfit) as (fevs & Hlog3 & Hfevs).
      cbn [log] in Hlog3. rewrite Hlog3, <- !app_assoc in Hlog.
      apply app_inv_head in Hlog. subst evs.
      rewrite !in_app_iff in Hsaved. destruct Hsaved as [Hs|[Hs|Hs]].
      - cbn in Hs. intuition discriminate.
      - cbn in Hs. intuition discriminate.
      - rewrite Forall_forall in Hfevs. apply Hfevs in Hs. discriminate. }
  cbn [fst snd]. unfold bind at 1. unfold emit at 1. unfold bind at 1.
  match goal with |- context [supervised_models ?s ?l ?dv ?dir ?t ?x] =>
    destruct (supervised_models_returns s l dv dir t x) as (ms & w5 & ->)
  end.
  intros Heval. apply eval_loop_raise in Heval; [exact Heval|].
  intros n Hn. now apply lookup_keys.
Qed.

End FailureFacts.

Section FailureExamples.
Import Py Train Runs Scenario.
Local Open Scope string_scope.
Local Open Scope list_scope.
Local Open Scope Z_scope.

Ltac run_layer :=
  cbv - [Rplus Rminus Rmult Rdiv Rinv Ropp exp IZR INR sqrt].

Local Notation "'unseen'" := (collaborators one_task two_tasks).

Lemma failure_after_save_witness :
  exists e w' evs path rep,
    @apply_to_layer unseen (elicit EigenFitterConfig "single") 3 [] 1 (@start unseen 0)
    = (Raise e, w') /\
    log w' = [] ++ evs /\
    In (SaveReporter path rep) evs /\
    let td := @train_dict_of unseen (elicit EigenFitterConfig "single") 3 [] 1 in
    let vd := @val_dict_of unseen (elicit EigenFitterConfig "single") 3 [] 1 in
    exists name,
      e = KeyError name /\ In name (keys vd) /\ first_missing td (keys vd) = Some name.
Proof.
  eexists. eexists. eexists. eexists. eexists.
  assert (Hlog : forall (A : Type) (a : list A), a = [] ++ a) by reflexivity.
  split; [run_layer; reflexivity|].
  split; [cbn [log]; apply Hlog|].
  split; [cbn; do 7 right; left; reflexivity|].
  eapply (@failure_after_save unseen (elicit EigenFitterConfig "single") 3 [] 1
            (@start unseen 0)).
  - run_layer. reflexivity.
  - cbn [log]. apply Hlog.
  - cbn. do 7 right. left. reflexivity.
Defined.

End FailureExamples.

Section LogprobExamples.
Import Py Train Runs SavedLogprobs Scenario.
Local Open Scope string_scope.
Local Open Scope list_scope.
Local Open Scope Z_scope.

Ltac run_layer :=
  cbv - [Rplus Rminus Rmult Rdiv Rinv Ropp exp IZR INR sqrt].

Local Notation "'one'" := (collaborators one_task one_task).
Local Notation "'saving'" :=
  (mkElicit (mkFitterConfig 0%Z EigenFitterConfig tt) "single" true (Some "out")).

Lemma saved_logprobs_witness :
  exists res w',
    @apply_to_layer one saving 3 [] 1 (@start one 0) = (Ok res, w') /\
    let device := @get_device one [] 1 in
    let td := @train_dict_of one saving 3 [] 1 in
    let vd := @val_dict_of one saving 3 [] 1 in
    exists path rep ms,
      In (SaveReporter path rep) (log w') /\
      (supervised saving = "none" -> ms = []) /\
      (supervised saving <> "none" ->
       exists g, ms = fst (train_supervised td device (supervised saving) g)) /\
      snd res = map (fun nv => (fst nv, saved_entry rep ms (snd nv))) vd.
Proof.
  eexists. eexists. split; [run_layer; reflexivity|].
  refine (proj2 (@saved_logprobs one saving 3 [] 1 (@start one 0) _ _ _) _ _).
  - run_layer. reflexivity.
  - reflexivity.
  - repeat constructor. intros [].
Defined.

End LogprobExamples.

(** ** [train.py]: when a run on the eigen path returns *)

Section ReturnFacts.
Import Py Train Runs.
Context {C : Collaborators}.
Local Open Scope string_scope.
Local Open Scope list_scope.

Lemma validate_returns (td : dict Bundle) :
  td <> [] ->
  Forall four_dim (values td) ->
  (forall b1 b2, In b1 (values td) -> In b2 (values td) ->
                 hidden_dim b1 = hidden_dim b2 /\ class_count b1 = class_count b2) ->
  exists first v k d, validate td = Ok (first, (v, k, d)).
Proof.
  intros Hne H4 Hsame. unfold validate.
  destruct td as [|[name b] td]; [congruence|]. cbn [values map snd unpack_first] in *.
  inversion H4 as [|? ? Hb Hrest]; subst.
  destruct (four_dim_shape Hb) as (n & v & k & d & Hs). rewrite Hs. cbn [unpack4].
  destruct (four_dim_all_m d Hrest (or_introl eq_refl)) as ([|] & Hd); rewrite Hd.
  - destruct (four_dim_all_m k Hrest (or_intror eq_refl)) as ([|] & Hk); rewrite Hk.
    + eauto.
    + exfalso. apply all_m_dim_false in Hk as (b' & Hin & Hk). apply Hk.
      destruct (Hsame b' b (or_intror Hin) (or_introl eq_refl)) as [_ Hc].
      unfold class_count in Hc. cbn [Nat.sub]. rewrite Hc, Hs. reflexivity.
  - exfalso. apply all_m_dim_false in Hd as (b' & Hin & Hd). apply Hd.
    destruct (Hsame b' b (or_intror Hin) (or_introl eq_refl)) as [Hh _].
    unfold hidden_dim in Hh. cbn [Nat.sub]. rewrite Hh, Hs. reflexivity.
Qed.

(** [torch.cat] succeeds on a non-empty list of tensors that agree beyond
    dimension 0. *)
Lemma cat_onto_uniform {A} (tl : list nat) (ts : list (Tensor A)) acc :
  (exists n, shape acc = n :: tl) ->
  Forall (fun t => exists n, shape t = n :: tl) ts ->
  exists r, cat_onto acc ts = Ok r.
Proof.
  intros Hacc Hts. revert acc Hacc.
  induction Hts as [|t ts [m Ht] _ IH]; intros acc [n Hacc]; cbn [cat_onto]; [eauto|].
  rewrite Hacc, Ht. destruct (list_eq_dec Nat.eq_dec tl tl) as [_|Hne]; [|congruence].
  apply IH. cbn [shape]. eauto.
Qed.

Lemma cat_uniform {A} (tl : list nat) (ts : list (Tensor A)) :
  ts <> [] ->
  Forall (fun t => exists n, shape t = n :: tl) ts ->
  exists r, cat ts = Ok r.
Proof.
  intros Hne Hts. destruct ts as [|t ts]; [congruence|]. cbn [cat].
  inversion Hts; subst. now apply cat_onto_uniform with (tl := tl).
Qed.

Lemma eigen_loop_returns items k d f hl ll w :
  Forall (fun b => four_dim b /\ flat_labels b /\ hidden_dim b = Some d)
         (values items) ->
  Forall (fun t => exists n, shape t = [n; d]) hl ->
  Forall (fun t => exists n, shape t = [n]) ll ->
  exists f' hl' ll' w',
    eigen_loop items k (f, hl, ll) w = (Ok (f', hl', ll'), w') /\
    Forall (fun t => exists n, shape t = [n; d]) hl' /\
    Forall (fun t => exists n, shape t = [n]) ll' /\
    length hl' = (length hl + length items)%nat /\
    length ll' = (length ll + length items)%nat.
Proof.
  revert f hl ll w.
  induction items as [|[name b] items IH]; intros f hl ll w Hall Hhl Hll;
    cbn [eigen_loop].
  - unfold ret. exists f, hl, ll, w. cbn [length]. repeat split; auto; lia.
  - cbn [values map snd] in Hall. inversion Hall as [|? ? (H4 & Hfl & Hd) Hrest]; subst.
    destruct (four_dim_shape H4) as (n & v & k' & d' & Hs).
    assert (d' = d) as ->.
    { unfold hidden_dim in Hd. rewrite Hs in Hd. cbn in Hd. congruence. }
    unfold bind at 1. unfold lift at 1. rewrite Hs. cbn [unpack4].
    unfold bind at 1. unfold lift at 1. unfold rearrange_rows. rewrite Hs.
    unfold bind at 1. unfold lift at 1. unfold repeat_each.
    unfold flat_labels in Hfl.
    destruct (shape (labels b)) as [|m [|]] eqn:Hl; try discriminate.
    unfold bind at 1. unfold emit at 1.
    edestruct IH as (f' & hl' & ll' & w' & Hrun & Hhl' & Hll' & Hlen1 & Hlen2);
      [exact Hrest| | |].
    3:{ exists f', hl', ll', w'. split; [exact Hrun|].
        split; [exact Hhl'|]. split; [exact Hll'|].
        rewrite length_app in *. cbn [length] in *. split; lia. }
    + apply Forall_app. split; [exact Hhl|]. constructor; [|constructor].
      cbn [shape]. eauto.
    + apply Forall_app. split; [exact Hll|]. constructor; [|constructor].
      unfold flatten. cbn [shape]. eauto.
Qed.

Lemma eval_loop_returns (self : Elicit Hyper) layer loss rep ms vd td names st w :
  (forall name, In name names ->
                (exists v, lookup vd name = Some v) /\ exists t, lookup td name = Some t) ->
  exists st' w', eval_loop self layer loss rep ms vd td names st w = (Ok st', w').
Proof.
  revert st w. induction names as [|name names IH]; intros st w Hin; cbn [eval_loop].
  - unfold ret. eauto.
  - destruct (Hin name (or_introl eq_refl)) as [[v Hv] [t Ht]].
    unfold bind at 1. unfold lift at 1. unfold getitem at 1. rewrite Hv.
    unfold bind at 1. unfold lift at 1. unfold getitem at 1. rewrite Ht.
    unfold bind at 1. unfold emit at 1.
    apply IH. intros n Hn. apply Hin. now right.
Qed.

(** X12: on the eigen path no statement of [apply_to_layer] itself raises
    when the training dictionary is not empty, its hidden tensors are 4-D
    and agree on the hidden size and the number of classes, its label
    tensors are 1-D, the output directory is given, and every dataset of
    [val_dict] is also in [train_dict]: the run returns provided every call
    into other code returns ([prepare_data], [create_models_dir], the
    fitter, [platt_scale], [torch.save], [train_supervised], and, on the
    validation data, the reporter, the supervised models, [evaluate_preds]
    and [get_logprobs], which is all the loop does with them). *)
Theorem eigen_run_returns
    (self : Elicit Hyper) (layer : Z) (devices : list string) (world_size : Z)
    (w : World) :
  let td := train_dict_of self layer devices world_size in
  let vd := val_dict_of self layer devices world_size in
  family (net self) = EigenFitterConfig ->
  td <> [] ->
  Forall (fun b => four_dim b /\ flat_labels b) (values td) ->
  (forall b1 b2, In b1 (values td) -> In b2 (values td) ->
                 hidden_dim b1 = hidden_dim b2 /\ class_count b1 = class_count b2) ->
  (exists out, assert_path (out_dir self) = Ok out) ->
  incl (keys vd) (keys td) ->
  exists res w', apply_to_layer self layer devices world_size w = (Ok res, w').
Proof.
  intros td vd Hfam Hne Hall Hsame [out Hp] Hincl.
  assert (H4 : Forall four_dim (values td)).
  { eapply Forall_impl; [|exact Hall]. now intros b [H _]. }
  destruct (validate_returns Hne H4 Hsame) as (first & v & k & d & Hv).
  rewrite apply_to_layer_run. fold td vd.
  erewrite fit_and_evaluate_checked; [|exact Hv|exact Hp].
  unfold bind at 1. unfold fit. rewrite Hfam. unfold fit_eigen.
  unfold bind at 1.
  destruct (validate_ok _ Hv) as [_ Hdims].
  match goal with |- context [eigen_loop td k (?f, [], []) ?x] =>
    destruct (@eigen_loop_returns td k d f [] [] x)
      as (f' & hl' & ll' & w1 & -> & Hhl & Hll & Hlen1 & Hlen2)
  end; [| constructor | constructor |].
  { rewrite Forall_forall in *. intros b Hb.
    destruct (Hall b Hb) as [Hb4 Hfl]. destruct (Hdims b Hb) as [Hd _]. auto. }
  unfold bind at 1. unfold with_rng at 1.
  unfold bind at 1. unfold emit at 1.
  assert (Hpos : (0 < length td)%nat) by (destruct td; [congruence | cbn; lia]).
  destruct (@cat_uniform _ [] ll') as [all_labels Hcl];
    [intros ->; cbn in Hlen2; lia | exact Hll |].
  destruct (@cat_uniform _ [d] hl') as [all_hiddens Hch];
    [intros ->; cbn in Hlen1; lia | exact Hhl |].
  unfold bind at 1. unfold lift at 1. rewrite Hcl.
  unfold bind at 1. unfold lift at 1. rewrite Hch.
  unfold bind at 1. unfold emit at 1. unfold ret at 1. cbn [fst snd].
  unfold bind at 1. unfold emit at 1.
  unfold bind at 1.
  match goal with |- context [supervised_models ?s ?l ?dv ?dir ?t ?x] =>
    destruct (supervised_models_returns s l dv dir t x) as (ms & w5 & ->)
  end.
  apply eval_loop_returns. intros name Hname. split.
  - now apply lookup_keys.
  - apply lookup_keys. now apply Hincl.
Qed.

End ReturnFacts.

Section ReturnExamples.
Import Py Train Runs Scenario.
Local Open Scope string_scope.
Local Open Scope list_scope.
Local Open Scope Z_scope.

Local Notation "'two'" := (collaborators two_tasks one_task).

Lemma eigen_run_returns_witness :
  exists res w',
    @apply_to_layer two (elicit EigenFitterConfig "single") 3 [] 1 (@start two 0)
    = (Ok res, w').
Proof.
  apply (@eigen_run_returns two (elicit EigenFitterConfig "single") 3 [] 1
           (@start two 0)).
  - reflexivity.
  - discriminate.
  - repeat constructor.
  - intros b1 b2 [<-|[<-|[]]] [<-|[<-|[]]]; split; reflexivity.
  - eexists. reflexivity.
  - intros name [<-|[]]. vm_compute. now left.
Defined.

End ReturnExamples.

(** ** [preprocessing.py]: what [normalize] achieves *)

Section CentringFacts.
Import Vec Py Preprocessing Centring.
Local Open Scope R_scope.

Lemma rsum_cons a l : rsum (a :: l) = a + rsum l.
Proof. reflexivity. Qed.

Lemma rsum_shift {A} (a : A -> R) c l :
  rsum (map (fun x => a x - c) l) = rsum (map a l) - INR (length l) * c.
Proof.
  induction l as [|x l IH]; cbn [map length].
  - unfold rsum. cbn. lra.
  - rewrite !rsum_cons, IH, S_INR. lra.
Qed.

Lemma rsum_scale {A} (a : A -> R) c l :
  rsum (map (fun x => a x * c) l) = rsum (map a l) * c.
Proof.
  induction l as [|x l IH]; cbn [map].
  - unfold rsum. cbn. lra.
  - rewrite !rsum_cons, IH. lra.
Qed.

Lemma nth_map_lt {A B} (f : A -> B) l j d d' :
  (j < length l)%nat -> nth j (map f l) d' = f (nth j l d).
Proof.
  intros Hj. rewrite nth_indep with (d' := f d) by (rewrite length_map; lia).
  apply map_nth.
Qed.

Lemma length_map2 f u v : length (map2 f u v) = Nat.min (length u) (length v).
Proof. unfold map2. now rewrite length_map, length_combine. Qed.

Lemma nth_map2 f u v j :
  (j < length u)%nat -> (j < length v)%nat ->
  nth j (map2 f u v) 0 = f (nth j u 0) (nth j v 0).
Proof.
  unfold map2. revert v j.
  induction u as [|a u IH]; intros [|b v] [|j]; cbn [length combine map nth fst snd];
    intros Hu Hv; try lia; [reflexivity|].
  apply IH; lia.
Qed.

Lemma length_col_sum d rs :
  Forall (fun r => length r = d) rs -> length (fold_right vadd (zeros d) rs) = d.
Proof.
  induction 1 as [|r rs Hr _ IH]; cbn [fold_right].
  - apply repeat_length.
  - unfold vadd at 1. rewrite length_map2, Hr, IH. lia.
Qed.

Lemma nth_col_sum d rs j :
  Forall (fun r => length r = d) rs -> (j < d)%nat ->
  nth j (fold_right vadd (zeros d) rs) 0 = rsum (map (fun r => nth j r 0) rs).
Proof.
  intros Hrs Hj. induction Hrs as [|r rs Hr Hrs IH]; cbn [fold_right map].
  - unfold zeros. now rewrite nth_repeat.
  - unfold vadd at 1. rewrite nth_map2 by (rewrite ?length_col_sum; auto; lia).
    now rewrite IH, rsum_cons.
Qed.

Lemma length_mean_dim0 t : well_shaped t -> length (mean_dim0 t) = ncols t.
Proof.
  intros Ht. unfold mean_dim0, col_sum. rewrite length_map. now apply length_col_sum.
Qed.

Lemma nth_mean_dim0 t j :
  well_shaped t -> (j < ncols t)%nat ->
  nth j (mean_dim0 t) 0
  = rsum (map (fun r => nth j r 0) (rows t)) / INR (length (rows t)).
Proof.
  intros Ht Hj. unfold mean_dim0, col_sum.
  rewrite nth_map_lt with (d := 0) by (rewrite length_col_sum; auto).
  now rewrite nth_col_sum.
Qed.

Lemma length_col_norms t : well_shaped t -> length (col_norms t) = ncols t.
Proof.
  intros Ht. unfold col_norms, col_sum. cbn [ncols rows]. rewrite length_map.
  apply length_col_sum. apply Forall_map. eapply Forall_impl; [|exact Ht].
  intros r Hr. now rewrite length_map.
Qed.

Lemma nth_col_norms t j :
  well_shaped t -> (j < ncols t)%nat ->
  nth j (col_norms t) 0
  = sqrt (rsum (map (fun r => nth j r 0 * nth j r 0) (rows t))).
Proof.
  intros Ht Hj. unfold col_norms, col_sum. cbn [ncols rows].
  assert (Hsq : Forall (fun r => length r = ncols t)
                       (map (map (fun x => x * x)) (rows t))).
  { apply Forall_map. eapply Forall_impl; [|exact Ht].
    intros r Hr. now rewrite length_map. }
  rewrite nth_map_lt with (d := 0) by (rewrite length_col_sum; auto).
  rewrite nth_col_sum by assumption. rewrite map_map. f_equal. f_equal.
  apply map_ext_in. intros r Hr.
  unfold well_shaped in Ht. rewrite Forall_forall in Ht.
  rewrite nth_map_lt with (d := 0) by (rewrite (Ht r Hr); exact Hj).
  reflexivity.
Qed.

Lemma broadcast_same d m : length m = d -> broadcast d m = Ok m.
Proof. intros H. unfold broadcast. apply Nat.eqb_eq in H. now rewrite H. Qed.

Lemma well_shaped_minus_row t m :
  well_shaped t -> length m = ncols t -> well_shaped (minus_row t m).
Proof.
  intros Ht Hm. unfold well_shaped, minus_row. cbn [ncols rows].
  apply Forall_map. eapply Forall_impl; [|exact Ht].
  intros r Hr. rewrite length_map2, Hr, Hm. lia.
Qed.

Lemma well_shaped_times_row t s :
  well_shaped t -> length s = ncols t -> well_shaped (times_row t s).
Proof.
  intros Ht Hs. unfold well_shaped, times_row. cbn [ncols rows].
  apply Forall_map. eapply Forall_impl; [|exact Ht].
  intros r Hr. rewrite length_map2, Hr, Hs. lia.
Qed.

Lemma well_shaped_times t c : well_shaped t -> well_shaped (times t c).
Proof.
  intros Ht. unfold well_shaped, times. cbn [ncols rows].
  apply Forall_map. eapply Forall_impl; [|exact Ht].
  intros r Hr. now rewrite length_map.
Qed.

(** Column sums after the three updates. *)
Lemma column_minus_row t m j :
  well_shaped t -> length m = ncols t -> (j < ncols t)%nat ->
  rsum (map (fun r => nth j r 0) (rows (minus_row t m)))
  = rsum (map (fun r => nth j r 0) (rows t)) - INR (length (rows t)) * nth j m 0.
Proof.
  intros Ht Hm Hj. unfold minus_row. cbn [rows]. rewrite map_map.
  rewrite <- rsum_shift. f_equal. apply map_ext_in. intros r Hr.
  unfold well_shaped in Ht. rewrite Forall_forall in Ht.
  apply nth_map2; rewrite ?(Ht r Hr), ?Hm; exact Hj.
Qed.

Lemma column_times_row t s j :
  well_shaped t -> length s = ncols t -> (j < ncols t)%nat ->
  map (fun r => nth j r 0) (rows (times_row t s))
  = map (fun r => nth j r 0 * nth j s 0) (rows t).
Proof.
  intros Ht Hs Hj. unfold times_row. cbn [rows]. rewrite map_map.
  apply map_ext_in. intros r Hr.
  unfold well_shaped in Ht. rewrite Forall_forall in Ht.
  apply nth_map2; rewrite ?(Ht r Hr), ?Hs; exact Hj.
Qed.

Lemma column_sq_times_row t s j :
  well_shaped t -> length s = ncols t -> (j < ncols t)%nat ->
  map (fun r => nth j r 0 * nth j r 0) (rows (times_row t s))
  = map (fun r => (nth j r 0 * nth j s 0) * (nth j r 0 * nth j s 0)) (rows t).
Proof.
  intros Ht Hs Hj. unfold times_row. cbn [rows]. rewrite map_map.
  apply map_ext_in. intros r Hr.
  unfold well_shaped in Ht. rewrite Forall_forall in Ht.
  rewrite nth_map2 by (rewrite ?(Ht r Hr), ?Hs; exact Hj). reflexivity.
Qed.

Lemma column_times t c j :
  well_shaped t -> (j < ncols t)%nat ->
  map (fun r => nth j r 0) (rows (times t c))
  = map (fun r => nth j r 0 * c) (rows t).
Proof.
  intros Ht Hj. unfold times. cbn [rows]. rewrite map_map.
  apply map_ext_in. intros r Hr.
  unfold well_shaped in Ht. rewrite Forall_forall in Ht.
  rewrite nth_map_lt with (d := 0) by (rewrite (Ht r Hr); exact Hj).
  reflexivity.
Qed.

Lemma nonempty_INR {A} (l : list A) : l <> [] -> INR (length l) <> 0.
Proof.
  intros Hne. apply not_0_INR. destruct l; [congruence | discriminate].
Qed.

(** Subtracting the column means leaves columns of mean zero. *)
Lemma minus_mean_zero t :
  well_shaped t -> rows t <> [] ->
  mean_dim0 (minus_row t (mean_dim0 t)) = zeros (ncols t).
Proof.
  intros Ht Hne.
  pose proof (@length_mean_dim0 t Ht) as Hm.
  pose proof (@well_shaped_minus_row t _ Ht Hm) as Hc.
  apply nth_ext with (d := 0) (d' := 0).
  - rewrite length_mean_dim0 by exact Hc. unfold zeros. now rewrite repeat_length.
  - intros j Hj. rewrite length_mean_dim0 in Hj by exact Hc.
    change (ncols (minus_row t (mean_dim0 t))) with (ncols t) in Hj.
    rewrite nth_mean_dim0 by assumption.
    rewrite column_minus_row by assumption.
    rewrite nth_mean_dim0 by assumption.
    replace (length (rows (minus_row t (mean_dim0 t)))) with (length (rows t))
      by (unfold minus_row; cbn [rows]; now rewrite length_map).
    unfold zeros. rewrite nth_repeat.
    pose proof (@nonempty_INR _ (rows t) Hne). field. assumption.
Qed.

(** Scaling by a number, or column by column, keeps column means zero. *)
Lemma times_mean_zero t c :
  well_shaped t -> mean_dim0 t = zeros (ncols t) ->
  mean_dim0 (times t c) = zeros (ncols t).
Proof.
  intros Ht Hz.
  pose proof (@well_shaped_times t c Ht) as Hc.
  apply nth_ext with (d := 0) (d' := 0).
  - rewrite length_mean_dim0 by exact Hc. unfold zeros. now rewrite repeat_length.
  - intros j Hj. rewrite length_mean_dim0 in Hj by exact Hc.
    change (ncols (times t c)) with (ncols t) in Hj.
    rewrite nth_mean_dim0 by assumption.
    rewrite column_times by assumption. rewrite rsum_scale.
    assert (Hj0 : nth j (mean_dim0 t) 0 = 0)
      by (rewrite Hz; unfold zeros; apply nth_repeat).
    rewrite nth_mean_dim0 in Hj0 by assumption.
    replace (length (rows (times t c))) with (length (rows t))
      by (unfold times; cbn [rows]; now rewrite length_map).
    unfold zeros. rewrite nth_repeat.
    match goal with |- ?S * c / ?n = 0 =>
      replace (S * c / n) with (S / n * c) by (unfold Rdiv; ring)
    end.
    rewrite Hj0. lra.
Qed.

Lemma times_row_mean_zero t s :
  well_shaped t -> length s = ncols t -> mean_dim0 t = zeros (ncols t) ->
  mean_dim0 (times_row t s) = zeros (ncols t).
Proof.
  intros Ht Hs Hz.
  pose proof (@well_shaped_times_row t _ Ht Hs) as Hc.
  apply nth_ext with (d := 0) (d' := 0).
  - rewrite length_mean_dim0 by exact Hc. unfold zeros. now rewrite repeat_length.
  - intros j Hj. rewrite length_mean_dim0 in Hj by exact Hc.
    change (ncols (times_row t s)) with (ncols t) in Hj.
    rewrite nth_mean_dim0 by assumption.
    rewrite column_times_row by assumption. rewrite rsum_scale.
    assert (Hj0 : nth j (mean_dim0 t) 0 = 0)
      by (rewrite Hz; unfold zeros; apply nth_repeat).
    rewrite nth_mean_dim0 in Hj0 by assumption.
    replace (length (rows (times_row t s))) with (length (rows t))
      by (unfold times_row; cbn [rows]; now rewrite length_map).
    unfold zeros. rewrite nth_repeat.
    match goal with |- ?S * ?c / ?n = 0 =>
      replace (S * c / n) with (S / n * c) by (unfold Rdiv; ring)
    end.
    rewrite Hj0. lra.
Qed.

(** Dividing each column by its norm gives columns of norm one. *)
Lemma unit_col_norms t :
  well_shaped t -> Forall (fun c => c <> 0) (col_norms t) ->
  col_norms (times_row t (map (fun c => 1 / c) (col_norms t))) = repeat 1 (ncols t).
Proof.
  intros Ht Hnz.
  assert (Hs : length (map (fun c => 1 / c) (col_norms t)) = ncols t)
    by (rewrite length_map; now apply length_col_norms).
  pose proof (@well_shaped_times_row t _ Ht Hs) as Hc.
  apply nth_ext with (d := 0) (d' := 1).
  - rewrite length_col_norms by exact Hc. now rewrite repeat_length.
  - intros j Hj. rewrite length_col_norms in Hj by exact Hc.
    change (ncols (times_row t _)) with (ncols t) in Hj.
    rewrite nth_col_norms by assumption.
    rewrite nth_repeat.
    rewrite column_sq_times_row by assumption.
    rewrite nth_map_lt with (d := 0) by (rewrite length_col_norms; auto).
    set (cn := nth j (col_norms t) 0).
    assert (Hcn : cn <> 0).
    { rewrite Forall_forall in Hnz. apply Hnz. apply nth_In.
      rewrite length_col_norms; auto. }
    assert (Hq : rsum (map (fun r => nth j r 0 * nth j r 0) (rows t)) = cn * cn).
    { unfold cn. rewrite nth_col_norms by assumption.
      rewrite sqrt_sqrt; [reflexivity|].
      clear. induction (rows t) as [|r rs IH]; cbn [map]; [unfold rsum; cbn; lra|].
      rewrite rsum_cons. nra. }
    rewrite map_ext with (g := fun r => (nth j r 0 * nth j r 0) * (1 / cn * (1 / cn)))
      by (intros r; ring).
    rewrite rsum_scale, Hq.
    replace (cn * cn * (1 / cn * (1 / cn))) with 1 by (field; assumption).
    apply sqrt_1.
Qed.

End CentringFacts.
Section NormalizeRuns.
Import Vec Py Preprocessing Centring.
Local Open Scope R_scope.

Lemma nth_mean_minus_row t m j :
  well_shaped t -> rows t <> [] -> length m = ncols t -> (j < ncols t)%nat ->
  nth j (mean_dim0 (minus_row t m)) 0 = nth j (mean_dim0 t) 0 - nth j m 0.
Proof.
  intros Ht Hne Hm Hj.
  pose proof (@well_shaped_minus_row t _ Ht Hm) as Hc.
  rewrite nth_mean_dim0 by assumption.
  rewrite column_minus_row by assumption.
  rewrite nth_mean_dim0 by assumption.
  replace (length (rows (minus_row t m))) with (length (rows t))
    by (unfold minus_row; cbn [rows]; now rewrite length_map).
  pose proof (@nonempty_INR _ (rows t) Hne). field. assumption.
Qed.

Lemma times_one t : times t 1 = t.
Proof.
  unfold times. destruct t as [d rs]. cbn [ncols rows]. f_equal.
  rewrite <- (map_id rs) at 2. apply map_ext. intros r.
  rewrite <- (map_id r) at 2. apply map_ext. intros x. lra.
Qed.

Lemma centred_heap_train h train val :
  train <> val ->
  centred_heap h train val train = minus_row (h train) (mean_dim0 (h train)).
Proof.
  intros Hne. unfold centred_heap. rewrite upd_other by exact Hne. apply upd_same.
Qed.

Lemma centred_heap_val h train val :
  centred_heap h train val val = minus_row (h val) (mean_dim0 (h train)).
Proof. unfold centred_heap. apply upd_same. Qed.

Lemma centred_heap_other h train val l :
  l <> train -> l <> val -> centred_heap h train val l = h l.
Proof.
  intros H1 H2. unfold centred_heap. now rewrite !upd_other by assumption.
Qed.

Section Separate.
Variable h : heap.
Variables train val : loc.
Hypothesis Hsep : train <> val.
Hypothesis Htrain : well_shaped (h train).
Hypothesis Hcols : ncols (h val) = ncols (h train).

Lemma centring_run (method : string) (k : M heap (loc * loc)) :
  (tr <- load train ;;
   let means := mean_dim0 tr in
   isub train means ;;; isub val means ;;; k)%py h
  = k (centred_heap h train val).
Proof.
  unfold bind at 1. unfold load at 1. cbn beta iota.
  unfold bind at 1. unfold isub. rewrite inplace_run.
  rewrite broadcast_same by now apply length_mean_dim0.
  unfold bind at 1. rewrite inplace_run.
  rewrite (upd_other h _ (not_eq_sym Hsep)).
  rewrite broadcast_same by (rewrite Hcols; now apply length_mean_dim0).
  reflexivity.
Qed.

Lemma unsupported_run method :
  supported method = false ->
  normalize train val method h
  = (Raise (NotImplementedError (not_supported method)), centred_heap h train val).
Proof.
  unfold supported. intros Hm.
  apply Bool.orb_false_iff in Hm as [Hm H3].
  apply Bool.orb_false_iff in Hm as [H1 H2].
  unfold normalize. rewrite H1, H2, H3.
  rewrite centring_run by exact method. reflexivity.
Qed.

Lemma meanonly_run :
  exists h',
    normalize train val "meanonly" h = (Ok (train, val), h') /\
    forall l, h' l = centred_heap h train val l.
Proof.
  unfold normalize. cbn [String.eqb Ascii.eqb Bool.eqb].
  rewrite centring_run by exact "meanonly"%string.
  unfold bind at 1. unfold ret at 1.
  unfold bind at 1. unfold imul_by. rewrite imul_scalar_run.
  unfold bind at 1. rewrite imul_scalar_run.
  unfold ret. eexists. split; [reflexivity|].
  set (c := centred_heap h train val).
  intros l. rewrite (upd_other c _ (not_eq_sym Hsep)).
  fold (times (c train) 1). fold (times (c val) 1). rewrite !times_one.
  unfold upd. destruct (Nat.eqb_spec l val) as [->|_]; [reflexivity|].
  destruct (Nat.eqb_spec l train) as [->|_]; reflexivity.
Qed.

Lemma elementwise_run :
  let c := centred_heap h train val in
  let s := map (fun x => 1 / x) (col_norms (c train)) in
  exists h',
    normalize train val "elementwise" h = (Ok (train, val), h') /\
    h' train = times_row (c train) s /\
    h' val = times_row (c val) s /\
    forall l, l <> train -> l <> val -> h' l = h l.
Proof.
  intros c s. unfold normalize. cbn [String.eqb Ascii.eqb Bool.eqb].
  rewrite centring_run by exact "elementwise"%string. fold c.
  assert (Hc : well_shaped (c train)).
  { unfold c. rewrite centred_heap_train by exact Hsep.
    apply well_shaped_minus_row; [exact Htrain | now apply length_mean_dim0]. }
  assert (Hd : ncols (c train) = ncols (h train))
    by (unfold c; now rewrite centred_heap_train by exact Hsep).
  assert (Hdv : ncols (c val) = ncols (h train))
    by (unfold c; rewrite centred_heap_val; exact Hcols).
  assert (Hs : length s = ncols (h train)).
  { unfold s. rewrite length_map, length_col_norms by exact Hc. exact Hd. }
  unfold bind at 1. unfold bind at 1. unfold load at 1. unfold ret at 1.
  cbn beta iota. fold s.
  unfold bind at 1. unfold imul_by, imul. rewrite inplace_run.
  rewrite broadcast_same by (rewrite Hd; exact Hs).
  unfold bind at 1. rewrite inplace_run.
  rewrite (upd_other c _ (not_eq_sym Hsep)).
  rewrite broadcast_same by (rewrite Hdv; exact Hs).
  unfold ret. eexists. split; [reflexivity|].
  split; [rewrite upd_other by exact Hsep; now rewrite upd_same|].
  split; [now rewrite upd_same|].
  intros l H1 H2. rewrite !upd_other by assumption.
  now apply centred_heap_other.
Qed.

End Separate.

(** X13: [normalize] with a method it does not know, on two separate
    tensors of the same width of which the training one has at least one
    row, raises [NotImplementedError] only after both arguments have had the
    training means subtracted in place: the caller's tensors are changed
    although the call failed. *)
Theorem unsupported_method_after_centring h train val method :
  supported method = false ->
  train <> val -> well_shaped (h train) -> rows (h train) <> [] ->
  ncols (h val) = ncols (h train) ->
  exists h',
    normalize train val method h
    = (Raise (NotImplementedError (not_supported method)), h') /\
    h' train = minus_row (h train) (mean_dim0 (h train)) /\
    h' val = minus_row (h val) (mean_dim0 (h train)) /\
    forall l, l <> train -> l <> val -> h' l = h l.
Proof.
  intros Hm Hsep Htrain _ Hcols. eexists.
  split; [now apply unsupported_run|].
  split; [now apply centred_heap_train|].
  split; [apply centred_heap_val|].
  intros l. apply centred_heap_other.
Qed.

(** X14: "meanonly" on two separate rectangular tensors of the same width
    returns its two arguments; afterwards every column of the training
    tensor has mean zero, while the validation tensor was shifted by the
    training means, so that its column means are its old ones minus the
    training ones; no other object is touched. *)
Theorem meanonly_centres_on_train h train val :
  train <> val -> well_shaped (h train) -> rows (h train) <> [] ->
  ncols (h val) = ncols (h train) ->
  exists h',
    normalize train val "meanonly" h = (Ok (train, val), h') /\
    mean_dim0 (h' train) = zeros (ncols (h train)) /\
    (well_shaped (h val) -> rows (h val) <> [] ->
     mean_dim0 (h' val) = map2 Rminus (mean_dim0 (h val)) (mean_dim0 (h train))) /\
    forall l, l <> train -> l <> val -> h' l = h l.
Proof.
  intros Hsep Htrain Hne Hcols.
  destruct (@meanonly_run h train val Hsep Htrain Hcols) as (h' & Hrun & Hh').
  exists h'. split; [exact Hrun|].
  split; [rewrite Hh', centred_heap_train by exact Hsep; now apply minus_mean_zero|].
  split.
  - intros Hval Hvne. rewrite Hh', centred_heap_val.
    assert (Hm : length (mean_dim0 (h train)) = ncols (h val))
      by (rewrite Hcols; now apply length_mean_dim0).
    apply nth_ext with (d := 0) (d' := 0).
    + rewrite length_mean_dim0
        by (apply well_shaped_minus_row; assumption).
      rewrite length_map2, Hm, length_mean_dim0 by exact Hval.
      cbn [minus_row ncols]. lia.
    + intros j Hj.
      rewrite length_mean_dim0 in Hj by (apply well_shaped_minus_row; assumption).
      cbn [minus_row ncols] in Hj.
      rewrite nth_mean_minus_row by assumption.
      rewrite nth_map2; [reflexivity| |]; rewrite ?Hm, ?length_mean_dim0; auto.
  - intros l H1 H2. rewrite Hh'. now apply centred_heap_other.
Qed.

(** X15: "elementwise" on two separate rectangular tensors of the same
    width, when no column of the training tensor is constant: the call
    returns its arguments, and afterwards every column of the training
    tensor has mean zero and Euclidean norm one. *)
Theorem elementwise_standardises_train h train val :
  train <> val -> well_shaped (h train) -> rows (h train) <> [] ->
  ncols (h val) = ncols (h train) ->
  Forall (fun c => c <> 0)
         (col_norms (minus_row (h train) (mean_dim0 (h train)))) ->
  exists h',
    normalize train val "elementwise" h = (Ok (train, val), h') /\
    mean_dim0 (h' train) = zeros (ncols (h train)) /\
    col_norms (h' train) = repeat 1 (ncols (h train)).
Proof.
  intros Hsep Htrain Hne Hcols Hnz.
  destruct (@elementwise_run h train val Hsep Htrain Hcols) as (h' & Hrun & Ht & _).
  rewrite centred_heap_train in Ht by exact Hsep.
  set (c := minus_row (h train) (mean_dim0 (h train))) in *.
  assert (Hc : well_shaped c)
    by (apply well_shaped_minus_row; [exact Htrain | now apply length_mean_dim0]).
  exists h'. split; [exact Hrun|]. rewrite Ht.
  change (ncols (h train)) with (ncols c). split.
  - apply (@times_row_mean_zero c); [exact Hc| |].
    + rewrite length_map. now apply length_col_norms.
    + change (ncols c) with (ncols (h train)). now apply minus_mean_zero.
  - now apply (@unit_col_norms c).
Qed.

End NormalizeRuns.

Section LegacyRuns.
Import Vec Py Preprocessing Centring.
Local Open Scope R_scope.

(** X16: "legacy" on two separate rectangular tensors of the same width,
    with at least one row between them and rows that are not all zero (their
    mean norm, the divisor of the scale, is not zero), returns its
    arguments, and afterwards the training and validation rows taken
    together have column means zero: the data are centred on the mean of
    both sets, not of the training set. *)
Theorem legacy_centres_both h train val :
  train <> val -> well_shaped (h train) -> well_shaped (h val) ->
  ncols (h val) = ncols (h train) ->
  rows (h train) ++ rows (h val) <> [] ->
  mean (row_norms (mkTensor (ncols (h train)) (rows (h train) ++ rows (h val)))) <> 0 ->
  exists h' joined,
    normalize train val "legacy" h = (Ok (train, val), h') /\
    cat (h' train) (h' val) = Ok joined /\
    mean_dim0 joined = zeros (ncols (h train)).
Proof.
  intros Hsep Htrain Hval Hcols Hne _.
  set (master := mkTensor (ncols (h train)) (rows (h train) ++ rows (h val))).
  assert (Hmaster : well_shaped master).
  { unfold well_shaped, master. cbn [ncols rows]. apply Forall_app. split.
    - exact Htrain.
    - unfold well_shaped in Hval. now rewrite Hcols in Hval. }
  assert (Hm : length (mean_dim0 master) = ncols (h train))
    by now apply (@length_mean_dim0 master).
  set (c := sqrt (INR (ncols master)) / mean (row_norms master)).
  eexists.
  exists (times (minus_row master (mean_dim0 master)) c).
  split; [|split].
  - unfold normalize. cbn [String.eqb Ascii.eqb Bool.eqb].
    unfold bind at 1. unfold load at 1. cbn beta iota.
    unfold bind at 1. unfold load at 1. cbn beta iota.
    unfold bind at 1. unfold lift at 1. unfold cat.
    rewrite <- Hcols, Nat.eqb_refl, Hcols. fold master.
    unfold bind at 1. unfold isub. rewrite inplace_run.
    rewrite broadcast_same by exact Hm.
    unfold bind at 1. rewrite inplace_run.
    rewrite (upd_other h _ (not_eq_sym Hsep)).
    rewrite broadcast_same by (rewrite Hcols; exact Hm).
    unfold bind at 1. unfold imul_by. rewrite imul_scalar_run.
    unfold bind at 1. rewrite imul_scalar_run.
    unfold ret. reflexivity.
  - rewrite upd_same. rewrite (upd_other _ _ Hsep). rewrite upd_same.
    rewrite (upd_other _ _ (not_eq_sym Hsep)). rewrite upd_same.
    rewrite (upd_other _ _ Hsep). rewrite upd_same.
    unfold cat. cbn [ncols rows]. rewrite Hcols, Nat.eqb_refl.
    unfold times, minus_row, master. cbn [ncols rows].
    now rewrite !map_app.
  - change (ncols (h train)) with (ncols (minus_row master (mean_dim0 master))).
    apply (@times_mean_zero (minus_row master (mean_dim0 master)) c).
    + now apply well_shaped_minus_row.
    + change (ncols (minus_row master (mean_dim0 master))) with (ncols master).
      now apply minus_mean_zero.
Qed.

(** X17: tensors of different widths.  "legacy" raises before it changes
    anything.  The other methods raise after the training tensor has been
    centred in place (unless it has one column, whose mean broadcasts). *)
Theorem width_mismatch h train val :
  train <> val -> well_shaped (h train) ->
  ncols (h val) <> ncols (h train) ->
  (exists e, normalize train val "legacy" h = (Raise e, h)) /\
  (forall method,
     method <> "legacy"%string -> ncols (h train) <> 1%nat ->
     exists e h',
       normalize train val method h = (Raise e, h') /\
       h' train = minus_row (h train) (mean_dim0 (h train)) /\
       forall l, l <> train -> h' l = h l).
Proof.
  intros Hsep Htrain Hcols. split.
  - unfold normalize. cbn [String.eqb Ascii.eqb Bool.eqb].
    unfold bind at 1. unfold load at 1. cbn beta iota.
    unfold bind at 1. unfold load at 1. cbn beta iota.
    unfold bind at 1. unfold lift at 1. unfold cat.
    destruct (Nat.eqb_spec (ncols (h train)) (ncols (h val))) as [Heq|_];
      [now elim Hcols|]. eauto.
  - intros method Hm H1. apply String.eqb_neq in Hm.
    unfold normalize. rewrite Hm.
    unfold bind at 1. unfold load at 1. cbn beta iota.
    unfold bind at 1. unfold isub. rewrite inplace_run.
    rewrite broadcast_same by now apply length_mean_dim0.
    unfold bind at 1. rewrite inplace_run.
    rewrite (upd_other h _ (not_eq_sym Hsep)).
    pose proof (@length_mean_dim0 (h train) Htrain) as Hlen.
    unfold broadcast.
    destruct (Nat.eqb_spec (length (mean_dim0 (h train))) (ncols (h val))) as [Heq|_];
      [elim Hcols; congruence|].
    destruct (mean_dim0 (h train)) as [|x [|y m]] eqn:Hmean.
    + eexists. eexists. split; [reflexivity|]. split; [apply upd_same|].
      intros l Hl. now apply upd_other.
    + cbn in Hlen. congruence.
    + eexists. eexists. split; [reflexivity|]. split; [apply upd_same|].
      intros l Hl. now apply upd_other.
Qed.

End LegacyRuns.

Section NormalizeRunExamples.
Import Vec Py Preprocessing Centring.
Local Open Scope R_scope.
Local Open Scope string_scope.

Local Notation "'stored'" := (two_tensors (column 1 3) (column 5 9)).

Lemma unsupported_method_after_centring_witness :
  exists h',
    normalize 0%nat 1%nat "zscore" stored
    = (Raise (NotImplementedError (not_supported "zscore")), h') /\
    h' 0%nat = minus_row (stored 0%nat) (mean_dim0 (stored 0%nat)) /\
    h' 1%nat = minus_row (stored 1%nat) (mean_dim0 (stored 0%nat)) /\
    forall l, l <> 0%nat -> l <> 1%nat -> h' l = stored l.
Proof.
  apply (@unsupported_method_after_centring stored 0%nat 1%nat "zscore").
  - reflexivity.
  - discriminate.
  - repeat constructor.
  - discriminate.
  - reflexivity.
Defined.

Lemma meanonly_centres_on_train_witness :
  exists h',
    normalize 0%nat 1%nat "meanonly" stored = (Ok (0%nat, 1%nat), h') /\
    mean_dim0 (h' 0%nat) = zeros (ncols (stored 0%nat)) /\
    mean_dim0 (h' 1%nat)
    = map2 Rminus (mean_dim0 (stored 1%nat)) (mean_dim0 (stored 0%nat)) /\
    forall l, l <> 0%nat -> l <> 1%nat -> h' l = stored l.
Proof.
  destruct (@meanonly_centres_on_train stored 0%nat 1%nat)
    as (h' & Hrun & Htrain & Hval & Hrest).
  - discriminate.
  - repeat constructor.
  - discriminate.
  - reflexivity.
  - exists h'. split; [exact Hrun|]. split; [exact Htrain|].
    split; [|exact Hrest]. apply Hval; [repeat constructor | discriminate].
Defined.

Lemma elementwise_standardises_train_witness :
  exists h',
    normalize 0%nat 1%nat "elementwise" stored = (Ok (0%nat, 1%nat), h') /\
    mean_dim0 (h' 0%nat) = zeros (ncols (stored 0%nat)) /\
    col_norms (h' 0%nat) = repeat 1 (ncols (stored 0%nat)).
Proof.
  apply (@elementwise_standardises_train stored 0%nat 1%nat).
  - discriminate.
  - repeat constructor.
  - discriminate.
  - reflexivity.
  - constructor; [|constructor].
    cbv - [Rplus Rminus Rmult Rdiv Rinv Ropp IZR sqrt].
    intros H. apply sqrt_eq_0 in H; lra.
Defined.

Lemma legacy_centres_both_witness :
  exists h' joined,
    normalize 0%nat 1%nat "legacy" stored = (Ok (0%nat, 1%nat), h') /\
    cat (h' 0%nat) (h' 1%nat) = Ok joined /\
    mean_dim0 joined = zeros (ncols (stored 0%nat)).
Proof.
  apply (@legacy_centres_both stored 0%nat 1%nat).
  - discriminate.
  - repeat constructor.
  - repeat constructor.
  - reflexivity.
  - discriminate.
  - cbv - [Rplus Rminus Rmult Rdiv Rinv Ropp IZR sqrt].
    assert (H1 : 0 < sqrt (1 * 1 + 0)) by (apply sqrt_lt_R0; lra).
    pose proof (sqrt_pos (3 * 3 + 0)). pose proof (sqrt_pos (5 * 5 + 0)).
    pose proof (sqrt_pos (9 * 9 + 0)). lra.
Defined.

Local Notation "'uneven'" :=
  (two_tensors (mkTensor 2 [[1; 2]; [3; 4]]) (column 5 9)).

Lemma width_mismatch_witness :
  (exists e, normalize 0%nat 1%nat "legacy" uneven = (Raise e, uneven)) /\
  (exists e h',
     normalize 0%nat 1%nat "meanonly" uneven = (Raise e, h') /\
     h' 0%nat = minus_row (uneven 0%nat) (mean_dim0 (uneven 0%nat)) /\
     forall l, l <> 0%nat -> h' l = uneven l).
Proof.
  destruct (@width_mismatch uneven 0%nat 1%nat) as [Hlegacy Hother].
  - discriminate.
  - repeat constructor.
  - discriminate.
  - split; [exact Hlegacy|]. apply Hother; discriminate.
Defined.

End NormalizeRunExamples.

(** ** [probes.py]: projection and the constrained probes *)

Section ProjectionFacts.
Import Vec Probes ProbeFamily.
Local Open Scope R_scope.

Lemma dot_nil_l v : dot [] v = 0.
Proof. reflexivity. Qed.

Lemma dot_nil_r u : dot u [] = 0.
Proof. destruct u; reflexivity. Qed.

Lemma dot_cons a u b v : dot (a :: u) (b :: v) = a * b + dot u v.
Proof. reflexivity. Qed.

Lemma dot_comm u v : dot u v = dot v u.
Proof.
  revert v. induction u as [|a u IH]; intros [|b v];
    rewrite ?dot_nil_l, ?dot_nil_r, ?dot_cons; try reflexivity.
  rewrite IH. lra.
Qed.

Lemma dot_vscale_l a u v : dot (vscale a u) v = a * dot u v.
Proof.
  revert v. induction u as [|x u IH]; intros [|y v]; unfold vscale in *;
    cbn [map]; rewrite ?dot_nil_l, ?dot_nil_r, ?dot_cons; try lra.
  rewrite IH. lra.
Qed.

Lemma dot_vadd_l u v c :
  length u = length v -> dot (vadd u v) c = dot u c + dot v c.
Proof.
  revert v c. induction u as [|x u IH]; intros [|y v] c Hlen; try discriminate.
  - unfold vadd, dot, rsum. cbn. lra.
  - destruct c as [|z c]; [now rewrite !dot_nil_r; lra|].
    unfold vadd in *. cbn [combine map fst snd]. rewrite !dot_cons.
    rewrite IH by (cbn in Hlen; lia). lra.
Qed.

Lemma dot_vsub_l u v c :
  length u = length v -> dot (vsub u v) c = dot u c - dot v c.
Proof.
  revert v c. induction u as [|x u IH]; intros [|y v] c Hlen; try discriminate.
  - unfold vsub, dot, rsum. cbn. lra.
  - destruct c as [|z c]; [now rewrite !dot_nil_r; lra|].
    unfold vsub in *. cbn [combine map fst snd]. rewrite !dot_cons.
    rewrite IH by (cbn in Hlen; lia). lra.
Qed.

Lemma dot_zeros_l h c : dot (zeros h) c = 0.
Proof.
  revert c. induction h as [|h IH]; intros c; [reflexivity|].
  destruct c as [|z c]; [apply dot_nil_r|].
  unfold zeros in *. cbn [repeat]. rewrite dot_cons, IH. lra.
Qed.

Lemma vadd_length u v : length (vadd u v) = Nat.min (length u) (length v).
Proof. unfold vadd. now rewrite length_map, length_combine. Qed.

Lemma vsub_length u v : length (vsub u v) = Nat.min (length u) (length v).
Proof. unfold vsub. now rewrite length_map, length_combine. Qed.

Lemma vscale_length a v : length (vscale a v) = length v.
Proof. unfold vscale. apply length_map. Qed.

Lemma length_weighted_sum h ip cs :
  Forall (fun c => length c = h) cs -> length (weighted_sum h ip cs) = h.
Proof.
  intros Hcs. unfold weighted_sum. revert ip.
  induction Hcs as [|c cs Hc _ IH]; intros [|a ip]; cbn [combine map fold_right];
    try apply repeat_length.
  cbn [fst snd]. rewrite vadd_length, vscale_length, Hc, IH. lia.
Qed.

Lemma dot_weighted_sum h ip cs c' :
  Forall (fun c => length c = h) cs ->
  dot (weighted_sum h ip cs) c'
  = rsum (map (fun p => fst p * dot (snd p) c') (combine ip cs)).
Proof.
  intros Hcs. revert ip.
  induction Hcs as [|c cs Hc Hcs IH]; intros [|a ip];
    try (unfold weighted_sum; cbn [combine map fold_right]; apply dot_zeros_l).
  unfold weighted_sum in *. cbn [combine map fold_right fst snd].
  rewrite dot_vadd_l.
  - rewrite dot_vscale_l, IH. reflexivity.
  - rewrite vscale_length, Hc. symmetry.
    now apply (@length_weighted_sum h ip cs).
Qed.

Lemma combine_map_self {A B} (f : A -> B) l :
  combine (map f l) l = map (fun a => (f a, a)) l.
Proof. induction l as [|a l IH]; cbn; [reflexivity | now rewrite IH]. Qed.

(** The weighted sum of orthonormal rows has, along a row orthogonal to all
    of them, no component; along one of them, that row's weight. *)
Lemma orthogonal_sum x cs c' :
  Forall (fun c => dot c c' = 0) cs ->
  rsum (map (fun c => dot x c * dot c c') cs) = 0.
Proof.
  induction 1 as [|c cs Hc _ IH]; cbn [map]; [reflexivity|].
  change (rsum (?a :: ?l)) with (a + rsum l). rewrite IH, Hc. lra.
Qed.

Lemma orthonormal_sum x cs c' :
  orthonormal cs -> In c' cs ->
  rsum (map (fun c => dot x c * dot c c') cs) = dot x c'.
Proof.
  intros [Hpairs Hunit]. revert Hunit.
  induction Hpairs as [|c cs Hhead Hpairs IH]; intros Hunit Hin; [destruct Hin|].
  inversion Hunit as [|? ? Hc Hunit']; subst.
  cbn [map]. change (rsum (?a :: ?l)) with (a + rsum l).
  destruct Hin as [<-|Hin].
  - rewrite Hc, orthogonal_sum; [lra|].
    eapply Forall_impl; [|exact Hhead]. intros b Hb. now rewrite dot_comm.
  - rewrite IH by assumption.
    rewrite Forall_forall in Hhead. rewrite (Hhead c' Hin). lra.
Qed.

Lemma project_some x cs :
  Forall (fun c => length c = length x) cs ->
  project x cs
  = Some (vsub x (weighted_sum (length x) (inner_products x cs) cs)).
Proof.
  intros Hcs. unfold project.
  replace (forallb _ cs) with true; [reflexivity|].
  symmetry. apply forallb_forall. rewrite Forall_forall in Hcs.
  intros c Hc. apply Nat.eqb_eq. now apply Hcs.
Qed.

Lemma project_widths x cs y :
  project x cs = Some y ->
  Forall (fun c => length c = length x) cs /\ length y = length x.
Proof.
  unfold project.
  destruct (forallb (fun c => Nat.eqb (length c) (length x)) cs) eqn:Hall;
    [|discriminate].
  intros [= <-]. rewrite forallb_forall in Hall.
  assert (Hcs : Forall (fun c => length c = length x) cs).
  { apply Forall_forall. intros c Hc. apply Nat.eqb_eq. now apply Hall. }
  split; [exact Hcs|].
  rewrite vsub_length, length_weighted_sum by exact Hcs. lia.
Qed.

Lemma dot_project x cs y c' :
  project x cs = Some y ->
  dot y c' = dot x c' - rsum (map (fun c => dot x c * dot c c') cs).
Proof.
  intros Hp. destruct (project_widths _ _ Hp) as [Hcs _].
  rewrite project_some in Hp by exact Hcs. injection Hp as <-.
  rewrite dot_vsub_l by (symmetry; now apply length_weighted_sum).
  rewrite dot_weighted_sum by exact Hcs.
  unfold inner_products. rewrite combine_map_self, map_map. reflexivity.
Qed.

Lemma vscale_zero c : vscale 0 c = zeros (length c).
Proof.
  unfold vscale, zeros. induction c as [|x c IH]; cbn [map length repeat];
    [reflexivity|]. rewrite IH. f_equal. lra.
Qed.

Lemma vadd_zeros h : vadd (zeros h) (zeros h) = zeros h.
Proof.
  unfold vadd, zeros. induction h as [|h IH]; cbn [repeat combine map fst snd];
    [reflexivity|]. rewrite IH. f_equal. lra.
Qed.

Lemma vsub_zeros y : vsub y (zeros (length y)) = y.
Proof.
  unfold vsub, zeros. induction y as [|a y IH]; cbn [length repeat combine map fst snd];
    [reflexivity|]. rewrite IH. f_equal. lra.
Qed.

Lemma weighted_sum_zero h ip cs :
  Forall (fun c => length c = h) cs -> Forall (fun a => a = 0) ip ->
  weighted_sum h ip cs = zeros h.
Proof.
  intros Hcs. revert ip. unfold weighted_sum.
  induction Hcs as [|c cs Hc _ IH]; intros [|a ip] Hip; try reflexivity.
  inversion Hip; subst. cbn [combine map fold_right fst snd].
  rewrite IH by assumption. rewrite vscale_zero. apply vadd_zeros.
Qed.

Lemma project_is_orthogonal x cs y c :
  orthonormal cs -> project x cs = Some y -> In c cs -> dot y c = 0.
Proof.
  intros Hon Hy Hc. rewrite (dot_project _ _ c Hy).
  rewrite orthonormal_sum by assumption. lra.
Qed.

Lemma project_fixed y cs :
  Forall (fun c => length c = length y) cs ->
  (forall c, In c cs -> dot y c = 0) ->
  project y cs = Some y.
Proof.
  intros Hcs Horth. rewrite project_some by exact Hcs. f_equal.
  rewrite weighted_sum_zero; [apply vsub_zeros | exact Hcs |].
  unfold inner_products. apply Forall_map, Forall_forall. exact Horth.
Qed.


End ProjectionFacts.
Section ProbeFamilyFacts.
Import Vec Probes ProbeFamily.
Local Open Scope R_scope.



End ProbeFamilyFacts.

Section ProbeFamilyExamples.
Import Vec Probes ProbeFamily.
Local Open Scope R_scope.

Lemma axis_orthonormal : orthonormal [[1; 0; 0]; [0; 1; 0]].
Proof.
  split.
  - repeat constructor. unfold dot, rsum. cbn. lra.
  - repeat constructor; unfold dot, rsum; cbn; lra.
Qed.


Local Notation "'constrained'" :=
  (mkLinearOrthogonalProbe [2; -1; 3] 1 [[1; 0; 0]; [0; 1; 0]]).



End ProbeFamilyExamples.

(** ** [MLPProbe]: the layers and the forward pass *)

Section MLPFacts.
Import Float MLP.
Context {F : Format}.
Variable new_linear : nat -> nat -> nat -> Linear.
Hypothesis new_linear_shaped :
  forall i a b, in_features (new_linear i a b) = a /\
                out_features (new_linear i a b) = b /\
                linear_shaped (new_linear i a b).

Lemma last_nonempty {A} (c : A) rest a b : last (c :: rest) a = last (c :: rest) b.
Proof.
  revert c. induction rest as [|d rest IH]; intros c; [reflexivity|].
  change (last (d :: rest) a = last (d :: rest) b). apply IH.
Qed.

Lemma last_shift {A} (b : A) rest a : last (b :: rest) a = last rest b.
Proof.
  destruct rest as [|c rest]; [reflexivity|].
  change (last (c :: rest) a = last (c :: rest) b). apply last_nonempty.
Qed.

Lemma apply_linear_shaped l x :
  linear_shaped l -> length x = in_features l ->
  exists y, apply_linear l x = Some y /\ length y = out_features l.
Proof.
  intros (HW & _ & Hb) Hx. unfold apply_linear.
  apply Nat.eqb_eq in Hx. rewrite Hx. eexists. split; [reflexivity|].
  rewrite length_map, length_combine, HW, Hb. lia.
Qed.

Lemma run_layers_app l1 l2 x :
  run_layers (l1 ++ l2) x
  = match run_layers l1 x with Some y => run_layers l2 y | None => None end.
Proof.
  revert x. induction l1 as [|l l1 IH]; intros x; cbn [app run_layers];
    [reflexivity|]. destruct (apply_layer l x); [apply IH | reflexivity].
Qed.

Lemma mlp_layers_run i a rest x :
  length x = a ->
  exists y, run_layers (mlp_layers new_linear i (a :: rest)) x = Some y /\
            length y = last rest a.
Proof.
  revert i a x. induction rest as [|b rest IH]; intros i a x Hx.
  - cbn [mlp_layers run_layers last]. eauto.
  - cbn [mlp_layers]. rewrite run_layers_app.
    destruct (new_linear_shaped i a b) as (Hin & Hout & Hshape).
    assert (Hfirst : exists x', run_layers (if Nat.eqb i 0 then [] else [ReLU]) x
                                = Some x' /\ length x' = a).
    { destruct (Nat.eqb i 0); cbn [run_layers apply_layer]; eexists;
        (split; [reflexivity|]); rewrite ?length_map; exact Hx. }
    destruct Hfirst as (x' & -> & Hx').
    cbn [app run_layers apply_layer].
    destruct (@apply_linear_shaped (new_linear i a b) x' Hshape) as (y & -> & Hy);
      [congruence|].
    destruct (IH (S i) b y) as (z & Hz & Hlen); [congruence|].
    exists z. split; [exact Hz|]. rewrite Hlen. symmetry. apply last_shift.
Qed.

Lemma length_mlp_layers i sizes :
  length (mlp_layers new_linear i sizes)
  = ((length sizes - 1) + (length sizes - 1 - (if Nat.eqb i 0 then 1 else 0)))%nat.
Proof.
  revert i. induction sizes as [|a [|b rest] IH]; intros i; try reflexivity.
  change (mlp_layers new_linear i (a :: b :: rest))
    with ((if Nat.eqb i 0 then [] else [ReLU])
            ++ [LinearLayer (new_linear i a b)]
            ++ mlp_layers new_linear (S i) (b :: rest)).
  rewrite !length_app, IH. cbn [length Nat.eqb].
  destruct (Nat.eqb i 0); cbn [length]; lia.
Qed.

(** From the second iteration on, the loop appends a ReLU and a linear
    layer in turn. *)
Lemma later_layers j sizes k :
  (S k < length sizes)%nat ->
  nth_error (mlp_layers new_linear (S j) sizes) (2 * k) = Some ReLU /\
  nth_error (mlp_layers new_linear (S j) sizes) (2 * k + 1)
  = Some (LinearLayer (new_linear (S j + k) (nth k sizes 0%nat)
                                  (nth (S k) sizes 0%nat))).
Proof.
  revert j k. induction sizes as [|a sizes IH]; intros j k Hk;
    [cbn [length] in Hk; lia|].
  destruct sizes as [|b rest]; [cbn [length] in Hk; lia|].
  change (mlp_layers new_linear (S j) (a :: b :: rest))
    with (ReLU :: LinearLayer (new_linear (S j) a b)
               :: mlp_layers new_linear (S (S j)) (b :: rest)).
  destruct k as [|k].
  - cbn [Nat.mul Nat.add nth_error nth]. rewrite Nat.add_0_r. split; reflexivity.
  - replace (2 * S k)%nat with (S (S (2 * k))) by lia.
    replace (S (S (2 * k)) + 1)%nat with (S (S (2 * k + 1))) by lia.
    cbn [nth_error]. destruct (IH (S j) k) as [Hrelu Hlin];
      [cbn [length] in *; lia|].
    split; [exact Hrelu|]. rewrite Hlin.
    replace (S (S j) + k)%nat with (S j + S k)%nat by lia. reflexivity.
Qed.

(** X22: the modules [MLPProbe.__init__] builds, and what [forward] makes
    of them.  For n layer sizes there are 2(n-1)-1 modules: module 2i is
    the i-th linear layer, from size i to size i+1, and between two linear
    layers there is a ReLU.  So, the linear layers having the shapes asked
    for, [forward] on a row of the first size returns a row of the last
    size whose entries are numbers of [0,1] or NaN.  For fewer than two
    sizes there is no module and [forward] is the sigmoid alone. *)
Theorem mlp_forward_typed layer_sizes x :
  length (mlp_init new_linear layer_sizes) = (2 * (length layer_sizes - 1) - 1)%nat /\
  (forall i, (S i < length layer_sizes)%nat ->
     nth_error (mlp_init new_linear layer_sizes) (2 * i)
     = Some (LinearLayer (new_linear i (nth i layer_sizes 0%nat)
                                     (nth (S i) layer_sizes 0%nat)))) /\
  (forall i, (S (S i) < length layer_sizes)%nat ->
     nth_error (mlp_init new_linear layer_sizes) (2 * i + 1) = Some ReLU) /\
  ((length layer_sizes < 2)%nat ->
   mlp_forward (mlp_init new_linear layer_sizes) x = Some (map fsigmoid x)) /\
  ((2 <= length layer_sizes)%nat -> length x = hd 0%nat layer_sizes ->
   exists y, mlp_forward (mlp_init new_linear layer_sizes) x = Some y /\
             length y = last layer_sizes 0%nat /\
             Forall (fun c => c = Nan \/ unit_credence c) y).
Proof.
  unfold mlp_init. split; [|split; [|split; [|split]]].
  - rewrite length_mlp_layers. cbn [Nat.eqb]. lia.
  - intros i Hi. destruct layer_sizes as [|a [|b rest]];
      [cbn [length] in Hi; lia | cbn [length] in Hi; lia|].
    change (mlp_layers new_linear 0 (a :: b :: rest))
      with (LinearLayer (new_linear 0 a b)
              :: mlp_layers new_linear 1 (b :: rest)).
    destruct i as [|i]; [reflexivity|].
    replace (2 * S i)%nat with (S (2 * i + 1)) by lia. cbn [nth_error].
    destruct (@later_layers 0%nat (b :: rest) i) as [_ Hlin];
      [cbn [length] in *; lia|].
    rewrite Hlin. reflexivity.
  - intros i Hi. destruct layer_sizes as [|a [|b rest]];
      [cbn [length] in Hi; lia | cbn [length] in Hi; lia|].
    change (mlp_layers new_linear 0 (a :: b :: rest))
      with (LinearLayer (new_linear 0 a b)
              :: mlp_layers new_linear 1 (b :: rest)).
    replace (2 * i + 1)%nat with (S (2 * i)) by lia. cbn [nth_error].
    apply later_layers. cbn [length] in *. lia.
  - intros Hlt. destruct layer_sizes as [|a [|b rest]]; try reflexivity.
    cbn [length] in Hlt. lia.
  - intros Hge Hx. destruct layer_sizes as [|a rest]; [cbn in Hge; lia|].
    cbn [hd] in Hx.
    destruct (@mlp_layers_run 0%nat a rest x Hx) as (y & Hy & Hlen).
    unfold mlp_forward. rewrite Hy. eexists. split; [reflexivity|].
    split.
    + rewrite length_map, Hlen. symmetry.
      destruct rest as [|b rest]; [cbn in Hge; lia|].
      change (last (b :: rest) 0%nat = last (b :: rest) a). apply last_nonempty.
    + apply Forall_map, Forall_forall. intros z _.
      destruct z as [r| | |]; [right|right|right|left; reflexivity];
        apply fsigmoid_range; discriminate.
Qed.

End MLPFacts.

Section MLPExamples.
Import Float MLP.
Local Open Scope R_scope.

Lemma zero_linear_shaped i a b :
  in_features (zero_linear i a b) = a /\
  out_features (zero_linear i a b) = b /\
  linear_shaped (zero_linear i a b).
Proof.
  split; [reflexivity|]. split; [reflexivity|].
  unfold linear_shaped, zero_linear.
  cbn [lin_weight lin_bias in_features out_features].
  rewrite !repeat_length. split; [reflexivity|]. split; [|reflexivity].
  apply Forall_forall. intros row Hrow. apply repeat_spec in Hrow. subst row.
  apply repeat_length.
Qed.

Lemma mlp_forward_typed_witness :
  length (mlp_init zero_linear [2; 3; 1]%nat) = 3%nat /\
  nth_error (mlp_init zero_linear [2; 3; 1]%nat) 1 = Some ReLU /\
  nth_error (mlp_init zero_linear [2; 3; 1]%nat) 2
  = Some (LinearLayer (zero_linear 1 3 1)) /\
  exists y,
    @mlp_forward binary32_range (mlp_init zero_linear [2; 3; 1]%nat)
                 [Finite 1; Finite 2] = Some y /\
    length y = 1%nat /\
    Forall (fun c => c = Nan \/ unit_credence c) y.
Proof.
  destruct (@mlp_forward_typed binary32_range zero_linear zero_linear_shaped
              [2; 3; 1]%nat [Finite 1; Finite 2])
    as (Hcount & Hlinear & Hrelu & _ & Hforward).
  split; [exact Hcount|].
  split; [apply (Hrelu 0%nat); cbn; lia|].
  split; [apply (Hlinear 1%nat); cbn; lia|].
  apply Hforward; [cbn; lia | reflexivity].
Defined.

End MLPExamples.

(** ** [burns_norm.py]: what [BurnsNorm] achieves *)

Section BurnsNormFacts.
Import Vec BurnsNorm.
Local Open Scope R_scope.

Lemma total_ext n f g :
  (forall i, (i < n)%nat -> f i = g i) -> total n f = total n g.
Proof.
  intros H. unfold total. f_equal. apply map_ext_in.
  intros i Hi. apply in_seq in Hi. apply H. lia.
Qed.

Lemma total_shift n f c : total n (fun i => f i - c) = total n f - INR n * c.
Proof. unfold total. now rewrite rsum_shift, length_seq. Qed.

Lemma total_scale n f c : total n (fun i => f i * c) = total n f * c.
Proof. unfold total. now rewrite rsum_scale. Qed.

Lemma total_nonneg n f : (forall i, 0 <= f i) -> 0 <= total n f.
Proof.
  intros H. unfold total. induction (seq 0 n) as [|i l IH]; cbn [map].
  - unfold rsum. cbn. lra.
  - rewrite rsum_cons. specialize (H i). lra.
Qed.

Lemma sizes_x_normalized x :
  size0 (x_normalized x) = size0 x /\ size1 (x_normalized x) = size1 x /\
  size2 (x_normalized x) = size2 x.
Proof. unfold x_normalized. destruct (Nat.ltb 1 (size0 x)); now cbn. Qed.

Lemma sizes_forward scale x :
  size0 (forward scale x) = size0 x /\ size1 (forward scale x) = size1 x /\
  size2 (forward scale x) = size2 x.
Proof.
  unfold forward. destruct scale; cbn [negb size0 size1 size2];
    apply sizes_x_normalized.
Qed.

(** With more than one example, the centred tensor sums to zero along
    dimension 0. *)
Lemma x_normalized_centred x j k :
  (1 < size0 x)%nat ->
  total (size0 x) (fun i => at_ (x_normalized x) i j k) = 0.
Proof.
  intros Hn. unfold x_normalized. apply Nat.ltb_lt in Hn as Hb. rewrite Hb.
  cbn [at_]. rewrite total_shift. unfold mean_dim0.
  assert (INR (size0 x) <> 0) by (apply not_0_INR; lia).
  field. assumption.
Qed.

Lemma std_nonneg y j k : 0 <= std y j k.
Proof.
  unfold std. apply Rmult_le_pos; [apply sqrt_pos|].
  destruct (Req_dec (sqrt (INR (size0 y))) 0) as [-> | Hne].
  - rewrite Rinv_0. lra.
  - left. apply Rinv_0_lt_compat. pose proof (sqrt_pos (INR (size0 y))). lra.
Qed.

Lemma avg_norm_nonneg y j : (0 < size2 y)%nat -> 0 <= avg_norm y j.
Proof.
  intros Hd. unfold avg_norm. apply Rmult_le_pos.
  - apply total_nonneg. intros k. apply std_nonneg.
  - left. apply Rinv_0_lt_compat. apply lt_0_INR. exact Hd.
Qed.

(** Dividing each variant by a positive number divides its [std] by it. *)
Lemma std_divided y (a : nat -> R) j k :
  0 < a j ->
  std (mkTensor (size0 y) (size1 y) (size2 y) (fun i j k => at_ y i j k / a j)) j k
  = std y j k / a j.
Proof.
  intros Ha. unfold std. cbn [size0 at_].
  rewrite total_ext with (g := fun i => at_ y i j k * at_ y i j k * (/ a j * / a j))
    by (intros i _; unfold Rdiv; ring).
  rewrite total_scale.
  rewrite sqrt_mult_alt by (apply total_nonneg; intros i; nra).
  rewrite sqrt_square by (left; now apply Rinv_0_lt_compat).
  unfold Rdiv. ring.
Qed.

Lemma forward_centred scale x j k :
  (1 < size0 x)%nat ->
  total (size0 x) (fun i => at_ (forward scale x) i j k) = 0.
Proof.
  intros Hn. unfold forward. destruct scale; cbn [negb].
  - cbn [at_]. unfold Rdiv. rewrite total_scale.
    rewrite x_normalized_centred by exact Hn. lra.
  - now apply x_normalized_centred.
Qed.

(** X23: [BurnsNorm] on more than one example centres the data: in the
    output every entry position sums to zero over the examples, without
    scaling and, where the variant's centred data do not vanish (the divisor
    [avg_norm] is not zero), with scaling; the shape is the input's. *)
Theorem burns_norm_centres scale x j k :
  (1 < size0 x)%nat ->
  (scale = true -> avg_norm (x_normalized x) j <> 0) ->
  size0 (forward scale x) = size0 x /\
  size1 (forward scale x) = size1 x /\
  size2 (forward scale x) = size2 x /\
  total (size0 x) (fun i => at_ (forward scale x) i j k) = 0.
Proof.
  intros Hn _. destruct (sizes_forward scale x) as (H0 & H1 & H2).
  repeat split; try assumption.
  now apply forward_centred.
Qed.

Lemma avg_norm_divided y (a : nat -> R) j :
  0 < a j ->
  avg_norm (mkTensor (size0 y) (size1 y) (size2 y) (fun i j k => at_ y i j k / a j)) j
  = avg_norm y j / a j.
Proof.
  intros Ha. unfold avg_norm. cbn [size2].
  rewrite total_ext with (g := fun k => std y j k * / a j)
    by (intros k _; now apply std_divided).
  rewrite total_scale. change (fun k : nat => std y j k) with (std y j).
  unfold Rdiv. ring.
Qed.

(** A tensor that is centred and of unit scale is left as it is. *)
Lemma forward_fixed y :
  (forall j k, (j < size1 y)%nat -> (k < size2 y)%nat ->
               total (size0 y) (fun i => at_ y i j k) = 0) ->
  (forall j, (j < size1 y)%nat -> avg_norm y j = 1) ->
  same (forward true y) y.
Proof.
  intros Hzero Hone.
  destruct (sizes_forward true y) as (H0 & H1 & H2).
  repeat split; try assumption.
  intros i j k Hi Hj Hk. rewrite H0 in Hi. rewrite H1 in Hj. rewrite H2 in Hk.
  assert (Hxn : forall i' j' k', (j' < size1 y)%nat -> (k' < size2 y)%nat ->
                                 at_ (x_normalized y) i' j' k' = at_ y i' j' k').
  { intros i' j' k' Hj' Hk'. unfold x_normalized.
    destruct (Nat.ltb 1 (size0 y)); [|reflexivity].
    cbn [at_]. unfold mean_dim0. rewrite Hzero by assumption.
    unfold Rdiv. ring. }
  assert (Havg : avg_norm (x_normalized y) j = avg_norm y j).
  { destruct (sizes_x_normalized y) as (E0 & E1 & E2).
    unfold avg_norm. rewrite E2. f_equal. apply total_ext. intros k' Hk'.
    unfold std. rewrite E0. f_equal. f_equal. apply total_ext. intros i' _.
    now rewrite Hxn. }
  unfold forward. cbn [negb at_]. rewrite Havg, Hone, Hxn by assumption.
  unfold Rdiv. rewrite Rinv_1. ring.
Qed.

(** X24: with scaling, the output of [BurnsNorm] on more than one example
    has, for every variant whose centred data are not all zero, standard
    deviations that average to one over the hidden dimension; when this
    holds of all variants, normalising the output again gives it back. *)
Theorem burns_norm_unit_scale x :
  (1 < size0 x)%nat -> (0 < size2 x)%nat ->
  (forall j, (j < size1 x)%nat -> avg_norm (x_normalized x) j <> 0) ->
  (forall j, (j < size1 x)%nat -> avg_norm (forward true x) j = 1) /\
  same (forward true (forward true x)) (forward true x).
Proof.
  intros Hn Hd Hnz.
  destruct (sizes_x_normalized x) as (H0 & H1 & H2).
  destruct (sizes_forward true x) as (F0 & F1 & F2).
  assert (Hone : forall j, (j < size1 x)%nat -> avg_norm (forward true x) j = 1).
  { intros j Hj.
    assert (Ha : 0 < avg_norm (x_normalized x) j).
    { pose proof (@avg_norm_nonneg (x_normalized x) j) as Hpos.
      rewrite H2 in Hpos. specialize (Hpos Hd). specialize (Hnz j Hj). lra. }
    unfold forward. cbn [negb].
    rewrite (@avg_norm_divided (x_normalized x) (avg_norm (x_normalized x)) j Ha).
    unfold Rdiv. apply Rinv_r. lra. }
  split; [exact Hone|].
  apply forward_fixed.
  - intros j k _ _. rewrite F0. now apply forward_centred.
  - intros j Hj. apply Hone. now rewrite <- F1.
Qed.

End BurnsNormFacts.

Section BurnsNormExamples.
Import Vec BurnsNorm.
Local Open Scope R_scope.

Local Notation "'pair_of_examples'" :=
  (mkTensor 2 1 1 (fun i _ _ => match i with O => 1 | _ => 3 end)).

Lemma pair_of_examples_varies j : avg_norm (x_normalized pair_of_examples) j <> 0.
Proof.
  cbv - [Rplus Rminus Rmult Rdiv Rinv Ropp IZR sqrt].
  match goal with |- (sqrt ?a / sqrt ?b + 0) / 1 = 0 -> False =>
    replace a with 2 by lra; replace b with 2 by lra
  end.
  assert (Hs : 0 < sqrt 2) by (apply sqrt_lt_R0; lra).
  intros H. unfold Rdiv in H. rewrite Rinv_r in H by lra. lra.
Qed.

Lemma burns_norm_centres_witness :
  size0 (forward true pair_of_examples) = 2%nat /\
  size1 (forward true pair_of_examples) = 1%nat /\
  size2 (forward true pair_of_examples) = 1%nat /\
  total 2 (fun i => at_ (forward true pair_of_examples) i 0%nat 0%nat) = 0.
Proof.
  apply (@burns_norm_centres true pair_of_examples 0%nat 0%nat).
  - cbn. lia.
  - intros _. apply pair_of_examples_varies.
Defined.

Lemma burns_norm_unit_scale_witness :
  (forall j, (j < 1)%nat -> avg_norm (forward true pair_of_examples) j = 1) /\
  same (forward true (forward true pair_of_examples)) (forward true pair_of_examples).
Proof.
  apply (@burns_norm_unit_scale pair_of_examples).
  - cbn. lia.
  - cbn. lia.
  - intros j _. apply pair_of_examples_varies.
Defined.

End BurnsNormExamples.

(** ** [train.py]: the complete trace of a returning run *)

Section TraceOfRun.
Import Py Train Runs.
Context {C : Collaborators}.
Local Open Scope string_scope.
Local Open Scope list_scope.

Lemma eval_loop_log_ok (self : Elicit Hyper) layer loss rep ms vd td names st w st' w' :
  eval_loop self layer loss rep ms vd td names st w = (Ok st', w') ->
  log w' = log w ++ map (fun n => Evaluate n rep) names.
Proof.
  revert st w. induction names as [|name names IH]; intros st w; cbn [eval_loop].
  - unfold ret. intros [= <- <-]. cbn [map]. now rewrite app_nil_r.
  - unfold bind at 1. unfold lift at 1.
    destruct (getitem vd name) as [val|e]; [|discriminate].
    unfold bind at 1. unfold lift at 1.
    destruct (getitem td name) as [train|e]; [|discriminate].
    unfold bind at 1. unfold emit at 1.
    intros Hrest. apply IH in Hrest. cbn [log] in Hrest.
    rewrite Hrest, <- app_assoc. reflexivity.
Qed.

Lemma supervised_models_trace (self : Elicit Hyper) layer device lr_dir td w ms w' :
  supervised_models self layer device lr_dir td w = (Ok ms, w') ->
  log w' = log w ++ (if String.eqb (supervised self) "none" then []
                     else [TrainSupervised; SaveLrModels (layer_file lr_dir layer)]).
Proof.
  unfold supervised_models.
  destruct (String.eqb (supervised self) "none"); cbn [negb].
  - unfold ret. intros [= <- <-]. now rewrite app_nil_r.
  - unfold bind, emit, with_rng, ret. cbn [rng log].
    intros [= <- <-]. cbn [log]. now rewrite <- app_assoc.
Qed.

(** X26: the complete trace of a returning run, in order: seeding and the
    two calls of [prepare_data]; the creation of the model directories; the
    fit (on the eigen path one update per training dataset in the order of
    [train_dict], then [fit_streaming]; on the CCS path the one fit) and the
    calibration; the reporter checkpoint of this layer; the training and
    saving of the supervised models unless [supervised] is "none"; and the
    evaluation of the one calibrated reporter on every dataset of
    [val_dict], in its order.  Nothing else happens. *)
Theorem trace_of_returning_run
    (self : Elicit Hyper) (layer : Z) (devices : list string) (world_size : Z)
    (w w' : World) (res : dict (list Row) * dict Logprobs) :
  apply_to_layer self layer devices world_size w = (Ok res, w') ->
  let td := train_dict_of self layer devices world_size in
  let vd := val_dict_of self layer devices world_size in
  exists out fit_events rep,
    assert_path (out_dir self) = Ok out /\
    log w' = log w ++ preparation self layer ++ [CreateModelsDir out]
               ++ fit_events
               ++ [SaveReporter (layer_file (out ++ "/reporters") layer) rep]
               ++ (if String.eqb (supervised self) "none" then []
                   else [TrainSupervised;
                         SaveLrModels (layer_file (out ++ "/lr_models") layer)])
               ++ map (fun n => Evaluate n rep) (keys vd) /\
    (family (net self) = EigenFitterConfig ->
     exists fitter fitted,
       fit_events = map EigenUpdate (keys td)
                      ++ [FitStreaming fitter fitted; PlattScale fitted rep]) /\
    (family (net self) = CcsConfig ->
     exists r0 r1, fit_events = [CcsFit r0 r1; PlattScale r1 rep]).
Proof.
  intros Hrun td vd.
  destruct (apply_to_layer_ok_inv _ _ _ _ _ Hrun)
    as (first & v & k & d & out & rep & loss & ms & w3 & w5
        & _ & Hp & Hfit & Hsup & Heval).
  apply eval_loop_log_ok in Heval. apply supervised_models_trace in Hsup.
  cbn [log] in Hsup.
  assert (Hfits : exists fit_events,
             log w3 = ((log w ++ preparation self layer) ++ [CreateModelsDir out])
                        ++ fit_events /\
             (family (net self) = EigenFitterConfig ->
              exists fitter fitted,
                fit_events = map EigenUpdate (keys td)
                               ++ [FitStreaming fitter fitted; PlattScale fitted rep]) /\
             (family (net self) = CcsConfig ->
              exists r0 r1, fit_events = [CcsFit r0 r1; PlattScale r1 rep])).
  { unfold fit in Hfit. destruct (family (net self)) as [| |t] eqn:Hfam.
    - apply fit_ccs_ok in Hfit as (_ & r0 & r1 & l & Hlog & _ & _).
      cbn [log] in Hlog. eexists. split; [exact Hlog|].
      split; [discriminate|]. intros _. eauto.
    - apply fit_eigen_ok in Hfit as (fitted & Hlog & _ & _).
      cbn [log] in Hlog. eexists. split; [exact Hlog|].
      split; [|discriminate]. intros _. eauto.
    - discriminate. }
  destruct Hfits as (fit_events & Hlog3 & Heigen & Hccs).
  exists out, fit_events, rep. split; [exact Hp|].
  split; [|split; assumption].
  rewrite Heval, Hsup, Hlog3. now rewrite <- !app_assoc.
Qed.

End TraceOfRun.

Section TraceExamples.
Import Py Train Runs Scenario.
Local Open Scope string_scope.
Local Open Scope list_scope.
Local Open Scope Z_scope.

Ltac run_layer :=
  cbv - [Rplus Rminus Rmult Rdiv Rinv Ropp exp IZR INR sqrt].

Local Notation "'two'" := (collaborators two_tasks one_task).
Local Notation "'cfg'" := (elicit EigenFitterConfig "single").

Lemma trace_of_returning_run_witness :
  exists res w',
    @apply_to_layer two cfg 3 [] 1 (@start two 0) = (Ok res, w') /\
    let td := @train_dict_of two cfg 3 [] 1 in
    let vd := @val_dict_of two cfg 3 [] 1 in
    exists out fit_events rep,
      @assert_path two (out_dir cfg) = Ok out /\
      log w' = [] ++ @preparation two cfg 3 ++ [CreateModelsDir out]
                 ++ fit_events
                 ++ [SaveReporter (layer_file (out ++ "/reporters") 3) rep]
                 ++ (if String.eqb (supervised cfg) "none" then []
                     else [TrainSupervised;
                           SaveLrModels (layer_file (out ++ "/lr_models") 3)])
                 ++ map (fun n => Evaluate n rep) (keys vd) /\
      (family (net cfg) = EigenFitterConfig ->
       exists fitter fitted,
         fit_events = map EigenUpdate (keys td)
                        ++ [FitStreaming fitter fitted; PlattScale fitted rep]) /\
      (family (net cfg) = CcsConfig ->
       exists r0 r1, fit_events = [CcsFit r0 r1; PlattScale r1 rep]).
Proof.
  eexists. eexists. split; [run_layer; reflexivity|].
  eapply (@trace_of_returning_run two cfg 3 [] 1 (@start two 0)).
  run_layer. reflexivity.
Defined.

End TraceExamples.
